(** * Ursinaxball: the game orchestrator, the ball resolver and the action
    recorder, embedded shallowly and checked against their specification.

    Sources embedded here:
    - [ursinaxball/game.py]: [normalize_action] and the [Game] class;
    - [ursinaxball/objects/base/ball.py]: [get_ball];
    - [ursinaxball/objects/base/goal_object.py]: the [Goal] fields;
    - [ursinaxball/game/modules/systems/game_recorder.py]:
      [input_translate_js] and [GameActionRecorder].

    Part I holds the model, Part II the proofs. *)

From Stdlib Require Import ZArith QArith Lia.
From stdpp Require Import base option list strings gmap pretty.

Local Close Scope Q_scope.
Local Open Scope Z_scope.

(* ===================================================================== *)
(** * Part I. The model                                                   *)
(* ===================================================================== *)

(** ** Python exceptions and the error monad *)

Inductive PyError : Type :=
  | IndexError
  | TypeError
  | ValueError
  | OverflowError
  | AttributeError
  | FileNotFoundError
  | OSError
  | CodecError.

#[global] Instance PyError_eq_dec : EqDecision PyError.
Proof. solve_decision. Defined.

Inductive result (A : Type) : Type :=
  | Ok (a : A)
  | Err (e : PyError).

Arguments Ok {A} a.
Arguments Err {A} e.

#[export] Instance result_ret : MRet result := fun A a => Ok a.

#[export] Instance result_bind : MBind result :=
  fun A B f m => match m with Ok a => f a | Err e => Err e end.

#[export] Instance result_fmap : FMap result :=
  fun A B f m => match m with Ok a => Ok (f a) | Err e => Err e end.

Definition is_Ok {A} (r : result A) : Prop := exists a, r = Ok a.

(** [l[i]] for a Python list: negative indices count from the end, anything
    out of range raises [IndexError]. *)
Definition py_getitem {A} (l : list A) (i : Z) : result A :=
  let j := if i <? 0 then Z.of_nat (length l) + i else i in
  if j <? 0 then Err IndexError
  else match l !! Z.to_nat j with
       | Some a => Ok a
       | None => Err IndexError
       end.

Definition len {A} (l : list A) : Z := Z.of_nat (length l).

(** ** [common_values]: the enumerations *)

Module TeamID.
Inductive t : Type := SPECTATOR | RED | BLUE.

#[global] Instance eq_dec : EqDecision t.
Proof. solve_decision. Defined.
End TeamID.

Module GameState.
Inductive t : Type := KICKOFF | PLAYING | GOAL | END.

#[global] Instance eq_dec : EqDecision t.
Proof. solve_decision. Defined.
End GameState.

(** The members of [CollisionFlag] that the sources use.  The enumeration
    itself ([utils/enums.py]) is not part of the sources, so its values are
    taken as parameters; flags combine with [Z.lor] and are tested with
    [Z.land], as [IntFlag] does. *)
Module CollisionFlag.
Class values : Type := {
  BALL : Z;
  RED : Z;
  BLUE : Z;
  REDKO : Z;
  BLUEKO : Z;
  KICK : Z;
  SCORE : Z;
  PLAYER_COLLISION : Z;
  from_list : list string -> Z
}.

(** [flag] is contained in the bit set [group]. *)
Definition includes (group flag : Z) : Prop := Z.land group flag = flag.

Definition includesb (group flag : Z) : bool := Z.land group flag =? flag.
End CollisionFlag.

(** ** [game.py]: [normalize_action] *)

(** One cell of an action row: [None], an integer, or a value on which
    [int(x)] raises [TypeError] or [ValueError]. *)
Inductive Cell : Type :=
  | CNone
  | CInt (z : Z)
  | CBad.

(** [ActionType]: [None], a list or tuple of cells, a one-dimensional
    integer array, or any other object. *)
Inductive ActionType : Type :=
  | ActNone
  | ActSeq (cells : list Cell)
  | ActArray (xs : list Z)
  | ActOther.

Definition DEFAULT_ACTION : list Z := [0; 0; 0].

(** [[0 if x is None else int(x) for x in action]]; [None] stands for the
    exception that leaves the comprehension. *)
Fixpoint convert_cells (cells : list Cell) : option (list Z) :=
  match cells with
  | [] => Some []
  | CNone :: rest => cons 0 <$> convert_cells rest
  | CInt z :: rest => cons z <$> convert_cells rest
  | CBad :: _ => None
  end.

Definition normalize_action (action : ActionType) : list Z :=
  match action with
  | ActNone => DEFAULT_ACTION
  | ActArray xs => xs
  | ActSeq cells =>
      match convert_cells cells with
      | Some row => row
      | None => DEFAULT_ACTION
      end
  | ActOther => DEFAULT_ACTION
  end.

(** What the specification promises of a stored action: three components,
    [dx] and [dy] in [{-1,0,1}] and [kick] in [{0,1}]. *)
Definition clamped_action (a : list Z) : Prop :=
  exists dx dy kick, a = [dx; dy; kick] /\
    -1 <= dx <= 1 /\ -1 <= dy <= 1 /\ 0 <= kick <= 1.

(** ** Numbers and vectors *)

(** Coordinates are [float64] values.  No claim below depends on how they
    round, so the arithmetic the sources use is an interface: any
    interpretation of it (IEEE doubles included) satisfies the theorems. *)
Class Scalar (F : Type) : Type := {
  of_Q : Q -> F;              (* a literal, or an [int] stored in an array *)
  fsub : F -> F -> F;
  fmul : F -> F -> F;
  fneg : F -> F;
  fle0 : F -> bool;           (* [x <= 0] *)
  norm_gt0 : F -> F -> bool   (* [np.linalg.norm([x, y]) > 0] *)
}.

Definition of_Z `{Scalar F} (z : Z) : F := of_Q (inject_Z z).

Definition Vec (F : Type) : Type := (F * F)%type.

Definition vsub `{Scalar F} (a b : Vec F) : Vec F :=
  (fsub a.1 b.1, fsub a.2 b.2).

(** [np.cross] of two plane vectors: the scalar [a0*b1 - a1*b0]. *)
Definition cross `{Scalar F} (a b : Vec F) : F :=
  fsub (fmul a.1 b.2) (fmul a.2 b.1).

(** Exact rational arithmetic, an executable interpretation used to run the
    model on concrete games. *)
Definition Q_scalar : Scalar Q := {|
  of_Q := fun q => q;
  fsub := Qminus;
  fmul := Qmult;
  fneg := Qopp;
  fle0 := fun x => Qle_bool x (inject_Z 0);
  norm_gt0 := fun x y =>
    negb (Qeq_bool x (inject_Z 0) && Qeq_bool y (inject_Z 0))
|}.

(** ** Values that cross the recording file *)

#[warnings="-register-all"]
Inductive PyVal : Type :=
  | VInt (z : Z)
  | VStr (s : string)
  | VList (l : list PyVal).

(** ** Discs, goals, stadiums and players, as [game.py] reads them *)

Definition Color : Type := (Z * Z * Z * Z)%type.

Record Disc (F : Type) : Type := mkDisc {
  position : option (Vec F);
  velocity : Vec F;
  gravity : Vec F;
  radius : F;
  inv_mass : F;
  damping : F;
  b_coef : F;
  color : Color;
  collision_group : Z;
  collision_mask : Z;
  player_id : option Z
}.

Arguments mkDisc {F}.
Arguments position {F}.
Arguments velocity {F}.
Arguments gravity {F}.
Arguments radius {F}.
Arguments inv_mass {F}.
Arguments damping {F}.
Arguments b_coef {F}.
Arguments color {F}.
Arguments collision_group {F}.
Arguments collision_mask {F}.
Arguments player_id {F}.

Definition set_position {F} (p : option (Vec F)) (d : Disc F) : Disc F :=
  mkDisc p (velocity d) (gravity d) (radius d) (inv_mass d) (damping d)
    (b_coef d) (color d) (collision_group d) (collision_mask d) (player_id d).

Definition set_color {F} (c : Color) (d : Disc F) : Disc F :=
  mkDisc (position d) (velocity d) (gravity d) (radius d) (inv_mass d)
    (damping d) (b_coef d) c (collision_group d) (collision_mask d)
    (player_id d).

Definition set_collision_group {F} (g : Z) (d : Disc F) : Disc F :=
  mkDisc (position d) (velocity d) (gravity d) (radius d) (inv_mass d)
    (damping d) (b_coef d) (color d) g (collision_mask d) (player_id d).

Definition set_collision_mask {F} (m : Z) (d : Disc F) : Disc F :=
  mkDisc (position d) (velocity d) (gravity d) (radius d) (inv_mass d)
    (damping d) (b_coef d) (color d) (collision_group d) m (player_id d).

Definition set_player_id {F} (i : option Z) (d : Disc F) : Disc F :=
  mkDisc (position d) (velocity d) (gravity d) (radius d) (inv_mass d)
    (damping d) (b_coef d) (color d) (collision_group d) (collision_mask d) i.

(** [Goal]: [points] is the pair [(p0, p1)], [team] the raw tag of the
    stadium file ([data_object.get("team")], possibly absent). *)
Record Goal (F : Type) : Type := mkGoal {
  points : Vec F * Vec F;
  goal_team : option string
}.

Arguments mkGoal {F}.
Arguments points {F}.
Arguments goal_team {F}.

(** A stadium.  In the template ([stadium_store]) the discs are values; in
    the live stadium ([stadium_game]) they are references into the disc
    heap, because the players' discs are appended to the list and stay
    shared with their [PlayerHandler]. *)
Record Stadium (F D : Type) : Type := mkStadium {
  discs : list D;
  goals : list (Goal F);
  red_spawn_points : list (Vec F);
  blue_spawn_points : list (Vec F);
  player_physics : Disc F;
  spawn_distance : F;
  kickoff_reset : string
}.

Arguments mkStadium {F D}.
Arguments discs {F D}.
Arguments goals {F D}.
Arguments red_spawn_points {F D}.
Arguments blue_spawn_points {F D}.
Arguments player_physics {F D}.
Arguments spawn_distance {F D}.
Arguments kickoff_reset {F D}.

(** A reference to a disc object: its index in the heap. *)
Definition DiscRef : Type := nat.

Record PlayerHandler : Type := mkPlayer {
  name : string;
  id : Z;
  team : TeamID.t;
  disc : DiscRef;
  action : list Z;
  kicking : bool;
  kick_cancel : bool
}.

Definition set_action (a : list Z) (p : PlayerHandler) : PlayerHandler :=
  mkPlayer (name p) (id p) (team p) (disc p) a (kicking p) (kick_cancel p).

Definition set_kick_flags (k c : bool) (p : PlayerHandler) : PlayerHandler :=
  mkPlayer (name p) (id p) (team p) (disc p) (action p) k c.

(** ** [game_recorder.py]: the action recorder *)

(** What the recorder takes from outside the sources: the [INPUT_*] bit
    values and the integer value of a [TeamID] ([common_values]), Python's
    string formatting, [os.path.join], the [msgpack] codec, and the
    operating system: [open_wb path] is [open(path, "wb+")], which raises
    [FileNotFoundError] for a folder that does not exist and [OSError] for
    one that cannot be written, and [write_bytes path data] is the
    [f.write(data)] on the file opened. *)
Class RecorderEnv : Type := {
  INPUT_UP : Z;
  INPUT_DOWN : Z;
  INPUT_RIGHT : Z;
  INPUT_LEFT : Z;
  INPUT_SHOOT : Z;
  team_value : TeamID.t -> Z;
  format_value : PyVal -> string;
  os_path_join : list string -> string;
  bytes : Type;
  packb : PyVal -> result bytes;
  unpackb : bytes -> result PyVal;
  open_wb : string -> result unit;
  write_bytes : string -> bytes -> result unit
}.

(** The codec gives back what it was given, whenever it accepts it. *)
Definition codec_round_trip `{RecorderEnv} : Prop :=
  forall v b, packb v = Ok b -> unpackb b = Ok v.

Definition input_translate_js `{RecorderEnv} (actions : list Z) : result Z :=
  let result := 0 in
  a0 ← py_getitem actions 0;
  let result :=
    if a0 =? -1 then result + INPUT_LEFT
    else if a0 =? 1 then result + INPUT_RIGHT
    else result in
  a1 ← py_getitem actions 1;
  let result :=
    if a1 =? -1 then result + INPUT_DOWN
    else if a1 =? 1 then result + INPUT_UP
    else result in
  a2 ← py_getitem actions 2;
  let result := if a2 =? 0 then result else result + INPUT_SHOOT in
  Ok result.

Record GameActionRecorder : Type := mkRecorder {
  folder_rec : string;
  filename : string;
  recording : PyVal;
  player_info : list PyVal;
  player_action : list PyVal;
  options : list PyVal
}.

(** [GameActionRecorder(game, folder_rec)] *)
Definition recorder_init (folder : string) : GameActionRecorder :=
  mkRecorder folder "" (VList []) [] [] [].

(** The files the recorder can see, by path. *)
Abbreviation FileSystem := (gmap string bytes).

Module Recorder.
Section recorder.
Context `{RecorderEnv}.

(** The summary of the game the recorder was built for: the roster, the
    kickoff team and the two scores it reads through [self.game]. *)
Record GameView : Type := mkView {
  view_players : list PlayerHandler;
  view_team_kickoff : TeamID.t;
  view_red : Z;
  view_blue : Z
}.

Definition generate_replay_name (now : Z) (game : GameView) (r : GameActionRecorder)
  : result string :=
  o ← py_getitem (options r) 0;
  Ok ("HBR_" +:+ format_value (VInt now) +:+ "_"
      +:+ format_value (VInt (view_red game)) +:+ "-"
      +:+ format_value (VInt (view_blue game)) +:+ "_"
      +:+ format_value o +:+ ".hbar").

Definition start (game : GameView) (r : GameActionRecorder) : GameActionRecorder :=
  mkRecorder (folder_rec r) (filename r) (recording r)
    (map (fun player =>
            VList [VStr (name player); VStr (format_value (VInt (id player)));
                   VInt (team_value (team player))])
         (view_players game))
    (map (fun _ => VList []) (view_players game))
    [VInt (team_value (view_team_kickoff game) * 8)].

(** [self.player_action[i].append(code)] *)
Definition append_action (streams : list PyVal) (i : nat) (row : list Z)
  : result (list PyVal) :=
  stream ← py_getitem streams (Z.of_nat i);
  match stream with
  | VList codes =>
      code ← input_translate_js row;
      Ok (<[i := VList (codes ++ [VInt code])]> streams)
  | _ => Err AttributeError
  end.

(** The loop of [step], from row [i] on. *)
Fixpoint step_from (i : nat) (actions : list (list Z)) (streams : list PyVal)
  : result (list PyVal) :=
  match actions with
  | [] => Ok streams
  | row :: rest =>
      streams' ← append_action streams i row;
      step_from (S i) rest streams'
  end.

Definition step (actions : list (list Z)) (r : GameActionRecorder)
  : result GameActionRecorder :=
  streams ← step_from 0 actions (player_action r);
  Ok (mkRecorder (folder_rec r) (filename r) (recording r) (player_info r)
        streams (options r)).

(** The path [save] writes to. *)
Definition save_path (r : GameActionRecorder) (file_name : string) : string :=
  os_path_join ["."; folder_rec r; file_name].

(** [save]: the file is opened before the recording is encoded. *)
Definition save (file_name : string) (r : GameActionRecorder) (fs : FileSystem)
  : result FileSystem :=
  _ ← open_wb (save_path r file_name);
  encoded_recording ← packb (recording r);
  _ ← write_bytes (save_path r file_name) encoded_recording;
  Ok (<[save_path r file_name := encoded_recording]> fs).

(** [stop]: the recorder is cleared whether or not a file was written; the
    name of the file stays in [filename]. *)
Definition stop (save_flag : bool) (now : Z) (game : GameView)
    (r : GameActionRecorder) (fs : FileSystem)
  : result (GameActionRecorder * FileSystem) :=
  let players_list :=
    zip_with (fun info action => VList [info; action])
      (player_info r) (player_action r) in
  '(file_name, fs') ←
    (if 0 <? len (options r) then
       o ← py_getitem (options r) 0;
       let r1 := mkRecorder (folder_rec r) (filename r)
                   (VList [o; VList players_list])
                   (player_info r) (player_action r) (options r) in
       file_name ← generate_replay_name now game r1;
       fs' ← (if save_flag then save file_name r1 fs else Ok fs);
       Ok (file_name, fs')
     else Ok (filename r, fs));
  Ok (mkRecorder (folder_rec r) file_name (VList []) [] [] [], fs').

(** [x[i]] on a decoded value. *)
Definition val_getitem (v : PyVal) (i : Z) : result PyVal :=
  match v with
  | VList l => py_getitem l i
  | VStr s => (fun c => VStr (String c EmptyString)) <$> py_getitem (String.list_ascii_of_string s) i
  | VInt _ => Err TypeError
  end.

(** [for x in v] on a decoded value. *)
Definition val_iter (v : PyVal) : result (list PyVal) :=
  match v with
  | VList l => Ok l
  | VStr s => Ok (map (fun c => VStr (String c EmptyString)) (String.list_ascii_of_string s))
  | VInt _ => Err TypeError
  end.

(** [a, b = v] *)
Definition unpack2 (v : PyVal) : result (PyVal * PyVal) :=
  items ← val_iter v;
  match items with
  | [a; b] => Ok (a, b)
  | _ => Err ValueError
  end.

Fixpoint unpack_pairs (items : list PyVal) : result (list (PyVal * PyVal)) :=
  match items with
  | [] => Ok []
  | v :: rest =>
      ab ← unpack2 v;
      abs ← unpack_pairs rest;
      Ok (ab :: abs)
  end.

Definition read_from_file (file_name : string) (r : GameActionRecorder)
    (fs : FileSystem) : result GameActionRecorder :=
  match fs !! file_name with
  | None => Err FileNotFoundError
  | Some contents =>
      recording ← unpackb contents;
      o ← val_getitem recording 0;
      entries ← val_getitem recording 1;
      items ← val_iter entries;
      pairs ← unpack_pairs items;
      Ok (mkRecorder (folder_rec r) (filename r) recording
            (map fst pairs) (map snd pairs) [o])
  end.

End recorder.
End Recorder.

(** ** [game.py]: the [Game] class *)

(** What [Game] calls outside the sources.  [S] is the [GameScore] object.
    - [score_step] .. [score_blue]: the methods and fields of [GameScore]
      that [game.py] and the recorder use; [dec_animation_timeout] is the
      statement [self.score.animation_timeout -= 1].
    - [Disc_copy self other]: [Disc.copy], the receiver after the call.
    - [team_color]: the colour [PlayerHandler.set_color] paints on the disc.
    - [resolve_movement]: [PlayerHandler.resolve_movement]; it reads the
      player (its action included) and yields the new [kicking] and
      [kick_cancel] flags and the disc heap.
    - [update_discs], [resolve_collisions]: the physics step, on the heap. *)
Class GameEnv (F S : Type) : Type := {
  score_step : GameState.t -> S -> S;
  update_score : TeamID.t -> S -> S;
  is_game_over : S -> bool;
  is_animation : S -> bool;
  end_animation : S -> S;
  dec_animation_timeout : S -> S;
  score_red : S -> Z;
  score_blue : S -> Z;
  Disc_copy : Disc F -> Disc F -> Disc F;
  team_color : TeamID.t -> Color;
  resolve_movement :
    PlayerHandler -> Stadium F DiscRef -> S -> list (Disc F) ->
    bool * bool * list (Disc F);
  update_discs :
    Stadium F DiscRef -> list PlayerHandler -> list (Disc F) -> list (Disc F);
  resolve_collisions : Stadium F DiscRef -> list (Disc F) -> list (Disc F)
}.

#[export] Instance Disc_inhabited `{Scalar F} : Inhabited (Disc F) :=
  populate (mkDisc None (of_Z 0, of_Z 0) (of_Z 0, of_Z 0) (of_Z 0) (of_Z 0)
              (of_Z 0) (of_Z 0) (0, 0, 0, 0) 0 0 None).

(** The [actions] argument of [step]: a list or tuple of rows of any
    [ActionType], or a two-dimensional integer array. *)
Inductive ActionsType : Type :=
  | ActionsSeq (rows : list ActionType)
  | ActionsArray (rows : list (list Z)).

Definition int64_range (z : Z) : bool := (- 2 ^ 63 <=? z) && (z <? 2 ^ 63).

(** [np.array(rows, dtype=np.int_)]: rows of unequal length raise
    [ValueError], an integer outside [int64] raises [OverflowError]. *)
Definition np_array (rows : list (list Z)) : result (list (list Z)) :=
  match rows with
  | [] => Ok []
  | first :: rest =>
      if forallb (fun row => Nat.eqb (length row) (length first)) rest then
        if forallb (forallb int64_range) rows then Ok rows
        else Err OverflowError
      else Err ValueError
  end.

Module Game.
Section game.
Context {F S : Type} `{Scalar F} `{CollisionFlag.values} `{RecorderEnv}
  `{!GameEnv F S}.

Record t : Type := mk {
  state : GameState.t;
  players : list PlayerHandler;
  team_kickoff : TeamID.t;
  stadium_store : Stadium F (Disc F);
  stadium_game : Stadium F DiscRef;
  score : S;
  heap : list (Disc F);
  recorder : option GameActionRecorder
}.

Definition set_state (s : GameState.t) (g : t) : t :=
  mk s (players g) (team_kickoff g) (stadium_store g) (stadium_game g)
    (score g) (heap g) (recorder g).

Definition set_players (ps : list PlayerHandler) (g : t) : t :=
  mk (state g) ps (team_kickoff g) (stadium_store g) (stadium_game g)
    (score g) (heap g) (recorder g).

Definition set_team_kickoff (k : TeamID.t) (g : t) : t :=
  mk (state g) (players g) k (stadium_store g) (stadium_game g)
    (score g) (heap g) (recorder g).

Definition set_stadium_game (s : Stadium F DiscRef) (g : t) : t :=
  mk (state g) (players g) (team_kickoff g) (stadium_store g) s
    (score g) (heap g) (recorder g).

Definition set_score (s : S) (g : t) : t :=
  mk (state g) (players g) (team_kickoff g) (stadium_store g) (stadium_game g)
    s (heap g) (recorder g).

Definition set_heap (h : list (Disc F)) (g : t) : t :=
  mk (state g) (players g) (team_kickoff g) (stadium_store g) (stadium_game g)
    (score g) h (recorder g).

Definition set_recorder (r : option GameActionRecorder) (g : t) : t :=
  mk (state g) (players g) (team_kickoff g) (stadium_store g) (stadium_game g)
    (score g) (heap g) r.

(** The disc object behind a reference. *)
Definition deref (h : list (Disc F)) (r : DiscRef) : Disc F := h !!! r.

(** [make_player_action(player, action)]: the player after the call, and
    the game. *)
Definition make_player_action (player : PlayerHandler) (action : ActionType)
    (g : t) : PlayerHandler * t :=
  let player := set_action (normalize_action action) player in
  let '(k, c, h) :=
    resolve_movement player (stadium_game g) (score g) (heap g) in
  (set_kick_flags k c player, set_heap h g).

(** [disc.position - ...] needs a position: [None] raises [TypeError]. *)
Definition position_of (d : Disc F) : result (Vec F) :=
  match position d with
  | Some p => Ok p
  | None => Err TypeError
  end.

(** The test inside the loops of [check_goal], for one disc and one goal. *)
Definition crosses_goal (previous_disc_pos current_disc_pos : Disc F)
    (goal : Goal F) : result bool :=
  previous ← position_of previous_disc_pos;
  current ← position_of current_disc_pos;
  let previous_p0 := vsub previous (points goal).1 in
  let current_p0 := vsub current (points goal).1 in
  let current_p1 := vsub current (points goal).2 in
  let disc_vector := vsub current previous in
  let goal_vector := vsub (points goal).2 (points goal).1 in
  Ok (fle0 (fmul (cross current_p0 disc_vector) (cross current_p1 disc_vector))
      && fle0 (fmul (cross previous_p0 goal_vector) (cross current_p0 goal_vector))).

Definition team_score (goal : Goal F) : TeamID.t :=
  if decide (goal_team goal = Some "red") then TeamID.RED else TeamID.BLUE.

(** The inner loop: [Some team] is the [return] that leaves both loops. *)
Fixpoint check_goal_goals (previous_disc_pos current_disc_pos : Disc F)
    (gs : list (Goal F)) : result (option TeamID.t) :=
  match gs with
  | [] => Ok None
  | goal :: rest =>
      hit ← crosses_goal previous_disc_pos current_disc_pos goal;
      if hit : bool then Ok (Some (team_score goal))
      else check_goal_goals previous_disc_pos current_disc_pos rest
  end.

(** The outer loop, over [zip(previous, current)]. *)
Fixpoint check_goal_pairs (pairs : list (Disc F * Disc F))
    (gs : list (Goal F)) : result TeamID.t :=
  match pairs with
  | [] => Ok TeamID.SPECTATOR
  | (previous_disc_pos, current_disc_pos) :: rest =>
      found ← check_goal_goals previous_disc_pos current_disc_pos gs;
      match found with
      | Some team_score => Ok team_score
      | None => check_goal_pairs rest gs
      end
  end.

Definition has_score_flag (d : Disc F) : bool :=
  negb (Z.land (collision_group d) CollisionFlag.SCORE =? 0).

(** The discs of the live stadium that carry the score flag. *)
Definition score_discs (g : t) : list (Disc F) :=
  filter (fun d => has_score_flag d = true)
    (map (deref (heap g)) (discs (stadium_game g))).

Definition check_goal (previous_discs_position : list (Disc F)) (g : t)
  : result TeamID.t :=
  let current_disc_position := score_discs g in
  check_goal_pairs (zip previous_discs_position current_disc_position)
    (goals (stadium_game g)).

(** The loop over the players that both state handlers start with:
    every player disc that has a position gets the mask [mask]. *)
Definition mask_players (mask : Z) (ps : list PlayerHandler)
    (h : list (Disc F)) : list (Disc F) :=
  foldl (fun h player =>
           match position (deref h (disc player)) with
           | Some _ => alter (set_collision_mask mask) (disc player) h
           | None => h
           end) h ps.

Definition kickoff_collision (g : t) : Z :=
  if decide (team_kickoff g = TeamID.RED) then CollisionFlag.REDKO
  else CollisionFlag.BLUEKO.

Definition _handle_kickoff_state (g : t) : result t :=
  let h := mask_players
             (Z.lor CollisionFlag.PLAYER_COLLISION (kickoff_collision g))
             (players g) (heap g) in
  let g := set_heap h g in
  ball_disc ← py_getitem (discs (stadium_game g)) 0;
  let v := velocity (deref (heap g) ball_disc) in
  if norm_gt0 v.1 v.2 then Ok (set_state GameState.PLAYING g) else Ok g.

Definition _handle_playing_state (previous_discs_position : list (Disc F))
    (g : t) : result t :=
  let h := mask_players CollisionFlag.PLAYER_COLLISION (players g) (heap g) in
  let g := set_heap h g in
  team_goal ← check_goal previous_discs_position g;
  if decide (team_goal <> TeamID.SPECTATOR) then
    let g := set_state GameState.GOAL g in
    let g := set_score (update_score team_goal (score g)) g in
    if negb (is_game_over (score g)) then
      Ok (set_team_kickoff
            (if decide (team_goal = TeamID.BLUE) then TeamID.BLUE
             else TeamID.RED) g)
    else Ok g
  else if is_game_over (score g) then
    let g := set_state GameState.END g in
    Ok (set_score (end_animation (score g)) g)
  else Ok g.

(** [for disc_game, disc_store in zip(...): disc_game.copy(disc_store)] *)
Definition restore_discs (discs_game : list DiscRef)
    (discs_store : list (Disc F)) (h : list (Disc F)) : list (Disc F) :=
  foldl (fun h pair =>
           alter (fun d => Disc_copy d pair.2) pair.1 h)
    h (zip discs_game discs_store).

(** The procedural spawn of the team's player number [count], on the
    vertical line at abscissa [x]. *)
Definition fallback_spawn (x : F) (count : Z) : Vec F :=
  (x,
   of_Z (if count `mod` 2 =? 1 then -55 * Z.shiftr (count + 1) 1
         else 55 * Z.shiftr (count + 1) 1)).

(** The position given to the team's player number [count]: both team
    branches of the loop have this shape, with [x] the signed
    [spawn_distance]. *)
Definition spawn_position (spawns : list (Vec F)) (x : F) (count : Z)
  : result (Vec F) :=
  if 0 <? len spawns then
    let index := Z.min count (len spawns) in
    py_getitem spawns index
  else Ok (fallback_spawn x count).

(** One turn of the loop over the players in [reset_discs_positions]. *)
Definition reset_player (store : Stadium F (Disc F)) (live : Stadium F DiscRef)
    (player : PlayerHandler) (counts : Z * Z) (h : list (Disc F))
  : result (Z * Z * list (Disc F)) :=
  let '(red_count, blue_count) := counts in
  let h := alter (fun d => Disc_copy d (player_physics store)) (disc player) h in
  let h := alter (fun d =>
                    set_collision_group
                      (Z.lor (collision_group d)
                         (if decide (team player = TeamID.RED)
                          then CollisionFlag.RED else CollisionFlag.BLUE)) d)
             (disc player) h in
  let h := alter (set_player_id (Some (id player))) (disc player) h in
  let h := alter (set_color (team_color (team player))) (disc player) h in
  if decide (team player = TeamID.RED) then
    pos ← spawn_position (red_spawn_points store)
            (fneg (spawn_distance live)) red_count;
    Ok (red_count + 1, blue_count,
        alter (set_position (Some pos)) (disc player) h)
  else if decide (team player = TeamID.BLUE) then
    pos ← spawn_position (blue_spawn_points store)
            (spawn_distance live) blue_count;
    Ok (red_count, blue_count + 1,
        alter (set_position (Some pos)) (disc player) h)
  else Ok (red_count, blue_count, h).

Fixpoint reset_players (store : Stadium F (Disc F)) (live : Stadium F DiscRef)
    (ps : list PlayerHandler) (counts : Z * Z) (h : list (Disc F))
  : result (list (Disc F)) :=
  match ps with
  | [] => Ok h
  | player :: rest =>
      '(red_count, blue_count, h) ← reset_player store live player counts h;
      reset_players store live rest (red_count, blue_count) h
  end.

Definition reset_discs_positions (g : t) : result t :=
  discs_game ←
    (if String.eqb (kickoff_reset (stadium_game g)) "full"
     then Ok (discs (stadium_game g))
     else d ← py_getitem (discs (stadium_game g)) 0; Ok [d]);
  discs_store ←
    (if String.eqb (kickoff_reset (stadium_store g)) "full"
     then Ok (discs (stadium_store g))
     else d ← py_getitem (discs (stadium_store g)) 0; Ok [d]);
  let h := restore_discs discs_game discs_store (heap g) in
  h ← reset_players (stadium_store g) (stadium_game g) (players g) (0, 0) h;
  Ok (set_heap h g).

Definition _handle_goal_state (g : t) : result t :=
  let g := set_score (dec_animation_timeout (score g)) g in
  if negb (is_animation (score g)) then
    if is_game_over (score g) then
      let g := set_state GameState.END g in
      Ok (set_score (end_animation (score g)) g)
    else
      g ← reset_discs_positions g;
      Ok (set_state GameState.KICKOFF g)
  else Ok g.

Definition _handle_end_state (g : t) : bool * t :=
  let g := set_score (dec_animation_timeout (score g)) g in
  (negb (is_animation (score g)), g).

Definition handle_game_state (previous_discs_position : list (Disc F))
    (g : t) : result (bool * t) :=
  let g := set_score (score_step (state g) (score g)) g in
  match state g with
  | GameState.KICKOFF => g ← _handle_kickoff_state g; Ok (false, g)
  | GameState.PLAYING =>
      g ← _handle_playing_state previous_discs_position g; Ok (false, g)
  | GameState.GOAL => g ← _handle_goal_state g; Ok (false, g)
  | GameState.END => Ok (_handle_end_state g)
  end.

Definition game_view (g : t) : Recorder.GameView :=
  Recorder.mkView (players g) (team_kickoff g)
    (score_red (score g)) (score_blue (score g)).

(** [start]: the players' discs join the live stadium's list, by
    reference.  The renderer takes no part in the state and is left out. *)
Definition start (g : t) : result t :=
  let live := stadium_game g in
  let live :=
    mkStadium (discs live ++ map disc (players g)) (goals live)
      (red_spawn_points live) (blue_spawn_points live) (player_physics live)
      (spawn_distance live) (kickoff_reset live) in
  g ← reset_discs_positions (set_stadium_game live g);
  match recorder g with
  | Some r => Ok (set_recorder (Some (Recorder.start (game_view g) r)) g)
  | None => Ok g
  end.

(** [for action, player in zip(actions, self.players)]: the players after
    the loop (those beyond the rows untouched) and the game. *)
Fixpoint apply_actions (actions : list (list Z)) (ps : list PlayerHandler)
    (g : t) : list PlayerHandler * t :=
  match actions, ps with
  | action :: actions, player :: ps =>
      let '(player, g) := make_player_action player (ActArray action) g in
      let '(ps, g) := apply_actions actions ps g in
      (player :: ps, g)
  | _, _ => (ps, g)
  end.

Definition step (actions : ActionsType) (g : t) : result (bool * t) :=
  actions ←
    match actions with
    | ActionsSeq rows => np_array (map normalize_action rows)
    | ActionsArray rows => Ok rows
    end;
  let '(ps, g) := apply_actions actions (players g) g in
  let g := set_players ps g in
  let previous_discs_position := score_discs g in
  let g := set_heap (update_discs (stadium_game g) (players g) (heap g)) g in
  let g := set_heap (resolve_collisions (stadium_game g) (heap g)) g in
  '(done, g) ← handle_game_state previous_discs_position g;
  g ← match recorder g with
      | Some r =>
          r ← Recorder.step actions r;
          Ok (set_recorder (Some r) g)
      | None => Ok g
      end;
  Ok (done, g).

End game.
End Game.

(** ** [ball.py]: [get_ball] *)

(** A value of the stadium file, as far as a disc description needs one. *)
#[warnings="-register-all"]
Inductive JVal : Type :=
  | JNull
  | JNum (q : Q)
  | JStr (s : string)
  | JArr (l : list JVal).

Module Ball.
Section ball.
Context {F : Type} `{Scalar F} `{CollisionFlag.values}.

(** [Disc] with the field names [ball.py] builds it with. *)
Record Disc : Type := mkDisc {
  position : Vec F;
  speed : Vec F;
  gravity : Vec F;
  radius : F;
  inv_mass : F;
  damping : F;
  b_coef : F;
  color : Color;
  c_group : Z;
  c_mask : Z
}.

Definition set_c_group (g : Z) (d : Disc) : Disc :=
  mkDisc (position d) (speed d) (gravity d) (radius d) (inv_mass d)
    (damping d) (b_coef d) (color d) g (c_mask d).

(** The [ball] argument: absent, a string, or an inline object. *)
Inductive BallArg : Type :=
  | BallNone
  | BallStr (s : string)
  | BallDict (d : gmap string JVal).

(** [Trait], [DiscRaw], the class [Disc] and [msgspec] are outside the
    sources: [to_disc d traits] stands for
    [msgspec.convert(d, DiscRaw).to_disc(traits)], and [from_dict disc] for
    the call of [Ball] on the keywords [disc.__dict__], which raises
    [AttributeError] when the instances of the class carry no [__dict__],
    as those of a [msgspec.Struct] do not. *)
Context {Trait : Type}.
Context (to_disc : gmap string JVal -> gmap string Trait -> result Disc).
Context (from_dict : Disc -> result Disc).

Definition ball_default : Disc :=
  mkDisc (of_Z 0, of_Z 0) (of_Z 0, of_Z 0) (of_Z 0, of_Z 0)
    (of_Z 10) (of_Z 1) (of_Q (Qmake 99 100)) (of_Q (Qmake 1 2))
    (255, 255, 255, 255)
    (CollisionFlag.from_list ["ball"])
    (CollisionFlag.from_list ["all"]).

(** [get_ball]: the ball, and the disc list after the call ([pop] removes
    the promoted disc from it, before the ball is built). *)
Definition get_ball (ball : BallArg) (discs : list Disc)
    (traits : gmap string Trait) : result (Disc * list Disc) :=
  match ball with
  | BallNone => Ok (ball_default, discs)
  | BallStr s =>
      if String.eqb s "disc0" then
        match discs with
        | disc :: rest =>
            ball ← from_dict disc;
            Ok (ball, rest)
        | [] => Err IndexError
        end
      else Err ValueError
  | BallDict ball =>
      let ball := <["pos" := JArr [JNum (inject_Z 0); JNum (inject_Z 0)]]> ball in
      disc ← to_disc ball traits;
      let disc :=
        set_c_group
          (Z.lor (c_group disc)
             (Z.lor CollisionFlag.KICK CollisionFlag.SCORE)) disc in
      Ok (disc, discs)
  end.

(** The invariant of the specification: the group of a ball includes the
    ball, the kick and the score flag. *)
Definition ball_flags (d : Disc) : Prop :=
  CollisionFlag.includes (c_group d) CollisionFlag.BALL /\
  CollisionFlag.includes (c_group d) CollisionFlag.KICK /\
  CollisionFlag.includes (c_group d) CollisionFlag.SCORE.

End ball.
End Ball.

(** ** An executable instance of the interfaces *)

(** The flag values of HaxBall, and [from_list] as the union of the named
    flags (unknown names add nothing). *)
Definition haxball_flag (flag : string) : Z :=
  if String.eqb flag "ball" then 1
  else if String.eqb flag "red" then 2
  else if String.eqb flag "blue" then 4
  else if String.eqb flag "redKO" then 8
  else if String.eqb flag "blueKO" then 16
  else if String.eqb flag "wall" then 32
  else if String.eqb flag "all" then 63
  else if String.eqb flag "kick" then 64
  else if String.eqb flag "score" then 128
  else 0.

Definition haxball_flags : CollisionFlag.values := {|
  CollisionFlag.BALL := 1;
  CollisionFlag.RED := 2;
  CollisionFlag.BLUE := 4;
  CollisionFlag.REDKO := 8;
  CollisionFlag.BLUEKO := 16;
  CollisionFlag.KICK := 64;
  CollisionFlag.SCORE := 128;
  CollisionFlag.PLAYER_COLLISION := 39;
  CollisionFlag.from_list :=
    fun flags => foldr (fun flag acc => Z.lor (haxball_flag flag) acc) 0 flags
|}.

(** A recorder environment: HaxBall's input bits, decimal formatting of
    integers, paths joined with a slash, a codec that stores the value
    itself, and a file system in which the folder [missing] does not
    exist. *)
Definition test_format (v : PyVal) : string :=
  match v with
  | VInt z => pretty z
  | VStr s => s
  | VList _ => "[...]"
  end.

Definition test_recorder_env : RecorderEnv := {|
  INPUT_UP := 1;
  INPUT_DOWN := 2;
  INPUT_LEFT := 4;
  INPUT_RIGHT := 8;
  INPUT_SHOOT := 16;
  team_value := fun team =>
    match team with
    | TeamID.SPECTATOR => 0
    | TeamID.RED => 1
    | TeamID.BLUE => 2
    end;
  format_value := test_format;
  os_path_join := fun parts => foldr (fun part acc =>
      if String.eqb acc "" then part
      else if String.eqb part "" then acc
      else part +:+ "/" +:+ acc) "" parts;
  bytes := PyVal;
  packb := fun v => Ok v;
  unpackb := fun b => Ok b;
  open_wb := fun path =>
    if String.prefix "./missing/" path then Err FileNotFoundError else Ok tt;
  write_bytes := fun _ _ => Ok tt
|}.

(** Modelled from the spec: [GameScore] ([modules/systems] is not in the
    sources), after section 4.6: the limits, the clock and the animation
    counter of 150 ticks.  The specification does not say on which side
    [update_score] counts a goal; here it is the opponent of the team it is
    given, the team the log line of [game.py] says "conceded a goal". *)
Record TestScore : Type := mkScore {
  red : Z;
  blue : Z;
  ticks : Z;
  time_limit : Z;
  score_limit : Z;
  animation_timeout : Z
}.

Definition test_is_game_over (s : TestScore) : bool :=
  ((0 <? score_limit s) && (score_limit s <=? Z.max (red s) (blue s)))
  || ((0 <? time_limit s) && (time_limit s * 60 * 60 <=? ticks s)
      && negb (red s =? blue s)).

Definition test_game_env : GameEnv Q TestScore := {|
  score_step := fun st s =>
    match st with
    | GameState.KICKOFF | GameState.PLAYING =>
        mkScore (red s) (blue s) (ticks s + 1) (time_limit s) (score_limit s)
          (animation_timeout s)
    | _ => s
    end;
  update_score := fun team s =>
    match team with
    | TeamID.RED =>
        mkScore (red s) (blue s + 1) (ticks s) (time_limit s) (score_limit s) 150
    | TeamID.BLUE =>
        mkScore (red s + 1) (blue s) (ticks s) (time_limit s) (score_limit s) 150
    | TeamID.SPECTATOR => s
    end;
  is_game_over := test_is_game_over;
  is_animation := fun s => 0 <? animation_timeout s;
  end_animation := fun s =>
    mkScore (red s) (blue s) (ticks s) (time_limit s) (score_limit s) 150;
  dec_animation_timeout := fun s =>
    mkScore (red s) (blue s) (ticks s) (time_limit s) (score_limit s)
      (animation_timeout s - 1);
  score_red := red;
  score_blue := blue;
  Disc_copy := fun self other => set_player_id (player_id self) other;
  team_color := fun team =>
    match team with
    | TeamID.RED => (229, 110, 86, 255)
    | TeamID.BLUE => (86, 137, 229, 255)
    | TeamID.SPECTATOR => (255, 255, 255, 255)
    end;
  resolve_movement := fun player _ _ h => (kicking player, kick_cancel player, h);
  update_discs := fun _ _ h => h;
  resolve_collisions := fun _ h => h
|}.

(** ** The vocabulary of the claims *)

(** The value of a cell that [int] accepts, [None] counting as 0. *)
Definition cell_value (c : Cell) : Z :=
  match c with
  | CInt z => z
  | _ => 0
  end.

Definition is_bad (c : Cell) : bool :=
  match c with
  | CBad => true
  | _ => false
  end.

(** The action [make_player_action] stores: the default row for [None], for
    an object that is no sequence and for a row with a cell [int] rejects;
    otherwise the row itself, cell by cell, [None] read as 0. *)
Definition stored_action (act : ActionType) : list Z :=
  match act with
  | ActSeq cells =>
      if existsb is_bad cells then [0; 0; 0] else map cell_value cells
  | ActArray xs => xs
  | ActNone | ActOther => [0; 0; 0]
  end.

(** The crossing condition in the words of the specification, for the
    previous and the current position of a disc and a goal [(p0, p1)]:
    with [A = current - p0], [B = current - p1], [V = current - previous]
    and [G = p1 - p0], it is
    [cross(A, V) * cross(B, V) <= 0 and cross(previous - p0, G) * cross(A, G) <= 0]. *)
Definition spec_goal_condition `{Scalar F} (previous current : Vec F)
    (goal : Goal F) : bool :=
  let p0 := (points goal).1 in
  let p1 := (points goal).2 in
  let A := vsub current p0 in
  let B := vsub current p1 in
  let V := vsub current previous in
  let G := vsub p1 p0 in
  fle0 (fmul (cross A V) (cross B V))
  && fle0 (fmul (cross (vsub previous p0) G) (cross A G)).

(** The motion of a disc, from its snapshot [previous] to its current
    state [current], satisfies the condition for [goal]. *)
Definition goal_crossedb `{Scalar F} (previous current : Disc F)
    (goal : Goal F) : bool :=
  match position previous, position current with
  | Some pp, Some cp => spec_goal_condition pp cp goal
  | _, _ => false
  end.

Definition goal_crossed `{Scalar F} (previous current : Disc F)
    (goal : Goal F) : Prop :=
  goal_crossedb previous current goal = true.

Definition placed {F} (d : Disc F) : Prop := is_Some (position d).

(** The score-flagged discs of the specification: the discs of the live
    stadium, in the order of its list, whose collision group meets the
    score flag. *)
Definition score_flagged {F S} `{Scalar F} `{CollisionFlag.values}
    (g : @Game.t F S)
  : list (Disc F) :=
  filter (fun d => Z.land (collision_group d) CollisionFlag.SCORE <> 0)
    (map (Game.deref (Game.heap g)) (discs (Game.stadium_game g))).

(** Two discs that differ at most in their collision mask. *)
Definition same_but_mask {F} (d d' : Disc F) : Prop :=
  set_collision_mask 0 d = set_collision_mask 0 d'.

(** The barrier flag of a kickoff: REDKO when red kicks off, BLUEKO when
    blue does. *)
Definition barrier_flag `{CollisionFlag.values} (team_kickoff : TeamID.t) : Z :=
  match team_kickoff with
  | TeamID.RED => CollisionFlag.REDKO
  | _ => CollisionFlag.BLUEKO
  end.

(** A recording session: the recorder after the per-tick action arrays
    [ticks] were passed to [step] one after the other. *)
Fixpoint record_ticks `{RecorderEnv} (ticks : list (list (list Z)))
    (r : GameActionRecorder) : result GameActionRecorder :=
  match ticks with
  | [] => Ok r
  | actions :: rest => r ← Recorder.step actions r; record_ticks rest r
  end.

(** A per-player stream of the recorder is a list. *)
Definition is_stream (v : PyVal) : Prop :=
  match v with
  | VList _ => True
  | _ => False
  end.

(** The value [stop] hands to the codec. *)
Definition recording_value (r : GameActionRecorder) : PyVal :=
  VList (take 1 (options r) ++
         [VList (zip_with (fun info action => VList [info; action])
                   (player_info r) (player_action r))]).

(** The number of players of [team] in a roster; the player at position
    [i] of the roster is number [team_count team (take i roster)] of its
    team, counting from 0. *)
Definition team_count (t : TeamID.t) (ps : list PlayerHandler) : Z :=
  len (filter (fun p => team p = t) ps).

(** The ordinate of the procedural spawn in the words of the
    specification: [-55 * ((k+1) >> 1)] for odd [k], [55 * ((k+1) >> 1)]
    for even [k]. *)
Definition spec_spawn_y (k : Z) : Z :=
  if Z.odd k then - (55 * Z.shiftr (k + 1) 1) else 55 * Z.shiftr (k + 1) 1.

(** No two players share a disc, and no player disc is a world disc. *)
Definition is_player_disc (ps : list PlayerHandler) (r : DiscRef) : Prop :=
  r ∈ map disc ps.

(** The position the loop over the players gives to player number [k] of
    a team: a spawn point of the template, or the procedural spawn on the
    team's side. *)
Definition team_spawn `{Scalar F} (store : Stadium F (Disc F))
    (live : Stadium F DiscRef) (t : TeamID.t) (k : Z) : result (Vec F) :=
  match t with
  | TeamID.RED =>
      Game.spawn_position (red_spawn_points store)
        (fneg (spawn_distance live)) k
  | _ =>
      Game.spawn_position (blue_spawn_points store) (spawn_distance live) k
  end.

(** The counter of a team among the two the loop keeps. *)
Definition team_counter (t : TeamID.t) (red_count blue_count : Z) : Z :=
  match t with
  | TeamID.RED => red_count
  | _ => blue_count
  end.

(** The spawn points of a team in the template. *)
Definition team_spawn_points {F D} (store : Stadium F D) (t : TeamID.t)
  : list (Vec F) :=
  match t with
  | TeamID.RED => red_spawn_points store
  | _ => blue_spawn_points store
  end.

(** The conditions under which [reset_discs_positions] returns: outside
    the mode "full" a stadium needs a first disc, and a team with spawn
    points needs one for each of its players. *)
Definition can_reset {F S} (g : @Game.t F S) : Prop :=
  (kickoff_reset (Game.stadium_game g) = "full"
   \/ discs (Game.stadium_game g) <> [])
  /\ (kickoff_reset (Game.stadium_store g) = "full"
      \/ discs (Game.stadium_store g) <> [])
  /\ forall t, t <> TeamID.SPECTATOR ->
       team_spawn_points (Game.stadium_store g) t = []
       \/ team_count t (Game.players g)
            <= len (team_spawn_points (Game.stadium_store g) t).


(** ** Concrete games *)

Module Example.
Section example.
#[local] Existing Instance Q_scalar.
#[local] Existing Instance haxball_flags.
#[local] Existing Instance test_recorder_env.
#[local] Existing Instance test_game_env.

Definition q (z : Z) : Q := inject_Z z.

Definition white : Color := (255, 255, 255, 255).

(** A ball at rest at the origin; its group is ball, kick and score. *)
Definition ball : Disc Q :=
  mkDisc (Some (q 0, q 0)) (q 0, q 0) (q 0, q 0) (q 10) (q 1)
    (Qmake 99 100) (Qmake 1 2) white 193 63 None.

(** A second world disc, without the score flag. *)
Definition post : Disc Q :=
  mkDisc (Some (q 370, q 64)) (q 0, q 0) (q 0, q 0) (q 8) (q 0)
    (Qmake 99 100) (Qmake 1 2) white 1 63 None.

(** The template of the player discs, and a player disc before [start]. *)
Definition template : Disc Q :=
  mkDisc None (q 0, q 0) (q 0, q 0) (q 15) (Qmake 1 2)
    (Qmake 96 100) (Qmake 1 2) white 0 39 None.

Definition red_goal : Goal Q := mkGoal ((q (-370), q 64), (q (-370), q (-64))) (Some "red").

Definition blue_goal : Goal Q := mkGoal ((q 370, q 64), (q 370, q (-64))) (Some "blue").

Definition store (reset : string) (reds blues : list (Vec Q))
  : Stadium Q (Disc Q) :=
  mkStadium [ball; post] [red_goal; blue_goal] reds blues template (q 170) reset.

(** The live stadium right after the deep copy: the world discs are the
    heap cells 0 and 1. *)
Definition live (reset : string) (reds blues : list (Vec Q))
  : Stadium Q DiscRef :=
  mkStadium [0%nat; 1%nat] [red_goal; blue_goal] reds blues template (q 170) reset.

Definition player (n : string) (i : Z) (t : TeamID.t) (r : DiscRef)
  : PlayerHandler :=
  mkPlayer n i t r [0; 0; 0] false false.

Definition roster : list PlayerHandler :=
  [player "P0" 0 TeamID.RED 2%nat; player "P1" 1 TeamID.BLUE 3%nat;
   player "P2" 2 TeamID.RED 4%nat; player "P3" 3 TeamID.SPECTATOR 5%nat].

Definition limits (score_limit : Z) : TestScore := mkScore 0 0 0 1 score_limit 0.

(** A game before [start]: two world discs and one disc per player. *)
Definition fresh (reset : string) (reds blues : list (Vec Q))
    (score_limit : Z) : Game.t :=
  Game.mk GameState.KICKOFF roster TeamID.RED
    (store reset reds blues) (live reset reds blues) (limits score_limit)
    [ball; post; template; template; template; template] None.

(** The same game after [start], when [start] succeeds. *)
Definition started (reset : string) (reds blues : list (Vec Q))
    (score_limit : Z) : Game.t :=
  match Game.start (fresh reset reds blues score_limit) with
  | Ok g => g
  | Err _ => fresh reset reds blues score_limit
  end.

(** A started game with a recorder attached. *)
Definition started_recording : Game.t :=
  match Game.start
          (Game.set_recorder (Some (recorder_init "recs"))
             (fresh "partial" [] [] 1)) with
  | Ok g => g
  | Err _ => fresh "partial" [] [] 1
  end.

(** The ball of [snapshot] has moved across the line of the blue goal. *)
Definition snapshot : list (Disc Q) :=
  [set_position (Some (q 360, q 0)) ball].

(** A started game in the PLAYING state in which the ball has just crossed
    the blue goal line. *)
Definition scoring (score_limit : Z) : Game.t :=
  let g := started "partial" [] [] score_limit in
  Game.set_heap (alter (set_position (Some (q 380, q 0))) 0%nat (Game.heap g))
    (Game.set_state GameState.PLAYING g).

(** A raw disc of a stadium file whose group is the wall flag alone, and a
    resolver that yields it for every description. *)
Definition wall_disc : @Ball.Disc Q :=
  Ball.mkDisc (q 0, q 0) (q 0, q 0) (q 0, q 0) (q 10) (q 1)
    (Qmake 99 100) (Qmake 1 2) white 32 63.

Definition to_wall_disc (d : gmap string JVal) (traits : gmap string unit)
  : result (@Ball.Disc Q) :=
  Ok wall_disc.

(** [Ball] called on [disc.__dict__] for a [Disc] that is a
    [msgspec.Struct]: its instances carry no [__dict__]. *)
Definition struct_from_dict (disc : @Ball.Disc Q) : result (@Ball.Disc Q) :=
  Err AttributeError.

(** Three ticks of actions for the four players of [roster]. *)
Definition three_ticks : list (list (list Z)) :=
  [[[1; 0; 0]; [-1; 0; 0]; [0; 1; 1]; [0; 0; 0]];
   [[1; 1; 0]; [-1; -1; 1]; [0; 0; 0]; [0; 0; 0]];
   [[0; 0; 1]; [0; 0; 0]; [1; 0; 0]; [0; 0; 0]]].

Definition view : Recorder.GameView := Recorder.mkView roster TeamID.RED 1 0.

(** The recorder after the three ticks. *)
Definition recorded : GameActionRecorder :=
  match record_ticks three_ticks (Recorder.start view (recorder_init "recs")) with
  | Ok r => r
  | Err _ => recorder_init "recs"
  end.

End example.
End Example.

(** ** [game.py]: the roster and the life cycle of a game *)

(** [GameScore.stop()], one more method of the score object that is not in
    the sources. *)
Class ScoreStop (S : Type) : Type := {
  score_stop : S -> S
}.

Module GameOps.
Section ops.
Context {F S : Type} `{Scalar F} `{CollisionFlag.values} `{RecorderEnv}
  `{!GameEnv F S} `{!ScoreStop S}.

Definition add_player (player : PlayerHandler) (g : @Game.t F S) : @Game.t F S :=
  Game.set_players (Game.players g ++ [player]) g.

Definition add_players (players : list PlayerHandler) (g : @Game.t F S)
  : @Game.t F S :=
  foldl (fun g player => add_player player g) g players.

(** The loop of [get_player_by_id]. *)
Fixpoint find_player (players : list PlayerHandler) (player_id : Z)
  : option PlayerHandler :=
  match players with
  | [] => None
  | player :: rest =>
      if id player =? player_id then Some player
      else find_player rest player_id
  end.

Definition get_player_by_id (player_id : Z) (g : @Game.t F S)
  : option PlayerHandler :=
  find_player (Game.players g) player_id.

(** [copy.deepcopy(self.stadium_store)]: every disc of the template becomes
    a new object, a new cell at the end of the heap; the other fields are
    values. *)
Definition deepcopy_stadium (store : Stadium F (Disc F)) (h : list (Disc F))
  : Stadium F DiscRef * list (Disc F) :=
  (mkStadium (seq (length h) (length (discs store))) (goals store)
     (red_spawn_points store) (blue_spawn_points store)
     (player_physics store) (spawn_distance store) (kickoff_reset store),
   h ++ discs store).

(** [stop]: the recorder is stopped first, then the score, the state, the
    kickoff team and the live stadium are reset and a new recorder replaces
    the old one.  The new recorder is built with [config.folder_rec], the
    folder the old one was built with.  The renderer and the log take no
    part in the state. *)
Definition stop (save_recording : bool) (now : Z) (g : @Game.t F S)
    (fs : FileSystem) : result (@Game.t F S * FileSystem) :=
  '(rec, fs) ←
    match Game.recorder g with
    | Some r =>
        '(r, fs) ← Recorder.stop save_recording now (Game.game_view g) r fs;
        Ok (Some r, fs)
    | None => Ok (None, fs)
    end;
  let g := Game.set_recorder rec g in
  let g := Game.set_score (score_stop (Game.score g)) g in
  let g := Game.set_state GameState.KICKOFF g in
  let g := Game.set_team_kickoff TeamID.RED g in
  let '(live, h) := deepcopy_stadium (Game.stadium_store g) (Game.heap g) in
  let g := Game.set_heap h (Game.set_stadium_game live g) in
  let g :=
    match Game.recorder g with
    | Some r => Game.set_recorder (Some (recorder_init (folder_rec r))) g
    | None => g
    end in
  Ok (g, fs).

Definition reset (save_recording : bool) (now : Z) (g : @Game.t F S)
    (fs : FileSystem) : result (@Game.t F S * FileSystem) :=
  '(g, fs) ← stop save_recording now g fs;
  g ← Game.start g;
  Ok (g, fs).

End ops.
End GameOps.

(** ** [vertex.py]: [VertexRaw] and [Vertex] *)

Module Vertex.
Section vertex.
Context {F : Type} `{Scalar F} `{CollisionFlag.values}.

(** The fields of a [Trait] that [vertex.py] reads; the class itself is not
    in the sources. *)
Record Trait : Type := mkTrait {
  trait_b_coef : option F;
  trait_c_group : option (list string);
  trait_c_mask : option (list string)
}.

Record VertexRaw : Type := mkVertexRaw {
  x : F;
  y : F;
  b_coef : option F;
  c_group : option (list string);
  c_mask : option (list string);
  trait : option string
}.

Record t : Type := mkVertex {
  position : Vec F;
  vertex_b_coef : F;
  vertex_c_group : Z;
  vertex_c_mask : Z
}.

(** Modelled from the spec: [replace_none_values] ([utils/misc.py] is not in
    the sources), which fills the "unresolved fields of an item", those that
    are [None], from a second item and leaves the fields that are set. *)
Definition replace_none_values (self other : VertexRaw) : VertexRaw :=
  mkVertexRaw (x self) (y self)
    (match b_coef self with Some v => Some v | None => b_coef other end)
    (match c_group self with Some v => Some v | None => c_group other end)
    (match c_mask self with Some v => Some v | None => c_mask other end)
    (match trait self with Some v => Some v | None => trait other end).

Definition apply_trait (traits : gmap string Trait) (self : VertexRaw)
  : VertexRaw :=
  match trait self with
  | None => self
  | Some trait_name =>
      match traits !! trait_name with
      | None => self
      | Some trait =>
          let vertex_trait :=
            mkVertexRaw (of_Z 0) (of_Z 0) (trait_b_coef trait)
              (trait_c_group trait) (trait_c_mask trait) None in
          replace_none_values self vertex_trait
      end
  end.

Definition apply_default (self : VertexRaw) : VertexRaw :=
  let vertex_default :=
    mkVertexRaw (of_Z 0) (of_Z 0) (Some (of_Z 1)) (Some ["wall"])
      (Some ["all"]) None in
  replace_none_values self vertex_default.

(** [to_vertex]; a failed [assert] is an [AssertionError]. *)
Definition to_vertex (traits : gmap string Trait) (self : VertexRaw)
  : option t :=
  let vertex_raw_final := apply_default (apply_trait traits self) in
  match b_coef vertex_raw_final, c_group vertex_raw_final,
        c_mask vertex_raw_final with
  | Some b, Some g, Some m =>
      Some (mkVertex (x vertex_raw_final, y vertex_raw_final) b
              (CollisionFlag.from_list g) (CollisionFlag.from_list m))
  | _, _, _ => None
  end.

End vertex.
End Vertex.

(** ** More vocabulary *)

(** The edges of the state machine: the state a tick starts in and the
    state it can end in. *)
Definition transition (s s' : GameState.t) : Prop :=
  match s, s' with
  | GameState.KICKOFF, (GameState.KICKOFF | GameState.PLAYING) => True
  | GameState.PLAYING,
      (GameState.PLAYING | GameState.GOAL | GameState.END) => True
  | GameState.GOAL,
      (GameState.GOAL | GameState.END | GameState.KICKOFF) => True
  | GameState.END, GameState.END => True
  | _, _ => False
  end.

(** What identifies a player in the roster. *)
Definition identity (p : PlayerHandler) : string * Z * TeamID.t * DiscRef :=
  (name p, id p, team p, disc p).

(** A direction component as the recorder reads it: only -1 and 1 count. *)
Definition direction (d : Z) : Z :=
  if d =? -1 then -1 else if d =? 1 then 1 else 0.

(** A kick component as the recorder reads it: anything but 0 is a kick. *)
Definition pressed (k : Z) : Z := if k =? 0 then 0 else 1.

(** The flag [reset_discs_positions] adds to the group of a player's disc. *)
Definition team_flag `{CollisionFlag.values} (t : TeamID.t) : Z :=
  match t with
  | TeamID.RED => CollisionFlag.RED
  | _ => CollisionFlag.BLUE
  end.

(** The input bits are distinct powers of two. *)
Definition input_bits `{RecorderEnv} : Prop :=
  exists up down left right shoot : Z,
    0 <= up /\ 0 <= down /\ 0 <= left /\ 0 <= right /\ 0 <= shoot
    /\ NoDup [up; down; left; right; shoot]
    /\ INPUT_UP = 2 ^ up /\ INPUT_DOWN = 2 ^ down /\ INPUT_LEFT = 2 ^ left
    /\ INPUT_RIGHT = 2 ^ right /\ INPUT_SHOOT = 2 ^ shoot.

(** The code the recorder writes for player [i] in a tick. *)
Definition tick_code `{RecorderEnv} (i : nat) (actions : list (list Z))
    (code : Z) : Prop :=
  exists row, actions !! i = Some row /\ input_translate_js row = Ok code.

(** ** More concrete games *)

Module Scenario.
Section scenario.
#[local] Existing Instance Q_scalar.
#[local] Existing Instance haxball_flags.
#[local] Existing Instance test_recorder_env.
#[local] Existing Instance test_game_env.

Definition test_score_stop : ScoreStop TestScore :=
  {| score_stop := fun s =>
       mkScore 0 0 0 (time_limit s) (score_limit s) 0 |}.

(** Two spawn points for red, one for blue. *)
Definition red_points : list (Vec Q) :=
  [(Example.q (-200), Example.q 0); (Example.q (-200), Example.q 100)].

Definition blue_points : list (Vec Q) := [(Example.q 200, Example.q 0)].

(** A game with spawn points, before [start]. *)
Definition with_spawns : Game.t :=
  Example.fresh "full" red_points blue_points 3.

(** A vertex description that names a trait and sets its own mask. *)
Definition corner : @Vertex.VertexRaw Q :=
  Vertex.mkVertexRaw (Example.q 370) (Example.q 170) None None
    (Some ["ball"]) (Some "ballArea").

Definition traits : gmap string (@Vertex.Trait Q) :=
  {[ "ballArea" := Vertex.mkTrait (Some (Example.q 0)) None (Some ["wall"]) ]}.

End scenario.
End Scenario.

(* ===================================================================== *)
(** * Part II. The proofs                                                 *)
(* ===================================================================== *)

(** ** The error monad *)

Lemma bind_Ok {A B} (m : result A) (f : A -> result B) (b : B) :
  m ≫= f = Ok b <-> exists a, m = Ok a /\ f a = Ok b.
Proof.
  destruct m as [a|e]; simpl.
  - split; [eauto | intros (a' & [= <-] & Hf); exact Hf].
  - split; [discriminate | intros (a' & [=] & _)].
Qed.

Lemma py_getitem_nat {A} (l : list A) (i : nat) :
  py_getitem l (Z.of_nat i) =
    match l !! i with Some a => Ok a | None => Err IndexError end.
Proof.
  unfold py_getitem.
  destruct (Z.ltb_spec (Z.of_nat i) 0) as [Hneg|_]; [lia|].
  destruct (Z.ltb_spec (Z.of_nat i) 0) as [Hneg|_]; [lia|].
  by rewrite Nat2Z.id.
Qed.

(** ** Actions *)

Lemma convert_cells_spec (cells : list Cell) :
  convert_cells cells =
    if existsb is_bad cells then None else Some (map cell_value cells).
Proof.
  induction cells as [|c cells IH]; [done|].
  destruct c; simpl; rewrite ?IH; try done; by destruct (existsb is_bad cells).
Qed.

Lemma normalize_action_spec (act : ActionType) :
  normalize_action act = stored_action act.
Proof.
  destruct act as [|cells|xs|]; try done.
  simpl. rewrite convert_cells_spec. by destruct (existsb is_bad cells).
Qed.

Section action_facts.
Context {F S : Type} `{Scalar F} `{CollisionFlag.values} `{RecorderEnv}
  `{!GameEnv F S}.

(** C3, as the code has it: [make_player_action] stores the normalized
    action, which is the default row [0,0,0] for [None] and for anything
    that is not a row of integers, and otherwise the row itself with [None]
    cells read as 0.  The integers are stored as they come (there is no
    clamping to [-1..1] or [0..1]) and the row keeps its length (a short
    row is not padded). *)
Theorem make_player_action_stores_normalized
    (player : PlayerHandler) (act : ActionType) (g : Game.t)
    (cells : list Cell) :
  action (Game.make_player_action player act g).1 = stored_action act
  /\ length (stored_action (ActSeq cells)) =
       (if existsb is_bad cells then 3%nat else length cells).
Proof.
  split.
  - unfold Game.make_player_action.
    destruct (resolve_movement _ _ _ _) as [[k c] h]. simpl.
    apply normalize_action_spec.
  - simpl. destruct (existsb is_bad cells); [done | by rewrite length_map].
Qed.



Lemma apply_actions_recorder (rows : list (list Z)) (ps : list PlayerHandler)
    (g : Game.t) :
  Game.recorder (Game.apply_actions rows ps g).2 = Game.recorder g.
Proof.
  revert ps g. induction rows as [|row rows IH]; intros [|p ps] g; try done.
  simpl. unfold Game.make_player_action.
  destruct (resolve_movement _ _ _ _) as [[k c] h].
  specialize (IH ps (Game.set_heap h g)).
  destruct (Game.apply_actions rows ps _) as [ps' g']. simpl in *.
  by rewrite IH.
Qed.

Lemma reset_discs_positions_recorder (g g' : Game.t) :
  Game.reset_discs_positions g = Ok g' -> Game.recorder g' = Game.recorder g.
Proof.
  unfold Game.reset_discs_positions. intros Hr.
  apply bind_Ok in Hr as (dg & _ & Hr).
  apply bind_Ok in Hr as (ds & _ & Hr).
  apply bind_Ok in Hr as (h & _ & [= <-]). done.
Qed.

Lemma handle_game_state_recorder (prev : list (Disc F)) (g g' : Game.t)
    (fin : bool) :
  Game.handle_game_state prev g = Ok (fin, g') ->
  Game.recorder g' = Game.recorder g.
Proof.
  unfold Game.handle_game_state. destruct g as [st ps tk store live sc h rec].
  simpl. destruct st; simpl.
  - unfold Game._handle_kickoff_state. simpl. intros Hk.
    apply bind_Ok in Hk as (g1 & Hk & [= _ <-]).
    apply bind_Ok in Hk as (b & _ & Hk).
    destruct (norm_gt0 _ _); by injection Hk as <-.
  - unfold Game._handle_playing_state. simpl. intros Hp.
    apply bind_Ok in Hp as (g1 & Hp & [= _ <-]).
    apply bind_Ok in Hp as (tg & _ & Hp).
    repeat case_match; by injection Hp as <-.
  - unfold Game._handle_goal_state. simpl. intros Hg.
    apply bind_Ok in Hg as (g1 & Hg & [= _ <-]).
    repeat case_match; try by injection Hg as <-.
    apply bind_Ok in Hg as (g2 & Hg & [= <-]).
    by apply reset_discs_positions_recorder in Hg.
  - unfold Game._handle_end_state. simpl. by intros [= _ <-].
Qed.

End action_facts.

(** ** Goal detection *)

Section goal_facts.
Context {F S : Type} `{Scalar F} `{CollisionFlag.values} `{RecorderEnv}
  `{!GameEnv F S}.

Local Abbreviation game := (@Game.t F S).

Lemma crosses_goal_spec (previous current : Disc F) (goal : Goal F) :
  placed previous -> placed current ->
  Game.crosses_goal previous current goal
    = Ok (goal_crossedb previous current goal).
Proof.
  intros [pp Hp] [cp Hc].
  unfold Game.crosses_goal, Game.position_of, goal_crossedb.
  rewrite Hp, Hc. reflexivity.
Qed.

(** The inner loop returns at the first goal of the list that is crossed. *)
Lemma check_goal_goals_spec (previous current : Disc F) (gs : list (Goal F)) :
  placed previous -> placed current ->
  match Game.check_goal_goals previous current gs with
  | Ok None => forall goal, goal ∈ gs -> goal_crossedb previous current goal = false
  | Ok (Some team) =>
      exists j goal, gs !! j = Some goal
        /\ goal_crossedb previous current goal = true
        /\ team = Game.team_score goal
        /\ forall j' goal', (j' < j)%nat -> gs !! j' = Some goal' ->
             goal_crossedb previous current goal' = false
  | Err _ => False
  end.
Proof.
  intros Hp Hc. induction gs as [|goal gs IH]; simpl.
  - intros goal Hin. by apply elem_of_nil in Hin.
  - rewrite (crosses_goal_spec _ _ _ Hp Hc). simpl.
    destruct (goal_crossedb previous current goal) eqn:Hhit.
    + exists 0%nat, goal. repeat split; try done. intros j' goal' Hlt. lia.
    + destruct (Game.check_goal_goals previous current gs) as [[team|]|e];
        [| |done].
      * destruct IH as (j & goal' & Hj & Hcr & Ht & Hfirst).
        exists (Datatypes.S j), goal'. repeat split; try done.
        intros [|j'] goal'' Hlt Hl; simpl in Hl.
        -- by injection Hl as <-.
        -- apply (Hfirst j'); [lia | done].
      * intros goal' [->|Hin]%elem_of_cons; [done | by apply IH].
Qed.

(** The outer loop returns at the first pair with a crossed goal. *)
Lemma check_goal_pairs_spec (pairs : list (Disc F * Disc F))
    (gs : list (Goal F)) :
  Forall (fun pc => placed pc.1 /\ placed pc.2) pairs ->
  exists team, Game.check_goal_pairs pairs gs = Ok team /\
    ((team = TeamID.SPECTATOR /\
      forall pc goal, pc ∈ pairs -> goal ∈ gs ->
        goal_crossedb pc.1 pc.2 goal = false)
     \/
     (exists i j pc goal,
        pairs !! i = Some pc /\ gs !! j = Some goal
        /\ goal_crossedb pc.1 pc.2 goal = true
        /\ team = Game.team_score goal
        /\ forall i' j' pc' goal',
             pairs !! i' = Some pc' -> gs !! j' = Some goal' ->
             (i' < i)%nat \/ (i' = i /\ (j' < j)%nat) ->
             goal_crossedb pc'.1 pc'.2 goal' = false)).
Proof.
  induction 1 as [|[previous current] pairs [Hp Hc] Hall IH]; simpl.
  - exists TeamID.SPECTATOR. split; [done|]. left. split; [done|].
    intros pc goal Hin. by apply elem_of_nil in Hin.
  - pose proof (check_goal_goals_spec previous current gs Hp Hc) as Hin.
    destruct (Game.check_goal_goals previous current gs) as [[team|]|e];
      [| |done]; simpl.
    + exists team. split; [done|]. right.
      destruct Hin as (j & goal & Hj & Hcr & Ht & Hfirst).
      exists 0%nat, j, (previous, current), goal. repeat split; try done.
      intros i' j' pc' goal' Hi' Hj' [Hlt|[-> Hlt]]; [lia|].
      injection Hi' as <-. by apply (Hfirst j').
    + destruct IH as (team & Hrun & Hcases). exists team. split; [done|].
      destruct Hcases as [[-> Hnone]|(i & j & pc & goal & Hi & Hj & Hcr & Ht & Hfirst)].
      * left. split; [done|].
        intros pc goal [->|Hpc]%elem_of_cons Hg; [by apply Hin | by apply Hnone].
      * right. exists (Datatypes.S i), j, pc, goal. repeat split; try done.
        intros [|i'] j' pc' goal' Hi' Hj' Hord; simpl in Hi'.
        -- injection Hi' as <-. simpl. apply Hin.
           apply list_elem_of_lookup. by exists j'.
        -- apply (Hfirst i' j'); try done. lia.
Qed.

Lemma team_score_not_spectator (goal : Goal F) :
  Game.team_score goal <> TeamID.SPECTATOR.
Proof. unfold Game.team_score. by case_decide. Qed.

(** The discs [check_goal] looks at are the discs of the live stadium whose
    group meets the score flag. *)
Lemma score_discs_spec (g : game) (d : Disc F) :
  d ∈ Game.score_discs g <->
  Z.land (collision_group d) CollisionFlag.SCORE <> 0 /\
  exists r, r ∈ discs (Game.stadium_game g) /\ d = Game.deref (Game.heap g) r.
Proof.
  unfold Game.score_discs. rewrite list_elem_of_filter, list_elem_of_fmap.
  unfold Game.has_score_flag. rewrite negb_true_iff, Z.eqb_neq.
  split; intros [Hflag (r & Hr1 & Hr2)]; (split; [done|]); exists r; done.
Qed.

(** What [check_goal] returns, in terms of the list it builds. *)
Lemma check_goal_spec (previous : list (Disc F)) (g : game) :
  Forall placed previous ->
  Forall placed (Game.score_discs g) ->
  let pairs := zip previous (Game.score_discs g) in
  let gs := goals (Game.stadium_game g) in
  exists team, Game.check_goal previous g = Ok team /\
    (team <> TeamID.SPECTATOR <->
       exists pc goal, pc ∈ pairs /\ goal ∈ gs /\ goal_crossed pc.1 pc.2 goal) /\
    (team = TeamID.SPECTATOR <->
       forall pc goal, pc ∈ pairs -> goal ∈ gs -> ~ goal_crossed pc.1 pc.2 goal) /\
    (team <> TeamID.SPECTATOR ->
       exists i j pc goal,
         pairs !! i = Some pc /\ gs !! j = Some goal
         /\ goal_crossed pc.1 pc.2 goal
         /\ team = (if decide (goal_team goal = Some "red")
                    then TeamID.RED else TeamID.BLUE)
         /\ forall i' j' pc' goal',
              pairs !! i' = Some pc' -> gs !! j' = Some goal' ->
              (i' < i)%nat \/ (i' = i /\ (j' < j)%nat) ->
              ~ goal_crossed pc'.1 pc'.2 goal').
Proof.
  intros Hprev Hcur pairs gs.
  assert (Hpairs : Forall (fun pc => placed pc.1 /\ placed pc.2) pairs).
  { apply Forall_forall. intros [p c] Hin. simpl.
    apply elem_of_zip_l in Hin as Hp. apply elem_of_zip_r in Hin as Hc.
    rewrite Forall_forall in Hprev, Hcur. split; [by apply Hprev | by apply Hcur]. }
  destruct (check_goal_pairs_spec pairs gs Hpairs) as (team & Hrun & Hcases).
  exists team. split; [exact Hrun|].
  unfold goal_crossed.
  destruct Hcases as [[-> Hnone]|(i & j & pc & goal & Hi & Hj & Hcr & Ht & Hfirst)].
  - split; [|split].
    + split; [done|]. intros (pc & goal & Hpc & Hg & Hcr).
      by rewrite (Hnone pc goal Hpc Hg) in Hcr.
    + split; [|done]. intros _ pc goal Hpc Hg. by rewrite (Hnone pc goal Hpc Hg).
    + done.
  - assert (Hne : team <> TeamID.SPECTATOR).
    { rewrite Ht. apply team_score_not_spectator. }
    assert (Hex : exists pc goal, pc ∈ pairs /\ goal ∈ gs
                    /\ goal_crossedb pc.1 pc.2 goal = true).
    { exists pc, goal. repeat split; try done;
        apply list_elem_of_lookup; eauto. }
    split; [|split].
    + split; done.
    + split; [done|]. intros Hnone. destruct Hex as (pc' & goal' & H1' & H2' & H3').
      by destruct (Hnone pc' goal' H1' H2').
    + intros _. exists i, j, pc, goal. repeat split; try done.
      intros i' j' pc' goal' Hi' Hj' Hord.
      by rewrite (Hfirst i' j' pc' goal' Hi' Hj' Hord).
Qed.

(** The list [check_goal] builds is the list of the score-flagged discs. *)
Lemma score_discs_flagged (g : game) : Game.score_discs g = score_flagged g.
Proof.
  unfold Game.score_discs, score_flagged. apply list_filter_iff. intros d.
  unfold Game.has_score_flag. by rewrite negb_true_iff, Z.eqb_neq.
Qed.

(** C1.  The discs [check_goal] examines are the score-flagged discs of
    the live stadium, each paired with its snapshot.  [check_goal] returns
    a team other than SPECTATOR exactly when one of these discs and some
    goal satisfy the crossing condition of the specification.  The team
    returned is the tag of the first such goal (in the order discs, then
    goals): RED when the goal is tagged "red", BLUE otherwise.  When no
    score-flagged disc satisfies the condition for any goal the result is
    SPECTATOR. *)
Theorem check_goal_signals_crossing (previous : list (Disc F)) (g : game) :
  Forall placed previous ->
  Forall placed (score_flagged g) ->
  let pairs := zip previous (score_flagged g) in
  let gs := goals (Game.stadium_game g) in
  exists team, Game.check_goal previous g = Ok team /\
    (team <> TeamID.SPECTATOR <->
       exists pc goal, pc ∈ pairs /\ goal ∈ gs /\ goal_crossed pc.1 pc.2 goal) /\
    (team = TeamID.SPECTATOR <->
       forall pc goal, pc ∈ pairs -> goal ∈ gs -> ~ goal_crossed pc.1 pc.2 goal) /\
    (team <> TeamID.SPECTATOR ->
       exists i j pc goal,
         pairs !! i = Some pc /\ gs !! j = Some goal
         /\ goal_crossed pc.1 pc.2 goal
         /\ team = (if decide (goal_team goal = Some "red")
                    then TeamID.RED else TeamID.BLUE)
         /\ forall i' j' pc' goal',
              pairs !! i' = Some pc' -> gs !! j' = Some goal' ->
              (i' < i)%nat \/ (i' = i /\ (j' < j)%nat) ->
              ~ goal_crossed pc'.1 pc'.2 goal').
Proof.
  rewrite <- score_discs_flagged. apply check_goal_spec.
Qed.

End goal_facts.

(** ** The disc heap and the masks of the player discs *)

Section mask_facts.
Context {F S : Type} `{Scalar F} `{CollisionFlag.values} `{RecorderEnv}
  `{!GameEnv F S}.

Local Abbreviation game := (@Game.t F S).

(** A reference that leads to a placed disc is a cell of the heap. *)
Lemma placed_valid (h : list (Disc F)) (r : DiscRef) :
  placed (Game.deref h r) -> (r < length h)%nat.
Proof.
  unfold placed, Game.deref. intros [p Hp].
  destruct (decide (r < length h)%nat) as [|Hge]; [done|].
  rewrite list_lookup_total_alt, lookup_ge_None_2 in Hp by lia.
  discriminate.
Qed.

Lemma deref_alter (f : Disc F -> Disc F) (h : list (Disc F)) (r r' : DiscRef) :
  Game.deref (alter f r h) r' =
    if decide (r = r' /\ (r < length h)%nat) then f (Game.deref h r)
    else Game.deref h r'.
Proof. apply list_lookup_total_alter. Qed.

Lemma same_but_mask_fields (d d' : Disc F) :
  same_but_mask d d' ->
  position d = position d' /\ velocity d = velocity d'
  /\ collision_group d = collision_group d'.
Proof. unfold same_but_mask, set_collision_mask. intros [=]. done. Qed.

(** One turn of the loop of [mask_players]. *)
Lemma mask_player_step (mask : Z) (p : PlayerHandler) (h : list (Disc F))
    (r : DiscRef) :
  let h' := match position (Game.deref h (disc p)) with
            | Some _ => alter (set_collision_mask mask) (disc p) h
            | None => h
            end in
  same_but_mask (Game.deref h' r) (Game.deref h r)
  /\ (collision_mask (Game.deref h' r) = mask \/ Game.deref h' r = Game.deref h r)
  /\ (~ placed (Game.deref h r) -> Game.deref h' r = Game.deref h r)
  /\ (r = disc p -> placed (Game.deref h r) ->
      collision_mask (Game.deref h' r) = mask).
Proof.
  simpl. destruct (position (Game.deref h (disc p))) as [pos|] eqn:Hpos.
  - rewrite deref_alter. case_decide as Hr.
    + destruct Hr as [<- Hlt]. repeat split; try done; [by left|].
      intros Hnp. destruct Hnp. unfold placed. by rewrite Hpos.
    + repeat split; try done; [by right|].
      intros -> _. destruct Hr. split; [done|].
      apply placed_valid. unfold placed. by rewrite Hpos.
  - repeat split; try done; [by right|].
    intros -> [pos Hpos']. congruence.
Qed.

Lemma mask_players_spec (mask : Z) (ps : list PlayerHandler)
    (h : list (Disc F)) (r : DiscRef) :
  same_but_mask (Game.deref (Game.mask_players mask ps h) r) (Game.deref h r)
  /\ (collision_mask (Game.deref h r) = mask ->
      collision_mask (Game.deref (Game.mask_players mask ps h) r) = mask)
  /\ (~ placed (Game.deref h r) ->
      Game.deref (Game.mask_players mask ps h) r = Game.deref h r)
  /\ ((exists p, p ∈ ps /\ disc p = r) -> placed (Game.deref h r) ->
      collision_mask (Game.deref (Game.mask_players mask ps h) r) = mask).
Proof.
  revert h. induction ps as [|p ps IH]; intros h.
  - simpl. repeat split; try done. intros (p & Hin & _).
    by apply elem_of_nil in Hin.
  - unfold Game.mask_players. simpl.
    pose proof (mask_player_step mask p h r) as (Hs & Hm & Hn & Hp).
    simpl in Hs, Hm, Hn, Hp.
    set (h' := match position (Game.deref h (disc p)) with
               | Some _ => alter (set_collision_mask mask) (disc p) h
               | None => h
               end) in *.
    destruct (IH h') as (IHs & IHm & IHn & IHp).
    unfold Game.mask_players in IHs, IHm, IHn, IHp.
    assert (Hplaced : placed (Game.deref h' r) <-> placed (Game.deref h r)).
    { unfold placed. by destruct (same_but_mask_fields _ _ Hs) as (-> & _). }
    repeat split.
    + unfold same_but_mask in *. congruence.
    + intros Hmask. apply IHm. destruct Hm as [Hm|Hm]; [done | by rewrite Hm].
    + intros Hnp. rewrite IHn by (by rewrite Hplaced). by apply Hn.
    + intros (p' & [->|Hin]%elem_of_cons & Hr) Hpl.
      * apply IHm. by apply Hp.
      * apply IHp; [by exists p' | by apply Hplaced].
Qed.

Lemma check_goal_goals_positions (p c c' : Disc F) (gs : list (Goal F)) :
  position c = position c' ->
  Game.check_goal_goals p c gs = Game.check_goal_goals p c' gs.
Proof.
  intros Hpos. induction gs as [|goal gs IH]; [done|]. simpl.
  unfold Game.crosses_goal, Game.position_of. rewrite Hpos, IH. done.
Qed.

Lemma check_goal_pairs_positions (prev cur cur' : list (Disc F))
    (gs : list (Goal F)) :
  Forall2 (fun d d' => position d = position d') cur cur' ->
  Game.check_goal_pairs (zip prev cur) gs
    = Game.check_goal_pairs (zip prev cur') gs.
Proof.
  intros Hrel. revert prev.
  induction Hrel as [|c c' cur cur' Hpos Hrel IH]; intros [|p prev]; try done.
  simpl. rewrite (check_goal_goals_positions p c c' gs Hpos), IH. done.
Qed.

Lemma score_discs_same_but_mask (g : game) (h' : list (Disc F)) :
  (forall r, same_but_mask (Game.deref h' r) (Game.deref (Game.heap g) r)) ->
  Forall2 (fun d d' => position d = position d')
    (Game.score_discs (Game.set_heap h' g)) (Game.score_discs g).
Proof.
  intros Hsame. unfold Game.score_discs. simpl.
  induction (discs (Game.stadium_game g)) as [|r refs IH]; [constructor|].
  simpl. destruct (same_but_mask_fields _ _ (Hsame r)) as (Hpos & _ & Hgrp).
  assert (Hflag : Game.has_score_flag (Game.deref h' r)
                  = Game.has_score_flag (Game.deref (Game.heap g) r)).
  { unfold Game.has_score_flag. by rewrite Hgrp. }
  rewrite !filter_cons.
  destruct (decide (Game.has_score_flag (Game.deref h' r) = true)),
    (decide (Game.has_score_flag (Game.deref (Game.heap g) r) = true));
    [by constructor | congruence | congruence | done].
Qed.

(** Writing the masks of the player discs does not change what
    [check_goal] sees. *)
Lemma check_goal_mask_players (prev : list (Disc F)) (g : game) (mask : Z) :
  Game.check_goal prev
    (Game.set_heap (Game.mask_players mask (Game.players g) (Game.heap g)) g)
  = Game.check_goal prev g.
Proof.
  unfold Game.check_goal. simpl.
  apply check_goal_pairs_positions, score_discs_same_but_mask.
  intros r. apply mask_players_spec.
Qed.

End mask_facts.

(** ** The state handlers *)

Section state_facts.
Context {F S : Type} `{Scalar F} `{CollisionFlag.values} `{RecorderEnv}
  `{!GameEnv F S}.

Local Abbreviation game := (@Game.t F S).

Lemma kickoff_collision_barrier (g : game) :
  Game.kickoff_collision g = barrier_flag (Game.team_kickoff g).
Proof.
  unfold Game.kickoff_collision, barrier_flag.
  case_decide as Hk; [by rewrite Hk | by destruct (Game.team_kickoff g)].
Qed.

Lemma includes_lor_r (a b : Z) : CollisionFlag.includes (Z.lor a b) b.
Proof.
  unfold CollisionFlag.includes. apply Z.bits_inj'. intros n Hn.
  rewrite Z.land_spec, Z.lor_spec. destruct (Z.testbit a n), (Z.testbit b n); done.
Qed.

Lemma includes_lor_l (a b flag : Z) :
  CollisionFlag.includes a flag -> CollisionFlag.includes (Z.lor a b) flag.
Proof.
  unfold CollisionFlag.includes. intros Ha. apply Z.bits_inj'. intros n Hn.
  apply (f_equal (fun z => Z.testbit z n)) in Ha.
  rewrite Z.land_spec in Ha. rewrite Z.land_spec, Z.lor_spec.
  destruct (Z.testbit a n), (Z.testbit b n), (Z.testbit flag n); done.
Qed.

Lemma _handle_kickoff_state_spec (g g' : game) :
  Game._handle_kickoff_state g = Ok g' ->
  Game.players g' = Game.players g
  /\ Game.team_kickoff g' = Game.team_kickoff g
  /\ Game.heap g' =
       Game.mask_players
         (Z.lor CollisionFlag.PLAYER_COLLISION (barrier_flag (Game.team_kickoff g)))
         (Game.players g) (Game.heap g).
Proof.
  unfold Game._handle_kickoff_state. rewrite kickoff_collision_barrier.
  intros Hk. apply bind_Ok in Hk as (b & _ & Hk).
  destruct (norm_gt0 _ _); by injection Hk as <-.
Qed.

Lemma _handle_playing_state_spec (prev : list (Disc F)) (g g' : game) :
  Game._handle_playing_state prev g = Ok g' ->
  Game.players g' = Game.players g
  /\ Game.heap g' =
       Game.mask_players CollisionFlag.PLAYER_COLLISION
         (Game.players g) (Game.heap g).
Proof.
  unfold Game._handle_playing_state.
  intros Hp. apply bind_Ok in Hp as (team & _ & Hp).
  repeat case_match; by injection Hp as <-.
Qed.

(** What the handlers of KICKOFF and PLAYING leave in the mask of a player
    disc. *)
Lemma state_handlers_masks
    (prev : list (Disc F)) (g g' : game) (fin : bool) (p : PlayerHandler) :
  Game.handle_game_state prev g = Ok (fin, g') ->
  p ∈ Game.players g ->
  let before := Game.deref (Game.heap g) (disc p) in
  let after := Game.deref (Game.heap g') (disc p) in
  (Game.state g = GameState.KICKOFF -> placed before ->
     collision_mask after =
       Z.lor CollisionFlag.PLAYER_COLLISION (barrier_flag (Game.team_kickoff g))
     /\ CollisionFlag.includes (collision_mask after)
          (barrier_flag (Game.team_kickoff g)))
  /\ (Game.state g = GameState.PLAYING -> placed before ->
     collision_mask after = CollisionFlag.PLAYER_COLLISION
     /\ forall flag,
          ~ CollisionFlag.includes CollisionFlag.PLAYER_COLLISION flag ->
          ~ CollisionFlag.includes (collision_mask after) flag)
  /\ (Game.state g = GameState.KICKOFF \/ Game.state g = GameState.PLAYING ->
      ~ placed before -> after = before).
Proof.
  intros Hrun Hin before after. subst before after.
  unfold Game.handle_game_state in Hrun.
  destruct g as [st ps tk store live sc h rec]. simpl in *.
  split; [|split].
  - intros -> Hpl. simpl in Hrun.
    apply bind_Ok in Hrun as (g1 & Hk & [= _ <-]).
    apply _handle_kickoff_state_spec in Hk as (_ & _ & ->). simpl.
    destruct (mask_players_spec
      (Z.lor CollisionFlag.PLAYER_COLLISION (barrier_flag tk)) ps h (disc p))
      as (_ & _ & _ & Hmask).
    rewrite Hmask; [|by exists p|done]. split; [done|]. apply includes_lor_r.
  - intros -> Hpl. simpl in Hrun.
    apply bind_Ok in Hrun as (g1 & Hk & [= _ <-]).
    apply _handle_playing_state_spec in Hk as (_ & ->). simpl.
    destruct (mask_players_spec CollisionFlag.PLAYER_COLLISION ps h (disc p))
      as (_ & _ & _ & Hmask).
    rewrite Hmask; [|by exists p|done]. done.
  - intros [-> | ->] Hnp; simpl in Hrun;
      apply bind_Ok in Hrun as (g1 & Hk & [= _ <-]).
    + apply _handle_kickoff_state_spec in Hk as (_ & _ & ->). simpl.
      by apply mask_players_spec.
    + apply _handle_playing_state_spec in Hk as (_ & ->). simpl.
      by apply mask_players_spec.
Qed.

Lemma _handle_playing_state_returns (prev : list (Disc F)) (g : game) :
  Forall placed prev -> Forall placed (Game.score_discs g) ->
  is_Ok (Game._handle_playing_state prev g).
Proof.
  intros Hprev Hcur. unfold Game._handle_playing_state.
  rewrite check_goal_mask_players.
  destruct (check_goal_spec prev g Hprev Hcur) as (team & -> & _).
  simpl. repeat case_match; by eexists.
Qed.

(** The two handlers return. *)
Lemma state_handlers_return (prev : list (Disc F)) (g : game) :
  (Game.state g = GameState.KICKOFF -> discs (Game.stadium_game g) <> [] ->
   is_Ok (Game.handle_game_state prev g))
  /\ (Game.state g = GameState.PLAYING ->
      Forall placed prev -> Forall placed (Game.score_discs g) ->
      is_Ok (Game.handle_game_state prev g)).
Proof.
  unfold Game.handle_game_state.
  change (Game.state (Game.set_score _ g)) with (Game.state g). split.
  - intros -> Hne. unfold Game._handle_kickoff_state. simpl.
    destruct (discs (Game.stadium_game g)) as [|r refs] eqn:Hd; [done|].
    unfold py_getitem. simpl. destruct (norm_gt0 _ _); by eexists.
  - intros -> Hprev Hcur.
    destruct (_handle_playing_state_returns prev
      (Game.set_score (score_step GameState.PLAYING (Game.score g)) g)
      Hprev Hcur) as [g' ->].
    by eexists.
Qed.

(** C5.  On a tick that starts in KICKOFF the handler returns (the
    stadium has a disc) and leaves every player disc that has a position,
    that of a player outside the kickoff team in particular, with the mask
    [PLAYER_COLLISION | flag], [flag] being REDKO when red kicks off and
    BLUEKO when blue does: the mask contains the barrier flag in addition
    to the player mask.  On a tick that starts in PLAYING the handler
    returns (the score-flagged discs and their snapshots have positions)
    and leaves every such player disc with the mask [PLAYER_COLLISION], in
    which the barrier flags, not being part of [PLAYER_COLLISION], are
    absent.  The discs of a running game have positions; a disc without
    one is passed over by both handlers. *)
Theorem state_handlers_set_player_masks
    (prev : list (Disc F)) (g : game) (p : PlayerHandler) :
  p ∈ Game.players g ->
  let before := Game.deref (Game.heap g) (disc p) in
  (Game.state g = GameState.KICKOFF -> discs (Game.stadium_game g) <> [] ->
   exists fin g', Game.handle_game_state prev g = Ok (fin, g')
     /\ let after := Game.deref (Game.heap g') (disc p) in
        (placed before ->
         collision_mask after =
           Z.lor CollisionFlag.PLAYER_COLLISION
             (barrier_flag (Game.team_kickoff g))
         /\ CollisionFlag.includes (collision_mask after)
              (barrier_flag (Game.team_kickoff g))
         /\ (Game.team_kickoff g = TeamID.RED ->
             CollisionFlag.includes (collision_mask after) CollisionFlag.REDKO)
         /\ (Game.team_kickoff g = TeamID.BLUE ->
             CollisionFlag.includes (collision_mask after) CollisionFlag.BLUEKO))
        /\ (~ placed before -> after = before))
  /\ (Game.state g = GameState.PLAYING ->
      Forall placed prev -> Forall placed (score_flagged g) ->
      exists fin g', Game.handle_game_state prev g = Ok (fin, g')
        /\ let after := Game.deref (Game.heap g') (disc p) in
           (placed before ->
            collision_mask after = CollisionFlag.PLAYER_COLLISION
            /\ (forall flag,
                  ~ CollisionFlag.includes CollisionFlag.PLAYER_COLLISION flag ->
                  ~ CollisionFlag.includes (collision_mask after) flag)
            /\ (~ CollisionFlag.includes CollisionFlag.PLAYER_COLLISION
                    CollisionFlag.REDKO ->
                ~ CollisionFlag.includes CollisionFlag.PLAYER_COLLISION
                    CollisionFlag.BLUEKO ->
                ~ CollisionFlag.includes (collision_mask after)
                    CollisionFlag.REDKO
                /\ ~ CollisionFlag.includes (collision_mask after)
                      CollisionFlag.BLUEKO))
           /\ (~ placed before -> after = before)).
Proof.
  intros Hin before. subst before.
  destruct (state_handlers_return prev g) as [Hkick Hplay].
  split.
  - intros Hst Hne. destruct (Hkick Hst Hne) as [[fin g'] Hrun].
    exists fin, g'. split; [done|].
    destruct (state_handlers_masks prev g g' fin p Hrun Hin) as (Hk & _ & Hskip).
    split; [|apply Hskip; by left].
    intros Hpl. destruct (Hk Hst Hpl) as [Hmask Hinc].
    do 2 (split; [done|]).
    split; intros Htk; by rewrite Htk in Hinc.
  - intros Hst Hprev Hcur. rewrite <- score_discs_flagged in Hcur.
    destruct (Hplay Hst Hprev Hcur) as [[fin g'] Hrun].
    exists fin, g'. split; [done|].
    destruct (state_handlers_masks prev g g' fin p Hrun Hin) as (_ & Hp & Hskip).
    split; [|apply Hskip; by right].
    intros Hpl. destruct (Hp Hst Hpl) as [Hmask Hnone].
    do 2 (split; [done|]). intros Hr Hb. split; by apply Hnone.
Qed.

(** C6, as the code has it.  A goal detected in the PLAYING state moves the
    game to GOAL and counts the goal; [team_kickoff] becomes BLUE if the
    goal's team is BLUE and RED otherwise unless that goal ends the game,
    in which case [team_kickoff] stays what it was. *)
Theorem goal_sets_next_kickoff
    (prev : list (Disc F)) (g : game) (team_goal : TeamID.t) :
  Game.check_goal prev g = Ok team_goal ->
  team_goal <> TeamID.SPECTATOR ->
  exists g', Game._handle_playing_state prev g = Ok g'
    /\ Game.state g' = GameState.GOAL
    /\ Game.score g' = update_score team_goal (Game.score g)
    /\ Game.team_kickoff g' =
         if is_game_over (Game.score g') then Game.team_kickoff g
         else if decide (team_goal = TeamID.BLUE) then TeamID.BLUE
              else TeamID.RED.
Proof.
  intros Hgoal Hne. unfold Game._handle_playing_state.
  rewrite check_goal_mask_players, Hgoal. simpl.
  case_decide; [|done].
  destruct (is_game_over (update_score team_goal (Game.score g))) eqn:Hover;
    simpl; eexists; (split; [reflexivity|]); simpl; rewrite ?Hover; done.
Qed.

End state_facts.

(** ** The ball resolver *)

Section ball_facts.
Context {F : Type} `{Scalar F} `{CollisionFlag.values} {Trait : Type}.
Context (to_disc : gmap string JVal -> gmap string Trait -> result (@Ball.Disc F)).
Context (from_dict : @Ball.Disc F -> result (@Ball.Disc F)).

Lemma includes_lor_flag (a b flag : Z) :
  CollisionFlag.includes a flag \/ CollisionFlag.includes b flag ->
  CollisionFlag.includes (Z.lor a b) flag.
Proof.
  unfold CollisionFlag.includes. intros Hab. apply Z.bits_inj'. intros n Hn.
  rewrite Z.land_spec, Z.lor_spec.
  destruct Hab as [Hab|Hab];
    apply (f_equal (fun z => Z.testbit z n)) in Hab;
    rewrite Z.land_spec in Hab;
    destruct (Z.testbit a n), (Z.testbit b n), (Z.testbit flag n); done.
Qed.

Lemma includes_refl (flag : Z) : CollisionFlag.includes flag flag.
Proof. unfold CollisionFlag.includes. apply Z.land_diag. Qed.

(** C2: the path of the absent ball misses the flags.  [get_ball] adds
    the kick and the score flag on one path only, that of the inline
    object: the ball resolved from it has both in its group, with every
    flag the resolved disc had.  For an absent ball it returns the
    synthesized default, whose group is the group named ["ball"]; when that
    is the ball flag and the flags are distinct bits, the group includes
    the ball flag and neither the kick nor the score flag.  For ["disc0"]
    the first raw disc is taken off the list and the ball is built from its
    [__dict__]; an empty list raises [IndexError], and no other string is
    accepted. *)
Theorem get_ball_collision_group
    (d : gmap string JVal) (resolved : Ball.Disc)
    (discs : list Ball.Disc) (traits : gmap string Trait) :
  CollisionFlag.from_list ["ball"] = CollisionFlag.BALL ->
  CollisionFlag.KICK <> 0 ->
  Z.land CollisionFlag.BALL CollisionFlag.KICK = 0 ->
  CollisionFlag.SCORE <> 0 ->
  Z.land CollisionFlag.BALL CollisionFlag.SCORE = 0 ->
  (exists b,
     Ball.get_ball to_disc from_dict Ball.BallNone discs traits = Ok (b, discs)
     /\ Ball.c_group b = CollisionFlag.BALL
     /\ CollisionFlag.includes (Ball.c_group b) CollisionFlag.BALL
     /\ ~ CollisionFlag.includes (Ball.c_group b) CollisionFlag.KICK
     /\ ~ CollisionFlag.includes (Ball.c_group b) CollisionFlag.SCORE
     /\ ~ Ball.ball_flags b)
  /\ (to_disc (<["pos" := JArr [JNum (inject_Z 0); JNum (inject_Z 0)]]> d)
        traits = Ok resolved ->
      exists b,
        Ball.get_ball to_disc from_dict (Ball.BallDict d) discs traits
          = Ok (b, discs)
        /\ b = Ball.set_c_group
                 (Z.lor (Ball.c_group resolved)
                    (Z.lor CollisionFlag.KICK CollisionFlag.SCORE)) resolved
        /\ CollisionFlag.includes (Ball.c_group b) CollisionFlag.KICK
        /\ CollisionFlag.includes (Ball.c_group b) CollisionFlag.SCORE
        /\ forall flag, CollisionFlag.includes (Ball.c_group resolved) flag ->
             CollisionFlag.includes (Ball.c_group b) flag)
  /\ (forall raw,
        Ball.get_ball to_disc from_dict (Ball.BallStr "disc0") (raw :: discs)
          traits
        = match from_dict raw with
          | Ok b => Ok (b, discs)
          | Err e => Err e
          end)
  /\ Ball.get_ball to_disc from_dict (Ball.BallStr "disc0") [] traits
       = Err IndexError
  /\ (forall s, s <> "disc0" ->
        Ball.get_ball to_disc from_dict (Ball.BallStr s) discs traits
        = Err ValueError).
Proof.
  intros Hball Hkick Hbk Hscore Hbs.
  split; [|split; [|split; [|split]]].
  - eexists. split; [reflexivity|]. simpl. rewrite Hball.
    split; [done|]. split; [apply includes_refl|].
    assert (Hnk : ~ CollisionFlag.includes CollisionFlag.BALL CollisionFlag.KICK).
    { unfold CollisionFlag.includes. congruence. }
    assert (Hns : ~ CollisionFlag.includes CollisionFlag.BALL CollisionFlag.SCORE).
    { unfold CollisionFlag.includes. congruence. }
    split; [done|]. split; [done|]. intros (_ & Hk & _). simpl in Hk.
    rewrite Hball in Hk. done.
  - intros Hres. eexists. simpl. rewrite Hres. simpl. split; [reflexivity|].
    split; [reflexivity|]. simpl. repeat split.
    + apply includes_lor_flag. right. apply includes_lor_flag. left.
      apply includes_refl.
    + apply includes_lor_flag. right. apply includes_lor_flag. right.
      apply includes_refl.
    + intros flag Hflag. apply includes_lor_flag. by left.
  - intros raw. simpl. by destruct (from_dict raw).
  - done.
  - intros s Hs. simpl. by destruct (String.eqb_spec s "disc0").
Qed.

End ball_facts.

(** ** The recorder *)

Section recorder_facts.
Context `{RecorderEnv}.

Lemma append_action_frame (streams streams' : list PyVal) (i : nat)
    (row : list Z) :
  Recorder.append_action streams i row = Ok streams' ->
  length streams' = length streams.
Proof.
  unfold Recorder.append_action. intros Hrun.
  apply bind_Ok in Hrun as (stream & _ & Hrun).
  destruct stream as [| |codes]; try done.
  apply bind_Ok in Hrun as (code & _ & [= <-]). apply length_insert.
Qed.

Lemma step_from_frame (actions : list (list Z)) (i : nat)
    (streams streams' : list PyVal) :
  Recorder.step_from i actions streams = Ok streams' ->
  length streams' = length streams.
Proof.
  revert i streams. induction actions as [|row rest IH]; intros i streams; simpl.
  - by intros [= <-].
  - intros Hrun. apply bind_Ok in Hrun as (s1 & Hs1 & Hrest).
    apply IH in Hrest. apply append_action_frame in Hs1. congruence.
Qed.

Lemma step_frame (actions : list (list Z)) (r r' : GameActionRecorder) :
  Recorder.step actions r = Ok r' ->
  options r' = options r /\ player_info r' = player_info r
  /\ folder_rec r' = folder_rec r
  /\ length (player_action r') = length (player_action r).
Proof.
  unfold Recorder.step. intros Hrun.
  apply bind_Ok in Hrun as (streams & Hs & [= <-]). simpl.
  apply step_from_frame in Hs. done.
Qed.

Lemma input_translate_js_error (row : list Z) (e : PyError) :
  input_translate_js row = Err e -> e = IndexError.
Proof.
  unfold input_translate_js, py_getitem. simpl.
  destruct row as [|a0 [|a1 [|a2 row]]]; simpl; congruence.
Qed.

Lemma append_action_streams (streams streams' : list PyVal) (i : nat)
    (row : list Z) :
  Forall is_stream streams ->
  Recorder.append_action streams i row = Ok streams' ->
  Forall is_stream streams'.
Proof.
  unfold Recorder.append_action. intros Hall Hrun.
  apply bind_Ok in Hrun as (stream & _ & Hrun).
  destruct stream as [| |codes]; try done.
  apply bind_Ok in Hrun as (code & _ & [= <-]).
  apply Forall_insert; done.
Qed.

(** More rows than streams: the recorder raises [IndexError]. *)
Lemma step_from_surplus (actions : list (list Z)) (i : nat)
    (streams : list PyVal) :
  Forall is_stream streams ->
  (i <= length streams < i + length actions)%nat ->
  Recorder.step_from i actions streams = Err IndexError.
Proof.
  revert i streams. induction actions as [|row rest IH]; intros i streams Hall Hlen.
  - simpl in Hlen. lia.
  - simpl. destruct (Recorder.append_action streams i row) as [streams'|e] eqn:Hrow.
    + simpl. apply IH.
      * by eapply append_action_streams.
      * assert (Hi : (i < length streams)%nat).
        { unfold Recorder.append_action in Hrow. rewrite py_getitem_nat in Hrow.
          destruct (streams !! i) eqn:Hl; [|done].
          by apply lookup_lt_Some in Hl. }
        apply append_action_frame in Hrow. simpl in Hlen. lia.
    + simpl. f_equal. unfold Recorder.append_action in Hrow.
      rewrite py_getitem_nat in Hrow.
      destruct (streams !! i) as [stream|] eqn:Hi; simpl in Hrow; [|congruence].
      assert (Hs : is_stream stream).
      { rewrite Forall_forall in Hall. apply Hall.
        apply list_elem_of_lookup. by exists i. }
      destruct stream as [| |codes]; try done.
      destruct (input_translate_js row) as [code|e'] eqn:Hjs; [done|].
      simpl in Hrow. injection Hrow as <-. by eapply input_translate_js_error.
Qed.

Lemma step_surplus (actions : list (list Z)) (r : GameActionRecorder) :
  Forall is_stream (player_action r) ->
  (length (player_action r) < length actions)%nat ->
  Recorder.step actions r = Err IndexError.
Proof.
  intros Hall Hlen. unfold Recorder.step.
  rewrite step_from_surplus; [done | done | lia].
Qed.

(** What a recording session keeps true of the recorder. *)
Lemma record_ticks_invariant (game : Recorder.GameView) (folder : string)
    (ticks : list (list (list Z))) (r : GameActionRecorder) :
  record_ticks ticks (Recorder.start game (recorder_init folder)) = Ok r ->
  options r = [VInt (team_value (Recorder.view_team_kickoff game) * 8)]
  /\ length (player_info r) = length (Recorder.view_players game)
  /\ length (player_action r) = length (player_info r)
  /\ folder_rec r = folder.
Proof.
  assert (Hgen : forall r0 r1, record_ticks ticks r0 = Ok r1 ->
            options r1 = options r0 /\ player_info r1 = player_info r0
            /\ folder_rec r1 = folder_rec r0
            /\ length (player_action r1) = length (player_action r0)).
  { induction ticks as [|actions rest IH]; intros r0 r1; simpl.
    - by intros [= <-].
    - intros Hrun. apply bind_Ok in Hrun as (r2 & H2 & Hrest).
      apply IH in Hrest as (-> & -> & -> & ->). by apply step_frame in H2. }
  intros Hrun. apply Hgen in Hrun as (-> & -> & -> & ->). simpl.
  by rewrite !length_map.
Qed.

Lemma unpack_pairs_zip (infos actions : list PyVal) :
  Recorder.unpack_pairs
    (zip_with (fun info action => VList [info; action]) infos actions)
  = Ok (zip infos actions).
Proof.
  revert actions. induction infos as [|info infos IH]; intros [|a actions];
    try done.
  simpl. by rewrite IH.
Qed.

(** What [stop] did when it returned: with [save], the file was opened,
    the recording encoded and the bytes written, in this order. *)
Lemma recorder_stop_inv (save_flag : bool) (now : Z) (game : Recorder.GameView)
    (r r' : GameActionRecorder) (fs fs' : FileSystem) :
  Recorder.stop save_flag now game r fs = Ok (r', fs') ->
  (options r = []
   /\ r' = mkRecorder (folder_rec r) (filename r) (VList []) [] [] []
   /\ fs' = fs)
  \/ (exists o opts name,
        options r = o :: opts
        /\ Recorder.generate_replay_name now game r = Ok name
        /\ r' = mkRecorder (folder_rec r) name (VList []) [] [] []
        /\ if save_flag
           then exists b,
                  open_wb (Recorder.save_path r name) = Ok tt
                  /\ packb (recording_value r) = Ok b
                  /\ write_bytes (Recorder.save_path r name) b = Ok tt
                  /\ fs' = <[Recorder.save_path r name := b]> fs
           else fs' = fs).
Proof.
  unfold Recorder.stop. intros Hrun.
  apply bind_Ok in Hrun as ([file_name fs1] & Hbody & [= <- <-]).
  destruct (options r) as [|o opts] eqn:Hopt.
  - left. simpl in Hbody. by injection Hbody as <- <-.
  - right. exists o, opts.
    assert (Hpos : (0 <? len (o :: opts)) = true).
    { apply Z.ltb_lt. unfold len. simpl. lia. }
    rewrite Hpos in Hbody.
    apply bind_Ok in Hbody as (o' & [= <-] & Hbody).
    apply bind_Ok in Hbody as (name & Hname & Hbody).
    apply bind_Ok in Hbody as (fs2 & Hsave & [= <- <-]).
    unfold Recorder.generate_replay_name in *. simpl in Hname.
    rewrite Hopt in *. exists name. do 3 (split; [done|]).
    destruct save_flag; [|by injection Hsave as <-].
    unfold Recorder.save in Hsave.
    apply bind_Ok in Hsave as ([] & Hopen & Hsave).
    apply bind_Ok in Hsave as (b & Hpack & Hsave).
    apply bind_Ok in Hsave as ([] & Hwrite & [= <-]).
    simpl. exists b. unfold recording_value. rewrite Hopt. done.
Qed.

(** When [stop] returns with [save]. *)
Lemma recorder_stop_saves (now : Z) (game : Recorder.GameView)
    (r : GameActionRecorder) (fs : FileSystem) (o : PyVal) (opts : list PyVal)
    (name : string) (b : bytes) :
  options r = o :: opts ->
  Recorder.generate_replay_name now game r = Ok name ->
  open_wb (Recorder.save_path r name) = Ok tt ->
  packb (recording_value r) = Ok b ->
  write_bytes (Recorder.save_path r name) b = Ok tt ->
  Recorder.stop true now game r fs
  = Ok (mkRecorder (folder_rec r) name (VList []) [] [] [],
        <[Recorder.save_path r name := b]> fs).
Proof.
  intros Hopt Hname Hopen Hpack Hwrite.
  unfold recording_value in Hpack. rewrite Hopt in Hpack. simpl in Hpack.
  unfold Recorder.generate_replay_name in Hname. rewrite Hopt in Hname.
  simpl in Hname. injection Hname as <-.
  unfold Recorder.stop, Recorder.save, Recorder.generate_replay_name.
  rewrite Hopt. simpl.
  unfold Recorder.save_path in *. simpl in *.
  rewrite Hopen. simpl. rewrite Hpack. simpl. rewrite Hwrite. done.
Qed.

(** Loading back a file that [stop] wrote. *)
Lemma stop_read_round_trip (r r' reader : GameActionRecorder) (o : PyVal)
    (now : Z) (game : Recorder.GameView) (fs fs' : FileSystem) :
  codec_round_trip ->
  options r = [o] ->
  length (player_action r) = length (player_info r) ->
  Recorder.stop true now game r fs = Ok (r', fs') ->
  exists loaded,
    Recorder.read_from_file (Recorder.save_path r' (filename r')) reader fs'
    = Ok loaded
    /\ options loaded = options r
    /\ player_info loaded = player_info r
    /\ player_action loaded = player_action r.
Proof.
  intros Hcodec Hopt Hlen Hrun.
  apply recorder_stop_inv in Hrun
    as [(Hnil & _)|(o' & opts & name & Hopt' & _ & -> & b & _ & Hpack & _ & ->)];
    [congruence|].
  unfold recording_value in Hpack. rewrite Hopt in Hpack. simpl in Hpack.
  unfold Recorder.read_from_file, Recorder.save_path. simpl.
  rewrite lookup_insert_eq. rewrite (Hcodec _ _ Hpack). simpl.
  rewrite unpack_pairs_zip. simpl. eexists. split; [reflexivity|]. simpl.
  rewrite fst_zip, snd_zip by lia. by rewrite Hopt.
Qed.

(** C9.  A game is recorded: the recorder is started and fed the action
    arrays of the ticks.  Whenever [stop(save=True)] returns, that is
    whenever the file could be opened, the recording encoded and the bytes
    written, [read_from_file] on the file produced yields the options, the
    player infos and the per-player streams of per-tick actions the
    recorder held when it was stopped.  [stop(save=True)] does return when
    these three steps succeed. *)
Theorem recording_round_trip
    (game : Recorder.GameView) (folder : string)
    (ticks : list (list (list Z))) (r reader : GameActionRecorder)
    (now : Z) (final : Recorder.GameView) (fs : FileSystem) :
  codec_round_trip ->
  record_ticks ticks (Recorder.start game (recorder_init folder)) = Ok r ->
  (forall r' fs',
     Recorder.stop true now final r fs = Ok (r', fs') ->
     exists loaded,
       Recorder.read_from_file (Recorder.save_path r' (filename r')) reader fs'
       = Ok loaded
       /\ options loaded = options r
       /\ player_info loaded = player_info r
       /\ player_action loaded = player_action r)
  /\ (exists name, Recorder.generate_replay_name now final r = Ok name
        /\ forall b,
             open_wb (Recorder.save_path r name) = Ok tt ->
             packb (recording_value r) = Ok b ->
             write_bytes (Recorder.save_path r name) b = Ok tt ->
             is_Ok (Recorder.stop true now final r fs)).
Proof.
  intros Hcodec Hrun.
  apply record_ticks_invariant in Hrun as (Hopt & _ & Hlen & _).
  split.
  - intros r' fs' Hstop. by eapply stop_read_round_trip.
  - unfold Recorder.generate_replay_name at 1. rewrite Hopt. simpl.
    eexists. split; [reflexivity|]. intros b Hopen Hpack Hwrite.
    eexists. eapply recorder_stop_saves; try done.
    unfold Recorder.generate_replay_name. by rewrite Hopt.
Qed.

End recorder_facts.

(** ** The rows of a tick and the players *)

Section step_facts.
Context {F S : Type} `{Scalar F} `{CollisionFlag.values} `{RecorderEnv}
  `{!GameEnv F S}.

Local Abbreviation game := (@Game.t F S).






End step_facts.

(** ** Resetting the discs *)

Section reset_facts.
Context {F S : Type} `{Scalar F} `{CollisionFlag.values} `{RecorderEnv}
  `{!GameEnv F S}.

Local Abbreviation game := (@Game.t F S).

Lemma restore_discs_cons (r : DiscRef) (refs : list DiscRef) (t : Disc F)
    (store : list (Disc F)) (h : list (Disc F)) :
  Game.restore_discs (r :: refs) (t :: store) h
  = Game.restore_discs refs store (alter (fun d => Disc_copy d t) r h).
Proof. reflexivity. Qed.

Lemma restore_discs_length (refs : list DiscRef) (store h : list (Disc F)) :
  length (Game.restore_discs refs store h) = length h.
Proof.
  revert store h. induction refs as [|r refs IH]; intros [|t store] h; try done.
  rewrite restore_discs_cons, IH. apply length_alter.
Qed.



Lemma spawn_position_error (spawns : list (Vec F)) (x : F) (k : Z) (e : PyError) :
  Game.spawn_position spawns x k = Err e -> e = IndexError.
Proof.
  unfold Game.spawn_position, py_getitem.
  repeat case_match; congruence.
Qed.

(** One turn of the loop over the players. *)
Lemma reset_player_spec (store : Stadium F (Disc F)) (live : Stadium F DiscRef)
    (p : PlayerHandler) (rc bc : Z) (h : list (Disc F)) :
  match Game.reset_player store live p (rc, bc) h with
  | Ok (rc', bc', h') =>
      length h' = length h
      /\ (forall r, r <> disc p -> Game.deref h' r = Game.deref h r)
      /\ rc' = rc + (if decide (team p = TeamID.RED) then 1 else 0)
      /\ bc' = bc + (if decide (team p = TeamID.BLUE) then 1 else 0)
      /\ (team p = TeamID.RED ->
          exists pos,
            Game.spawn_position (red_spawn_points store)
              (fneg (spawn_distance live)) rc = Ok pos
            /\ ((disc p < length h)%nat ->
                position (Game.deref h' (disc p)) = Some pos))
      /\ (team p = TeamID.BLUE ->
          exists pos,
            Game.spawn_position (blue_spawn_points store)
              (spawn_distance live) bc = Ok pos
            /\ ((disc p < length h)%nat ->
                position (Game.deref h' (disc p)) = Some pos))
  | Err e =>
      e = IndexError
      /\ ((team p = TeamID.RED /\
           Game.spawn_position (red_spawn_points store)
             (fneg (spawn_distance live)) rc = Err IndexError)
          \/ (team p = TeamID.BLUE /\
              Game.spawn_position (blue_spawn_points store)
                (spawn_distance live) bc = Err IndexError))
  end.
Proof.
  unfold Game.reset_player.
  set (h4 := alter (set_color _) (disc p) _).
  assert (Hlen : length h4 = length h).
  { unfold h4. by rewrite !length_alter. }
  assert (Hother : forall r, r <> disc p -> Game.deref h4 r = Game.deref h r).
  { intros r Hne. unfold h4. rewrite !deref_alter.
    repeat (rewrite decide_False; [|intros [? _]; congruence]). done. }
  destruct (decide (team p = TeamID.RED)) as [Hred|Hnred].
  - destruct (Game.spawn_position (red_spawn_points store) _ rc)
      as [pos|e] eqn:Hpos; simpl.
    + rewrite length_alter. repeat split; try done.
      * intros r Hne. rewrite deref_alter.
        rewrite decide_False; [by apply Hother | intros [? _]; congruence].
      * rewrite decide_False; [lia | congruence].
      * intros _. exists pos. split; [done|]. intros Hlt.
        rewrite deref_alter, decide_True; [done | split; [done | lia]].
      * intros Hb. congruence.
    + apply spawn_position_error in Hpos as Hpos'. subst e. split; [done|].
      by left.
  - destruct (decide (team p = TeamID.BLUE)) as [Hblue|Hnblue].
    + destruct (Game.spawn_position (blue_spawn_points store) _ bc)
        as [pos|e] eqn:Hpos; simpl.
      * rewrite length_alter. repeat split; try done.
        -- intros r Hne. rewrite deref_alter.
           rewrite decide_False; [by apply Hother | intros [? _]; congruence].
        -- lia.
        -- intros _. exists pos. split; [done|]. intros Hlt.
           rewrite deref_alter, decide_True; [done | split; [done | lia]].
      * apply spawn_position_error in Hpos as Hpos'. subst e. split; [done|].
        by right.
    + repeat split; try done; lia.
Qed.

Lemma reset_player_team (store : Stadium F (Disc F)) (live : Stadium F DiscRef)
    (p : PlayerHandler) (rc bc : Z) (h : list (Disc F)) :
  match Game.reset_player store live p (rc, bc) h with
  | Ok (rc', bc', h') =>
      length h' = length h
      /\ (forall r, r <> disc p -> Game.deref h' r = Game.deref h r)
      /\ (forall t, t <> TeamID.SPECTATOR ->
            team_counter t rc' bc' =
              team_counter t rc bc + (if decide (team p = t) then 1 else 0))
      /\ (team p <> TeamID.SPECTATOR ->
          exists pos,
            team_spawn store live (team p) (team_counter (team p) rc bc) = Ok pos
            /\ ((disc p < length h)%nat ->
                position (Game.deref h' (disc p)) = Some pos))
  | Err e =>
      e = IndexError /\ team p <> TeamID.SPECTATOR
      /\ team_spawn store live (team p) (team_counter (team p) rc bc)
           = Err IndexError
  end.
Proof.
  pose proof (reset_player_spec store live p rc bc h) as Hspec.
  destruct (Game.reset_player store live p (rc, bc) h) as [[[rc' bc'] h']|e].
  - destruct Hspec as (Hlen & Hfr & -> & -> & Hred & Hblue).
    repeat split; try done.
    + intros [] Ht; [done| |]; simpl; repeat case_decide; congruence || lia.
    + intros Hteam. destruct (team p) eqn:Ht; [done| |]; simpl; auto.
  - destruct Hspec as (-> & [[Ht Hsp]|[Ht Hsp]]); rewrite Ht; simpl; done.
Qed.

Lemma team_count_cons (t : TeamID.t) (p : PlayerHandler)
    (ps : list PlayerHandler) :
  team_count t (p :: ps) =
    (if decide (team p = t) then 1 else 0) + team_count t ps.
Proof.
  unfold team_count, len. rewrite filter_cons.
  case_decide; simpl; lia.
Qed.

Lemma team_count_nonneg (t : TeamID.t) (ps : list PlayerHandler) :
  0 <= team_count t ps.
Proof. unfold team_count, len. lia. Qed.

Lemma reset_players_cons (store : Stadium F (Disc F))
    (live : Stadium F DiscRef) (p : PlayerHandler) (ps : list PlayerHandler)
    (counts : Z * Z) (h : list (Disc F)) :
  Game.reset_players store live (p :: ps) counts h =
    Game.reset_player store live p counts h ≫= fun step =>
      Game.reset_players store live ps (step.1.1, step.1.2) step.2.
Proof.
  simpl. destruct (Game.reset_player store live p counts h) as [[[rc bc] h']|e];
    done.
Qed.

(** The loop over the players: the player at position [i] of the roster
    is given the spawn of its number within its team. *)
Lemma reset_players_spec (store : Stadium F (Disc F)) (live : Stadium F DiscRef)
    (ps : list PlayerHandler) (rc bc : Z) (h : list (Disc F)) :
  match Game.reset_players store live ps (rc, bc) h with
  | Ok h' =>
      length h' = length h
      /\ (forall r, ~ is_player_disc ps r -> Game.deref h' r = Game.deref h r)
      /\ (forall i p, ps !! i = Some p -> team p <> TeamID.SPECTATOR ->
          exists pos,
            team_spawn store live (team p)
              (team_counter (team p) rc bc + team_count (team p) (take i ps))
              = Ok pos
            /\ (disc p ∉ map disc (drop (Datatypes.S i) ps) ->
                (disc p < length h)%nat ->
                position (Game.deref h' (disc p)) = Some pos))
  | Err e =>
      e = IndexError
      /\ exists i p, ps !! i = Some p /\ team p <> TeamID.SPECTATOR
           /\ team_spawn store live (team p)
                (team_counter (team p) rc bc + team_count (team p) (take i ps))
                = Err IndexError
  end.
Proof.
  revert rc bc h. induction ps as [|p0 ps IH]; intros rc bc h.
  - simpl. repeat split; try done.
  - rewrite reset_players_cons.
    pose proof (reset_player_team store live p0 rc bc h) as Hstep.
    destruct (Game.reset_player store live p0 (rc, bc) h)
      as [[[rc' bc'] h1]|e]; simpl.
    + destruct Hstep as (Hlen1 & Hfr1 & Hcnt & Hpos1).
      specialize (IH rc' bc' h1).
      destruct (Game.reset_players store live ps (rc', bc') h1) as [h'|e].
      * destruct IH as (Hlen & Hfr & Hpos). repeat split.
        -- congruence.
        -- intros r Hnp. unfold is_player_disc in *. simpl in Hnp.
           apply not_elem_of_cons in Hnp as [Hne Hnp].
           rewrite Hfr by done. by apply Hfr1.
        -- intros [|i] p Hi Hteam; simpl in Hi.
           ++ injection Hi as ->. destruct (Hpos1 Hteam) as (pos & Hsp & Hp).
              exists pos. simpl. unfold team_count at 1. simpl.
              rewrite Z.add_0_r. split; [done|].
              intros Hlater Hlt. rewrite Hfr by done. by apply Hp.
           ++ destruct (Hpos i p Hi Hteam) as (pos & Hsp & Hp).
              exists pos. simpl. rewrite team_count_cons.
              rewrite (Hcnt (team p) Hteam) in Hsp.
              rewrite Z.add_assoc. split; [done|].
              intros Hlater Hlt. apply Hp; [done | lia].
      * destruct IH as (-> & i & p & Hi & Hteam & Hsp). split; [done|].
        exists (Datatypes.S i), p. simpl. rewrite team_count_cons.
        rewrite (Hcnt (team p) Hteam) in Hsp. rewrite Z.add_assoc. done.
    + destruct Hstep as (-> & Hteam & Hsp). split; [done|].
      exists 0%nat, p0. simpl. unfold team_count at 1. simpl.
      rewrite Z.add_0_r. done.
Qed.

Lemma team_count_app (t : TeamID.t) (l1 l2 : list PlayerHandler) :
  team_count t (l1 ++ l2) = team_count t l1 + team_count t l2.
Proof. unfold team_count, len. rewrite filter_app, length_app. lia. Qed.

(** A player is preceded by fewer team mates than its team has players. *)
Lemma team_count_take_lt (t : TeamID.t) (ps : list PlayerHandler) (i : nat)
    (p : PlayerHandler) :
  ps !! i = Some p -> team p = t ->
  0 <= team_count t (take i ps) < team_count t ps.
Proof.
  intros Hi Ht. split; [apply team_count_nonneg|].
  rewrite <- (take_drop_middle ps i p Hi) at 2.
  rewrite team_count_app, team_count_cons, decide_True by done.
  pose proof (team_count_nonneg t (drop (Datatypes.S i) ps)). lia.
Qed.

(** Every number below the size of the team belongs to one of its players. *)
Lemma team_count_reached (t : TeamID.t) (ps : list PlayerHandler) (k : Z) :
  0 <= k < team_count t ps ->
  exists i p, ps !! i = Some p /\ team p = t /\ team_count t (take i ps) = k.
Proof.
  revert k. induction ps as [|p0 ps IH]; intros k Hk.
  - unfold team_count, len in Hk. simpl in Hk. lia.
  - rewrite team_count_cons in Hk.
    destruct (decide (team p0 = t)) as [Ht|Hnt].
    + destruct (decide (k = 0)) as [->|Hk0].
      * exists 0%nat, p0. by repeat split.
      * destruct (IH (k - 1)) as (i & p & Hi & Hp & Hc); [lia|].
        exists (Datatypes.S i), p. repeat split; try done.
        simpl. rewrite team_count_cons, decide_True by done. lia.
    + destruct (IH k) as (i & p & Hi & Hp & Hc); [lia|].
      exists (Datatypes.S i), p. repeat split; try done.
      simpl. rewrite team_count_cons, decide_False by done. lia.
Qed.

(** Where [spawn_position] looks, and when it finds a spawn. *)
Lemma spawn_position_spec (spawns : list (Vec F)) (x : F) (k : Z) :
  0 <= k ->
  (spawns = [] -> Game.spawn_position spawns x k = Ok (Game.fallback_spawn x k))
  /\ (spawns <> [] ->
      Game.spawn_position spawns x k = py_getitem spawns (Z.min k (len spawns))
      /\ (k < len spawns ->
          exists pos, spawns !! Z.to_nat k = Some pos
            /\ Game.spawn_position spawns x k = Ok pos)
      /\ (len spawns <= k ->
          Z.min k (len spawns) = len spawns
          /\ Game.spawn_position spawns x k = Err IndexError)).
Proof.
  intros Hk. unfold Game.spawn_position. split.
  - by intros ->.
  - intros Hne. assert (Hlen : 0 < len spawns).
    { unfold len. destruct spawns; [done | simpl; lia]. }
    destruct (Z.ltb_spec 0 (len spawns)) as [_|]; [|lia].
    split; [done|]. split.
    + intros Hlt. rewrite Z.min_l by lia.
      pose proof (py_getitem_nat spawns (Z.to_nat k)) as Hget.
      rewrite Z2Nat.id in Hget by done. rewrite Hget.
      destruct (lookup_lt_is_Some_2 spawns (Z.to_nat k)) as [pos Hpos].
      { unfold len in Hlt. lia. }
      exists pos. by rewrite Hpos.
    + intros Hge. rewrite Z.min_r by lia. split; [done|].
      unfold len. rewrite py_getitem_nat.
      by rewrite lookup_ge_None_2 by lia.
Qed.

Lemma team_spawn_points_spec (store : Stadium F (Disc F))
    (live : Stadium F DiscRef) (t : TeamID.t) (k : Z) :
  exists x, team_spawn store live t k =
              Game.spawn_position (team_spawn_points store t) x k.
Proof. destruct t; simpl; eauto. Qed.

Lemma team_spawn_returns (store : Stadium F (Disc F))
    (live : Stadium F DiscRef) (t : TeamID.t) (k : Z) :
  0 <= k ->
  is_Ok (team_spawn store live t k) <->
  team_spawn_points store t = [] \/ k < len (team_spawn_points store t).
Proof.
  intros Hk. destruct (team_spawn_points_spec store live t k) as [x ->].
  destruct (spawn_position_spec (team_spawn_points store t) x k Hk)
    as (Hnil & Hcons).
  destruct (decide (team_spawn_points store t = [])) as [Hn|Hn].
  - rewrite (Hnil Hn). split; [by left | by eexists].
  - destruct (Hcons Hn) as (_ & Hlt & Hge). split.
    + intros [pos Hpos]. right.
      destruct (decide (k < len (team_spawn_points store t))); [done|].
      destruct Hge as [_ Herr]; [lia|]. congruence.
    + intros [Hnil'|Hlt']; [done|].
      destruct (Hlt Hlt') as (pos & _ & ->). by eexists.
Qed.

(** The loop over the players returns exactly when no team with spawn
    points has more players than spawn points. *)
Lemma reset_players_returns (store : Stadium F (Disc F))
    (live : Stadium F DiscRef) (ps : list PlayerHandler) (h : list (Disc F)) :
  is_Ok (Game.reset_players store live ps (0, 0) h) <->
  forall t, t <> TeamID.SPECTATOR ->
    team_spawn_points store t = []
    \/ team_count t ps <= len (team_spawn_points store t).
Proof.
  pose proof (reset_players_spec store live ps 0 0 h) as Hspec.
  assert (Hzero : forall t, team_counter t 0 0 = 0) by (by intros []).
  split.
  - intros [h' Hrun] t Ht. rewrite Hrun in Hspec.
    destruct Hspec as (_ & _ & Hpos).
    destruct (decide (team_spawn_points store t = [])) as [|Hne]; [by left|].
    right. destruct (decide (team_count t ps <= len (team_spawn_points store t)))
      as [|Hgt]; [done|]. exfalso.
    destruct (team_count_reached t ps (len (team_spawn_points store t)))
      as (i & p & Hi & Hp & Hc); [unfold len at 1; lia|].
    subst t. destruct (Hpos i p Hi Ht) as (pos & Hsp & _).
    rewrite Hzero, Hc, Z.add_0_l in Hsp.
    assert (Hok : is_Ok (team_spawn store live (team p)
                           (len (team_spawn_points store (team p)))))
      by (by eexists).
    apply team_spawn_returns in Hok as [Hnil|Hlt]; [done|lia|unfold len; lia].
  - intros Hcond.
    destruct (Game.reset_players store live ps (0, 0) h) as [h'|e];
      [by eexists|]. exfalso.
    destruct Hspec as (_ & i & p & Hi & Ht & Herr).
    rewrite Hzero, Z.add_0_l in Herr.
    pose proof (team_count_take_lt (team p) ps i p Hi eq_refl) as [Hk0 Hklt].
    assert (Hok : is_Ok (team_spawn store live (team p)
                           (team_count (team p) (take i ps)))).
    { apply team_spawn_returns; [done|].
      destruct (Hcond (team p) Ht) as [Hnil|Hle]; [by left | right; lia]. }
    destruct Hok as [pos Hok]. congruence.
Qed.

(** The discs [reset_discs_positions] selects from a stadium: all of them
    in the mode "full", the first one otherwise. *)
Lemma selection_spec {D : Type} (st : Stadium F D) (l : list D) :
  (if String.eqb (kickoff_reset st) "full" then Ok (discs st)
   else py_getitem (discs st) 0 ≫= fun d => Ok [d]) = Ok l ->
  (kickoff_reset st = "full" /\ l = discs st)
  \/ (kickoff_reset st <> "full" /\ exists d, discs st !! 0%nat = Some d /\ l = [d]).
Proof.
  destruct (String.eqb_spec (kickoff_reset st) "full") as [Hfull|Hpart].
  - intros [= <-]. by left.
  - intros Hsel. right. split; [done|].
    apply bind_Ok in Hsel as (d & Hd & [= <-]).
    change 0 with (Z.of_nat 0) in Hd. rewrite py_getitem_nat in Hd.
    destruct (discs st !! 0%nat) as [d'|]; [|done].
    injection Hd as ->. by exists d.
Qed.

Lemma selection_returns {D : Type} (st : Stadium F D) :
  is_Ok (if String.eqb (kickoff_reset st) "full" then Ok (discs st)
         else py_getitem (discs st) 0 ≫= fun d => Ok [d])
  <-> kickoff_reset st = "full" \/ discs st <> [].
Proof.
  destruct (String.eqb_spec (kickoff_reset st) "full") as [Hfull|Hpart].
  - split; [by left | by eexists].
  - destruct (discs st) as [|d l]; simpl.
    + split; [by intros [? ?] | by intros [?|?]].
    + split; [by right | by eexists].
Qed.

Lemma reset_discs_positions_inv (g g' : game) :
  Game.reset_discs_positions g = Ok g' ->
  exists dg ds,
    ((kickoff_reset (Game.stadium_game g) = "full"
      /\ dg = discs (Game.stadium_game g))
     \/ (kickoff_reset (Game.stadium_game g) <> "full"
         /\ exists d, discs (Game.stadium_game g) !! 0%nat = Some d /\ dg = [d]))
    /\ ((kickoff_reset (Game.stadium_store g) = "full"
         /\ ds = discs (Game.stadium_store g))
        \/ (kickoff_reset (Game.stadium_store g) <> "full"
            /\ exists d, discs (Game.stadium_store g) !! 0%nat = Some d /\ ds = [d]))
    /\ Game.reset_players (Game.stadium_store g) (Game.stadium_game g)
         (Game.players g) (0, 0) (Game.restore_discs dg ds (Game.heap g))
       = Ok (Game.heap g')
    /\ g' = Game.set_heap (Game.heap g') g.
Proof.
  unfold Game.reset_discs_positions. intros Hrun.
  apply bind_Ok in Hrun as (dg & Hdg & Hrun).
  apply bind_Ok in Hrun as (ds & Hds & Hrun).
  apply bind_Ok in Hrun as (h' & Hh & [= <-]).
  exists dg, ds. split; [by apply selection_spec|].
  split; [by apply selection_spec|]. done.
Qed.

(** The game returns from [reset_discs_positions] exactly when it can
    select the discs to restore and find a spawn for every player. *)
Lemma reset_discs_positions_returns (g : game) :
  is_Ok (Game.reset_discs_positions g) <->
  (kickoff_reset (Game.stadium_game g) = "full"
   \/ discs (Game.stadium_game g) <> [])
  /\ (kickoff_reset (Game.stadium_store g) = "full"
      \/ discs (Game.stadium_store g) <> [])
  /\ forall t, t <> TeamID.SPECTATOR ->
       team_spawn_points (Game.stadium_store g) t = []
       \/ team_count t (Game.players g)
            <= len (team_spawn_points (Game.stadium_store g) t).
Proof.
  rewrite <- (selection_returns (Game.stadium_game g)).
  rewrite <- (selection_returns (Game.stadium_store g)).
  unfold Game.reset_discs_positions.
  destruct (if String.eqb (kickoff_reset (Game.stadium_game g)) "full" then _ else _)
    as [dg|e]; simpl; [|split; [by intros [? ?] | by intros ([? ?] & _)]].
  destruct (if String.eqb (kickoff_reset (Game.stadium_store g)) "full" then _ else _)
    as [ds|e]; simpl; [|split; [by intros [? ?] | by intros (_ & [? ?] & _)]].
  rewrite <- (reset_players_returns (Game.stadium_store g) (Game.stadium_game g)
                (Game.players g) (Game.restore_discs dg ds (Game.heap g))).
  destruct (Game.reset_players _ _ _ _ _) as [h'|e]; simpl.
  - split; [intros _ | by eexists]. repeat split; by eexists.
  - split; [by intros [? ?] | by intros (_ & _ & [? ?])].
Qed.

Lemma NoDup_later (ps : list PlayerHandler) (i : nat) (p : PlayerHandler) :
  NoDup (map disc ps) -> ps !! i = Some p ->
  disc p ∉ map disc (drop (Datatypes.S i) ps).
Proof.
  intros Hnd Hi. rewrite <- (take_drop_middle ps i p Hi) in Hnd.
  rewrite map_app in Hnd. apply NoDup_app in Hnd as (_ & _ & Hnd).
  simpl in Hnd. by apply NoDup_cons in Hnd as [Hnot _].
Qed.

(** Every player of a team is placed at the spawn of its number. *)
Lemma reset_places_players (g g' : game) (i : nat) (p : PlayerHandler) :
  Game.reset_discs_positions g = Ok g' ->
  NoDup (map disc (Game.players g)) ->
  Game.players g !! i = Some p ->
  team p <> TeamID.SPECTATOR ->
  (disc p < length (Game.heap g))%nat ->
  exists pos,
    team_spawn (Game.stadium_store g) (Game.stadium_game g) (team p)
      (team_count (team p) (take i (Game.players g))) = Ok pos
    /\ position (Game.deref (Game.heap g') (disc p)) = Some pos.
Proof.
  intros Hrun Hnd Hi Ht Hlt.
  apply reset_discs_positions_inv in Hrun as (dg & ds & _ & _ & Hps & _).
  pose proof (reset_players_spec (Game.stadium_store g) (Game.stadium_game g)
    (Game.players g) 0 0 (Game.restore_discs dg ds (Game.heap g))) as Hspec.
  rewrite Hps in Hspec. destruct Hspec as (_ & _ & Hpos).
  destruct (Hpos i p Hi Ht) as (pos & Hsp & Hp).
  assert (Hzero : team_counter (team p) 0 0 = 0) by (by destruct (team p)).
  rewrite Hzero, Z.add_0_l in Hsp. exists pos. split; [done|].
  apply Hp; [by apply NoDup_later | by rewrite restore_discs_length].
Qed.

Lemma fallback_spawn_spec (x : F) (k : Z) :
  Game.fallback_spawn x k = (x, of_Z (spec_spawn_y k)).
Proof.
  unfold Game.fallback_spawn, spec_spawn_y. f_equal. f_equal.
  rewrite Zmod_odd. destruct (Z.odd k); simpl; lia.
Qed.



(** The procedural spawn of a player whose team has no spawn points. *)
Lemma reset_discs_positions_fallback
    (g g' : game) (i : nat) (p : PlayerHandler) :
  Game.reset_discs_positions g = Ok g' ->
  NoDup (map disc (Game.players g)) ->
  Game.players g !! i = Some p ->
  (disc p < length (Game.heap g))%nat ->
  let k := team_count (team p) (take i (Game.players g)) in
  (team p = TeamID.RED ->
   red_spawn_points (Game.stadium_store g) = [] ->
   position (Game.deref (Game.heap g') (disc p)) =
     Some (fneg (spawn_distance (Game.stadium_game g)), of_Z (spec_spawn_y k)))
  /\ (team p = TeamID.BLUE ->
      blue_spawn_points (Game.stadium_store g) = [] ->
      position (Game.deref (Game.heap g') (disc p)) =
        Some (spawn_distance (Game.stadium_game g), of_Z (spec_spawn_y k))).
Proof.
  intros Hrun Hnd Hi Hlt k.
  split; intros Ht Hnil;
    (destruct (reset_places_players g g' i p Hrun Hnd Hi) as (pos & Hsp & ->);
     [by rewrite Ht | done |]);
    fold k in Hsp; rewrite Ht in Hsp; simpl in Hsp; rewrite Hnil in Hsp;
    unfold Game.spawn_position in Hsp; simpl in Hsp;
    injection Hsp as <-; by rewrite fallback_spawn_spec.
Qed.


(** C8.  When the spawn-point list of a team is empty, the player that is
    number [k] of that team in roster order (counting from 0) is placed at
    abscissa [-spawn_distance] for red and [+spawn_distance] for blue, and
    at the ordinate [-55 * ((k+1) >> 1)] when [k] is odd and
    [55 * ((k+1) >> 1)] when [k] is even. *)
Theorem fallback_spawn_by_team_number
    (g : game) (i : nat) (p : PlayerHandler) :
  can_reset g ->
  NoDup (map disc (Game.players g)) ->
  Game.players g !! i = Some p ->
  (disc p < length (Game.heap g))%nat ->
  exists g', Game.reset_discs_positions g = Ok g' /\
  let k := team_count (team p) (take i (Game.players g)) in
  (team p = TeamID.RED ->
   red_spawn_points (Game.stadium_store g) = [] ->
   position (Game.deref (Game.heap g') (disc p)) =
     Some (fneg (spawn_distance (Game.stadium_game g)), of_Z (spec_spawn_y k)))
  /\ (team p = TeamID.BLUE ->
      blue_spawn_points (Game.stadium_store g) = [] ->
      position (Game.deref (Game.heap g') (disc p)) =
        Some (spawn_distance (Game.stadium_game g), of_Z (spec_spawn_y k))).
Proof.
  intros Hcan Hnd Hi Hlt.
  apply reset_discs_positions_returns in Hcan as [g' Hrun].
  exists g'. split; [done|]. by apply reset_discs_positions_fallback.
Qed.

(** C10.  With a non-empty spawn-point list the loop looks up the index
    [min(k, len(spawns))] for the team's player number [k].  That index is
    inside the list for every player of the team if and only if the team
    has no more players than spawn points; for [k = len(spawns)] the index
    is [len(spawns)], one past the end, and the lookup raises
    [IndexError].  Accordingly [reset_discs_positions], once it has
    selected the discs to restore, returns if and only if every team with
    spawn points has no more players than spawn points. *)
Theorem spawn_index_in_bounds (g : game) (t : TeamID.t) :
  t <> TeamID.SPECTATOR ->
  let spawns := team_spawn_points (Game.stadium_store g) t in
  spawns <> [] ->
  (forall k, 0 <= k ->
     team_spawn (Game.stadium_store g) (Game.stadium_game g) t k
       = py_getitem spawns (Z.min k (len spawns)))
  /\ ((forall i p, Game.players g !! i = Some p -> team p = t ->
        0 <= Z.min (team_count t (take i (Game.players g))) (len spawns)
          < len spawns)
      <-> team_count t (Game.players g) <= len spawns)
  /\ (Z.min (len spawns) (len spawns) = len spawns
      /\ team_spawn (Game.stadium_store g) (Game.stadium_game g) t (len spawns)
         = Err IndexError)
  /\ (is_Ok (Game.reset_discs_positions g) ->
      team_count t (Game.players g) <= len spawns)
  /\ (kickoff_reset (Game.stadium_game g) = "full"
        \/ discs (Game.stadium_game g) <> [] ->
      kickoff_reset (Game.stadium_store g) = "full"
        \/ discs (Game.stadium_store g) <> [] ->
      len spawns < team_count t (Game.players g) ->
      Game.reset_discs_positions g = Err IndexError).
Proof.
  intros Ht spawns Hne.
  assert (Hlen : 0 <= len spawns) by (unfold len; lia).
  destruct (team_spawn_points_spec (Game.stadium_store g) (Game.stadium_game g)
              t (len spawns)) as [x Hx].
  assert (Hreturns : is_Ok (Game.reset_discs_positions g) ->
                     team_count t (Game.players g) <= len spawns).
  { intros Hok. apply reset_discs_positions_returns in Hok as (_ & _ & Hcond).
    by destruct (Hcond t Ht). }
  split; [|split; [|split; [|split]]].
  - intros k Hk.
    destruct (team_spawn_points_spec (Game.stadium_store g)
                (Game.stadium_game g) t k) as [x' ->].
    by apply spawn_position_spec.
  - split.
    + intros Hall.
      destruct (decide (team_count t (Game.players g) <= len spawns)); [done|].
      destruct (team_count_reached t (Game.players g) (len spawns))
        as (i & p & Hi & Hp & Hc); [lia|].
      specialize (Hall i p Hi Hp). rewrite Hc in Hall. lia.
    + intros Hle i p Hi Hp.
      pose proof (team_count_take_lt t (Game.players g) i p Hi Hp). lia.
  - split; [lia|]. rewrite Hx.
    by apply (spawn_position_spec spawns x (len spawns) Hlen).
  - exact Hreturns.
  - intros Hl Hs Hgt.
    destruct (Game.reset_discs_positions g) as [g'|e] eqn:Hrun.
    + specialize (Hreturns ltac:(by eexists)). lia.
    + f_equal. clear Hreturns.
      unfold Game.reset_discs_positions in Hrun.
      apply selection_returns in Hl as [dg Hdg].
      apply selection_returns in Hs as [ds Hds].
      rewrite Hdg, Hds in Hrun. simpl in Hrun.
      pose proof (reset_players_spec (Game.stadium_store g) (Game.stadium_game g)
        (Game.players g) 0 0 (Game.restore_discs dg ds (Game.heap g))) as Hspec.
      destruct (Game.reset_players _ _ _ _ _) as [h'|e']; [done|].
      simpl in Hrun. injection Hrun as <-. by destruct Hspec.
Qed.

End reset_facts.

(** ** The theorems on concrete games *)

Section concrete.
#[local] Existing Instance Q_scalar.
#[local] Existing Instance haxball_flags.
#[local] Existing Instance test_recorder_env.
#[local] Existing Instance test_game_env.

Import Example.

(** C3 as stated fails: the row [5, None, 2] is stored as [5, 0, 2], whose
    first and last component lie outside [{-1,0,1}] and [{0,1}]. *)
Lemma out_of_range_action_is_stored :
  action (Game.make_player_action (player "P0" 0 TeamID.RED 2%nat)
            (ActSeq [CInt 5; CNone; CInt 2])
            (started "partial" [] [] 1)).1 = [5; 0; 2]
  /\ ~ clamped_action [5; 0; 2].
Proof.
  split; [reflexivity|].
  intros (dx & dy & kick & [= <- <- <-] & Hdx & _). lia.
Qed.


(** With a recorder attached, the fifth row of a tick for four players
    makes the recorder raise [IndexError], at the end of the tick. *)
Lemma surplus_row_fails_in_the_recorder :
  Game.step
    (ActionsArray [[1; 0; 0]; [0; 0; 0]; [0; 1; 0]; [0; 0; 0]; [1; 1; 1]])
    started_recording
  = Err IndexError
  /\ is_Ok (Game.step
              (ActionsArray [[1; 0; 0]; [0; 0; 0]; [0; 1; 0]])
              started_recording).
Proof. split; [vm_compute; reflexivity|]. eexists. vm_compute. reflexivity. Qed.

(** C2 fails for an absent ball: with HaxBall's flag values the
    synthesized default ball has the group 1, the ball flag alone, without
    the kick and the score flag that the path of the inline object adds. *)
Lemma default_ball_group :
  exists b, Ball.get_ball to_wall_disc struct_from_dict Ball.BallNone [] ∅
              = Ok (b, [])
    /\ Ball.c_group b = 1
    /\ ~ CollisionFlag.includes (Ball.c_group b) CollisionFlag.KICK
    /\ ~ CollisionFlag.includes (Ball.c_group b) CollisionFlag.SCORE
    /\ ~ Ball.ball_flags b.
Proof.
  eexists. split; [reflexivity|]. split; [reflexivity|].
  split; [|split].
  - intros Hk. vm_compute in Hk. discriminate.
  - intros Hs. vm_compute in Hs. discriminate.
  - intros (_ & Hk & _). vm_compute in Hk. discriminate.
Qed.

(** C6 as stated fails: with a score limit of one, the goal detected for
    BLUE ends the game and [team_kickoff] stays RED. *)
Lemma deciding_goal_keeps_kickoff :
  Game.check_goal snapshot (scoring 1) = Ok TeamID.BLUE
  /\ Game.team_kickoff (scoring 1) = TeamID.RED
  /\ exists g', Game._handle_playing_state snapshot (scoring 1) = Ok g'
       /\ Game.team_kickoff g' = TeamID.RED.
Proof.
  split; [vm_compute; reflexivity|]. split; [reflexivity|].
  eexists. split; [vm_compute; reflexivity|]. reflexivity.
Qed.

(** *** The theorems at work *)

Lemma placed_snapshot : Forall placed snapshot.
Proof. repeat constructor. by eexists. Qed.

Lemma placed_score_discs (limit : Z) :
  Forall placed (score_flagged (scoring limit)).
Proof. vm_compute. repeat constructor. by eexists. Qed.

Lemma check_goal_signals_crossing_witness :
  exists team, Game.check_goal snapshot (scoring 3) = Ok team.
Proof.
  destruct (check_goal_signals_crossing snapshot (scoring 3)
              placed_snapshot (placed_score_discs 3)) as (team & Hrun & _).
  by exists team.
Defined.

Lemma get_ball_collision_group_witness :
  exists b, Ball.get_ball to_wall_disc struct_from_dict Ball.BallNone [] ∅
              = Ok (b, [])
    /\ ~ Ball.ball_flags b.
Proof.
  destruct (get_ball_collision_group to_wall_disc struct_from_dict ∅ wall_disc
              [] ∅)
    as ((b & Hrun & _ & _ & _ & _ & Hflags) & _);
    [reflexivity | done | reflexivity | done | reflexivity |].
  by exists b.
Defined.

Lemma make_player_action_stores_normalized_witness :
  action (Game.make_player_action (player "P0" 0 TeamID.RED 2%nat)
            (ActSeq [CInt 1; CNone; CInt 1])
            (started "partial" [] [] 1)).1 = [1; 0; 1].
Proof.
  exact (proj1 (make_player_action_stores_normalized
                  (player "P0" 0 TeamID.RED 2%nat)
                  (ActSeq [CInt 1; CNone; CInt 1])
                  (started "partial" [] [] 1) [])).
Defined.


Lemma started_placed_blue :
  placed (Game.deref (Game.heap (started "partial" [] [] 1)) 3%nat).
Proof. vm_compute. by eexists. Qed.

Lemma state_handlers_set_player_masks_witness :
  exists fin g',
    Game.handle_game_state [] (started "partial" [] [] 1) = Ok (fin, g')
    /\ CollisionFlag.includes
         (collision_mask (Game.deref (Game.heap g') 3%nat))
         CollisionFlag.REDKO.
Proof.
  destruct (state_handlers_set_player_masks [] (started "partial" [] [] 1)
              (player "P1" 1 TeamID.BLUE 3%nat)) as [Hkick _].
  { apply list_elem_of_lookup. by exists 1%nat. }
  destruct (Hkick eq_refl) as (fin & g' & Hrun & Hplaced & _); [done|].
  exists fin, g'. split; [exact Hrun|].
  destruct (Hplaced started_placed_blue) as (_ & _ & Hred & _).
  exact (Hred eq_refl).
Defined.

Lemma goal_sets_next_kickoff_witness :
  exists g', Game._handle_playing_state snapshot (scoring 3) = Ok g'
    /\ Game.state g' = GameState.GOAL.
Proof.
  assert (Hgoal : Game.check_goal snapshot (scoring 3) = Ok TeamID.BLUE)
    by (vm_compute; reflexivity).
  destruct (goal_sets_next_kickoff snapshot (scoring 3) TeamID.BLUE Hgoal)
    as (g' & Hrun & Hstate & _); [done|].
  by exists g'.
Defined.

Lemma can_reset_started (reset : string) (limit : Z) :
  can_reset (started reset [] [] limit).
Proof.
  assert (Hst : Game.stadium_store (started reset [] [] limit) = store reset [] []
                /\ discs (Game.stadium_game (started reset [] [] limit)) <> []).
  { unfold started.
    destruct (Game.start (fresh reset [] [] limit)) as [g|e] eqn:Hs; [|done].
    unfold Game.start in Hs. apply bind_Ok in Hs as (g1 & Hr & Hs).
    apply reset_discs_positions_inv in Hr as (_ & _ & _ & _ & _ & Heq).
    rewrite Heq in Hs. simpl in Hs. by injection Hs as <-. }
  destruct Hst as [Hstore Hdiscs].
  split; [by right|]. rewrite Hstore. split; [by right|].
  intros [] Ht; [done | by left | by left].
Qed.


Lemma roster_distinct_discs :
  NoDup (map disc (Game.players (started "partial" [] [] 1))).
Proof. apply (bool_decide_unpack _). by vm_compute. Qed.

Lemma fallback_spawn_by_team_number_witness :
  exists g', Game.reset_discs_positions (started "partial" [] [] 1) = Ok g'
    /\ position (Game.deref (Game.heap g') 4%nat)
       = Some (Qopp (q 170), inject_Z (-55)).
Proof.
  destruct (fallback_spawn_by_team_number (started "partial" [] [] 1) 2%nat
              (player "P2" 2 TeamID.RED 4%nat)
              (can_reset_started "partial" 1) roster_distinct_discs eq_refl)
    as (g' & Hrun & Hred & _).
  { vm_compute. lia. }
  exists g'. split; [exact Hrun|]. exact (Hred eq_refl eq_refl).
Defined.

Lemma test_codec_round_trip : codec_round_trip.
Proof. intros v b [= ->]. reflexivity. Qed.

Lemma recording_round_trip_witness :
  exists r' fs' loaded,
    Recorder.stop true 1700000000 view recorded ∅ = Ok (r', fs')
    /\ Recorder.read_from_file (Recorder.save_path r' (filename r'))
         (recorder_init "") fs' = Ok loaded
    /\ player_action loaded = player_action recorded.
Proof.
  destruct (recording_round_trip view "recs" three_ticks recorded
              (recorder_init "") 1700000000 view ∅ test_codec_round_trip)
    as (Hback & name & Hname & Hreturns).
  { vm_compute. reflexivity. }
  destruct (Hreturns (recording_value recorded)) as [[r' fs'] Hstop].
  { vm_compute in Hname. injection Hname as <-. vm_compute. reflexivity. }
  { reflexivity. }
  { reflexivity. }
  destruct (Hback r' fs' Hstop) as (loaded & Hread & _ & _ & Hactions).
  by exists r', fs', loaded.
Defined.

Lemma spawn_index_in_bounds_witness :
  team_spawn (Game.stadium_store (fresh "partial" [(q (-170), q 0)] [] 1))
    (Game.stadium_game (fresh "partial" [(q (-170), q 0)] [] 1))
    TeamID.RED 1
  = Err IndexError.
Proof.
  destruct (spawn_index_in_bounds (fresh "partial" [(q (-170), q 0)] [] 1)
              TeamID.RED) as (_ & _ & [_ Hpast] & _); [done | done |].
  exact Hpast.
Defined.

End concrete.

(** ** More of the recorder *)

Section recorder_more.
Context `{RecorderEnv}.

(** The code of a row of three components or more. *)
Lemma input_translate_js_cons3 (dx dy k : Z) (rest : list Z) :
  input_translate_js (dx :: dy :: k :: rest) =
    Ok ((if dx =? -1 then INPUT_LEFT else if dx =? 1 then INPUT_RIGHT else 0)
        + (if dy =? -1 then INPUT_DOWN else if dy =? 1 then INPUT_UP else 0)
        + (if k =? 0 then 0 else INPUT_SHOOT)).
Proof.
  unfold input_translate_js, py_getitem. simpl.
  repeat case_match; f_equal; lia.
Qed.

Lemma input_translate_js_ok (row : list Z) :
  is_Ok (input_translate_js row) <-> (3 <= length row)%nat.
Proof.
  destruct row as [|dx [|dy [|k rest]]]; simpl;
    try (split; [intros [? ?]; discriminate | lia]).
  rewrite input_translate_js_cons3. split; [lia | intros _; by eexists].
Qed.

(** X1.  [input_translate_js] returns a code exactly for the rows of three
    components or more; a shorter row raises [IndexError]; components
    beyond the third are not read. *)
Theorem input_translate_js_domain (row : list Z) :
  (is_Ok (input_translate_js row) <-> (3 <= length row)%nat)
  /\ ((length row < 3)%nat -> input_translate_js row = Err IndexError)
  /\ input_translate_js (take 3 row) = input_translate_js row.
Proof.
  destruct row as [|dx [|dy [|k rest]]]; simpl;
    try (split; [split; [intros [? ?]; discriminate | lia] | split; [done|done]]).
  rewrite take_0. rewrite !input_translate_js_cons3.
  split; [|split; [lia | done]].
  split; [lia | intros _; by eexists].
Qed.

(** X2.  The recorder reads a direction only from the values -1 and 1 and a
    kick from any value but 0: the code of a row is the code of the row
    with every other direction read as 0 and every kick read as 1.  A row
    that [normalize_action] stored unclamped, such as [5, -3, 2], is
    recorded as [0, 0, 1]. *)
Theorem input_translate_js_reads (dx dy k : Z) (rest : list Z) :
  input_translate_js (dx :: dy :: k :: rest)
  = input_translate_js [direction dx; direction dy; pressed k].
Proof.
  rewrite !input_translate_js_cons3. unfold direction, pressed.
  repeat case_match; try lia; reflexivity.
Qed.

Lemma pow2_disjoint (a b : Z) :
  0 <= a -> 0 <= b -> a <> b -> Z.land (2 ^ a) (2 ^ b) = 0.
Proof.
  intros Ha Hb Hne. apply Z.bits_inj'. intros n Hn.
  rewrite Z.land_spec, Z.bits_0, !Z.pow2_bits_eqb by done.
  destruct (Z.eqb_spec a n), (Z.eqb_spec b n); try done. lia.
Qed.

Lemma testbit_add_disjoint (x y n : Z) :
  Z.land x y = 0 -> Z.testbit (x + y) n = Z.testbit x n || Z.testbit y n.
Proof.
  intros Hd. rewrite <- Z.add_lor_land, Hd, Z.add_0_r. apply Z.lor_spec.
Qed.

Lemma land_add_disjoint (x y z : Z) :
  Z.land x y = 0 -> Z.land x z = 0 -> Z.land y z = 0 ->
  Z.land (x + y) z = 0.
Proof.
  intros Hxy Hxz Hyz. rewrite <- Z.add_lor_land, Hxy, Z.add_0_r.
  apply Z.bits_inj'. intros n Hn.
  rewrite Z.land_spec, Z.lor_spec, Z.bits_0.
  apply (f_equal (fun v => Z.testbit v n)) in Hxz, Hyz.
  rewrite Z.land_spec, Z.bits_0 in Hxz, Hyz.
  destruct (Z.testbit x n), (Z.testbit y n), (Z.testbit z n); done.
Qed.

(** The bits of a code, when the input bits are distinct powers of two. *)
Lemma input_translate_js_bits (dx dy k : Z) (up down left right shoot : Z) :
  0 <= up -> 0 <= down -> 0 <= left -> 0 <= right -> 0 <= shoot ->
  NoDup [up; down; left; right; shoot] ->
  INPUT_UP = 2 ^ up -> INPUT_DOWN = 2 ^ down -> INPUT_LEFT = 2 ^ left ->
  INPUT_RIGHT = 2 ^ right -> INPUT_SHOOT = 2 ^ shoot ->
  exists code, input_translate_js [dx; dy; k] = Ok code
    /\ Z.testbit code left = (dx =? -1)
    /\ Z.testbit code right = negb (dx =? -1) && (dx =? 1)
    /\ Z.testbit code down = (dy =? -1)
    /\ Z.testbit code up = negb (dy =? -1) && (dy =? 1)
    /\ Z.testbit code shoot = negb (k =? 0).
Proof.
  intros Hu Hd Hl Hr Hs Hnd Eu Ed El Er Es.
  rewrite input_translate_js_cons3, Eu, Ed, El, Er, Es.
  eexists. split; [reflexivity|].
  assert (Hne : up <> down /\ up <> left /\ up <> right /\ up <> shoot
                /\ down <> left /\ down <> right /\ down <> shoot
                /\ left <> right /\ left <> shoot /\ right <> shoot).
  { apply NoDup_cons in Hnd as [H1 Hnd]. apply NoDup_cons in Hnd as [H2 Hnd].
    apply NoDup_cons in Hnd as [H3 Hnd]. apply NoDup_cons in Hnd as [H4 _].
    repeat rewrite not_elem_of_cons in H1.
    repeat rewrite not_elem_of_cons in H2.
    repeat rewrite not_elem_of_cons in H3.
    repeat rewrite not_elem_of_cons in H4.
    destruct H1 as (? & ? & ? & ? & _). destruct H2 as (? & ? & ? & _).
    destruct H3 as (? & ? & _). destruct H4 as (? & _).
    repeat split; done. }
  destruct Hne as (? & ? & ? & ? & ? & ? & ? & ? & ? & ?).
  set (X := if dx =? -1 then 2 ^ left else if dx =? 1 then 2 ^ right else 0).
  set (Y := if dy =? -1 then 2 ^ down else if dy =? 1 then 2 ^ up else 0).
  set (Z0 := if k =? 0 then 0 else 2 ^ shoot).
  assert (Hxy : Z.land X Y = 0).
  { unfold X, Y. repeat case_match; rewrite ?Z.land_0_l, ?Z.land_0_r;
      try done; apply pow2_disjoint; done. }
  assert (Hxz : Z.land X Z0 = 0).
  { unfold X, Z0. repeat case_match; rewrite ?Z.land_0_l, ?Z.land_0_r;
      try done; apply pow2_disjoint; done. }
  assert (Hyz : Z.land Y Z0 = 0).
  { unfold Y, Z0. repeat case_match; rewrite ?Z.land_0_l, ?Z.land_0_r;
      try done; apply pow2_disjoint; done. }
  assert (Hbit : forall n, Z.testbit (X + Y + Z0) n
                   = Z.testbit X n || Z.testbit Y n || Z.testbit Z0 n).
  { intros n. rewrite testbit_add_disjoint by (by apply land_add_disjoint).
    by rewrite testbit_add_disjoint. }
  rewrite !Hbit. unfold X, Y, Z0.
  repeat split; repeat case_match;
    rewrite ?Z.bits_0, ?Z.pow2_bits_eqb by done;
    repeat match goal with
           | |- context [?a =? ?b] => destruct (Z.eqb_spec a b)
           end; simpl; try done; lia.
Qed.

(** X3.  When the input bits are distinct powers of two, the code keeps the
    whole of a clamped action: two rows with directions in [{-1,0,1}] and
    kick in [{0,1}] that are recorded as the same code are the same row. *)
Theorem input_translate_js_injective (a b : list Z) :
  input_bits ->
  clamped_action a -> clamped_action b ->
  input_translate_js a = input_translate_js b ->
  a = b.
Proof.
  intros (up & down & left & right & shoot & Hu & Hd & Hl & Hr & Hs & Hnd
          & Eu & Ed & El & Er & Es).
  intros (ax & ay & ak & -> & Hax & Hay & Hak)
         (bx & by0 & bk & -> & Hbx & Hby & Hbk) Heq.
  destruct (input_translate_js_bits ax ay ak up down left right shoot)
    as (ca & Hca & Al & Ar & Ad & Au & As); try done.
  destruct (input_translate_js_bits bx by0 bk up down left right shoot)
    as (cb & Hcb & Bl & Br & Bd & Bu & Bs); try done.
  rewrite Hca, Hcb in Heq. injection Heq as <-.
  rewrite Al in Bl. rewrite Ar in Br. rewrite Ad in Bd. rewrite Au in Bu.
  rewrite As in Bs.
  assert (ax = bx).
  { destruct (Z.eqb_spec ax (-1)), (Z.eqb_spec bx (-1)),
      (Z.eqb_spec ax 1), (Z.eqb_spec bx 1); simpl in *; try done; lia. }
  assert (ay = by0).
  { destruct (Z.eqb_spec ay (-1)), (Z.eqb_spec by0 (-1)),
      (Z.eqb_spec ay 1), (Z.eqb_spec by0 1); simpl in *; try done; lia. }
  assert (ak = bk).
  { destruct (Z.eqb_spec ak 0), (Z.eqb_spec bk 0); simpl in *; try done; lia. }
  congruence.
Qed.

Lemma append_action_inv (streams streams' : list PyVal) (i : nat)
    (row : list Z) :
  Recorder.append_action streams i row = Ok streams' ->
  exists codes code,
    streams !! i = Some (VList codes)
    /\ input_translate_js row = Ok code
    /\ streams' = <[i := VList (codes ++ [VInt code])]> streams.
Proof.
  unfold Recorder.append_action. rewrite py_getitem_nat. intros Hrun.
  destruct (streams !! i) as [stream|]; [|done]. simpl in Hrun.
  destruct stream as [| |codes]; try done.
  apply bind_Ok in Hrun as (code & Hcode & [= <-]). by exists codes, code.
Qed.

(** What the loop of [step] does to each stream. *)
Lemma step_from_lookup (actions : list (list Z)) (i : nat)
    (streams streams' : list PyVal) (j : nat) :
  Recorder.step_from i actions streams = Ok streams' ->
  ((j < i)%nat \/ (i + length actions <= j)%nat ->
   streams' !! j = streams !! j)
  /\ ((i <= j < i + length actions)%nat ->
      exists codes code,
        streams !! j = Some (VList codes)
        /\ tick_code (j - i) actions code
        /\ streams' !! j = Some (VList (codes ++ [VInt code]))).
Proof.
  revert i streams. induction actions as [|row rest IH]; intros i streams; simpl.
  - intros [= <-]. split; [done | lia].
  - intros Hrun. apply bind_Ok in Hrun as (s1 & Hrow & Hrest).
    apply append_action_inv in Hrow as (codes & code & Hi & Hcode & ->).
    destruct (IH _ _ Hrest) as [IHout IHin]. split.
    + intros Hout. rewrite IHout by lia.
      apply list_lookup_insert_ne. lia.
    + intros Hin. destruct (decide (j = i)) as [->|Hne].
      * exists codes, code. split; [done|]. split.
        -- exists row. by rewrite Nat.sub_diag.
        -- rewrite IHout by lia. apply list_lookup_insert_eq.
           by apply lookup_lt_Some in Hi.
      * destruct IHin as (codes' & code' & Hj & (row' & Hrow' & Hcode') & Hj');
          [lia|].
        rewrite list_lookup_insert_ne in Hj by done.
        exists codes', code'. split; [done|]. split; [|done].
        exists row'. split; [|done].
        replace (j - i)%nat with (Datatypes.S (j - Datatypes.S i)) by lia.
        done.
Qed.

Lemma step_row_lookup (actions : list (list Z)) (r r' : GameActionRecorder)
    (i : nat) :
  Recorder.step actions r = Ok r' ->
  (i < length actions)%nat ->
  exists codes code,
    player_action r !! i = Some (VList codes)
    /\ tick_code i actions code
    /\ player_action r' !! i = Some (VList (codes ++ [VInt code])).
Proof.
  intros Hrun Hlt. unfold Recorder.step in Hrun.
  apply bind_Ok in Hrun as (streams & Hs & [= <-]). simpl.
  destruct (step_from_lookup _ _ _ _ i Hs) as [_ Hin].
  destruct Hin as (codes & code & H1 & H2 & H3); [lia|].
  rewrite Nat.sub_0_r in H2. by exists codes, code.
Qed.

(** X4.  A tick that the recorder accepts appends exactly one code to the
    stream of each player that has a row, the code of that row, and leaves
    every other stream, the player infos and the options as they were. *)
Theorem recorder_step_appends
    (actions : list (list Z)) (r r' : GameActionRecorder) (i : nat) :
  Recorder.step actions r = Ok r' ->
  options r' = options r /\ player_info r' = player_info r
  /\ ((i < length actions)%nat ->
      exists codes code,
        player_action r !! i = Some (VList codes)
        /\ tick_code i actions code
        /\ player_action r' !! i = Some (VList (codes ++ [VInt code])))
  /\ ((length actions <= i)%nat ->
      player_action r' !! i = player_action r !! i).
Proof.
  intros Hrun. pose proof (step_frame _ _ _ Hrun) as (Ho & Hi & _ & _).
  unfold Recorder.step in Hrun.
  apply bind_Ok in Hrun as (streams & Hs & [= <-]). simpl in *.
  destruct (step_from_lookup _ _ _ _ i Hs) as [Hout Hin].
  repeat split; try done.
  - intros Hlt. destruct Hin as (codes & code & H1 & H2 & H3); [lia|].
    rewrite Nat.sub_0_r in H2. by exists codes, code.
  - intros Hge. apply Hout. lia.
Qed.

Lemma step_from_error (actions : list (list Z)) (i : nat)
    (streams : list PyVal) (e : PyError) :
  Forall is_stream streams ->
  Recorder.step_from i actions streams = Err e -> e = IndexError.
Proof.
  revert i streams. induction actions as [|row rest IH]; intros i streams Hall;
    simpl; [done|].
  destruct (Recorder.append_action streams i row) as [s1|e1] eqn:Hrow; simpl.
  - apply IH. by eapply append_action_streams.
  - intros [= <-]. unfold Recorder.append_action in Hrow.
    rewrite py_getitem_nat in Hrow.
    destruct (streams !! i) as [stream|] eqn:Hi; simpl in Hrow; [|congruence].
    assert (Hs : is_stream stream).
    { rewrite Forall_forall in Hall. apply Hall.
      apply list_elem_of_lookup. by exists i. }
    destruct stream as [| |codes]; try done.
    destruct (input_translate_js row) as [code|e'] eqn:Hjs; [done|].
    simpl in Hrow. injection Hrow as <-. by eapply input_translate_js_error.
Qed.

Lemma step_from_returns (actions : list (list Z)) (i : nat)
    (streams : list PyVal) :
  Forall is_stream streams ->
  (i + length actions <= length streams)%nat ->
  Forall (fun row => (3 <= length row)%nat) actions ->
  is_Ok (Recorder.step_from i actions streams).
Proof.
  revert i streams. induction actions as [|row rest IH];
    intros i streams Hall Hlen Hrows; simpl; [by eexists|].
  apply Forall_cons in Hrows as [Hrow Hrows]. simpl in Hlen.
  destruct (lookup_lt_is_Some_2 streams i) as [stream Hi]; [lia|].
  assert (Hs : is_stream stream).
  { rewrite Forall_forall in Hall. apply Hall.
    apply list_elem_of_lookup. by exists i. }
  destruct stream as [| |codes]; try done.
  destruct (input_translate_js_ok row) as [_ Hok].
  destruct (Hok Hrow) as [code Hcode].
  unfold Recorder.append_action. rewrite py_getitem_nat, Hi. simpl.
  rewrite Hcode. simpl. apply IH; [|rewrite length_insert; lia|done].
  apply Forall_insert; done.
Qed.

(** X5.  With every stream a list, the recorder accepts a tick exactly when
    it has no more rows than there are streams and every row has three
    components or more; the error it raises otherwise is [IndexError].  A
    tick with fewer rows than streams is accepted. *)
Theorem recorder_step_returns (actions : list (list Z)) (r : GameActionRecorder) :
  Forall is_stream (player_action r) ->
  (is_Ok (Recorder.step actions r) <->
     (length actions <= length (player_action r))%nat
     /\ Forall (fun row => (3 <= length row)%nat) actions)
  /\ (forall e, Recorder.step actions r = Err e -> e = IndexError).
Proof.
  intros Hall. split; [split|].
  - intros [r' Hrun]. split.
    + destruct (decide (length actions <= length (player_action r))%nat)
        as [|Hgt]; [done|].
      rewrite step_surplus in Hrun by (done || lia). done.
    + apply Forall_forall. intros row Hin.
      apply list_elem_of_lookup in Hin as [i Hi].
      destruct (step_row_lookup actions r r' i Hrun)
        as (_ & code & _ & (row' & Hrow' & Hcode) & _).
      { by apply lookup_lt_Some in Hi. }
      rewrite Hi in Hrow'. injection Hrow' as <-.
      apply input_translate_js_ok. by exists code.
  - intros [Hlen Hrows]. unfold Recorder.step.
    destruct (step_from_returns actions 0 (player_action r)) as [s Hs];
      try done. rewrite Hs. by eexists.
  - intros e. unfold Recorder.step.
    destruct (Recorder.step_from 0 actions (player_action r)) as [s|e'] eqn:Hs;
      [done|].
    simpl. intros [= <-]. by eapply step_from_error.
Qed.

(** The streams of a session, one tick after the other. *)
Lemma record_ticks_stream (ticks : list (list (list Z)))
    (r0 r : GameActionRecorder) (i : nat) (codes0 : list PyVal) :
  record_ticks ticks r0 = Ok r ->
  Forall (fun actions => (i < length actions)%nat) ticks ->
  player_action r0 !! i = Some (VList codes0) ->
  exists codes,
    player_action r !! i = Some (VList (codes0 ++ map VInt codes))
    /\ Forall2 (tick_code i) ticks codes.
Proof.
  revert r0 codes0. induction ticks as [|actions rest IH]; intros r0 codes0; simpl.
  - intros [= <-] _ Hi. exists []. simpl. rewrite app_nil_r. by split.
  - intros Hrun Hall Hi. apply Forall_cons in Hall as [Hlt Hall].
    apply bind_Ok in Hrun as (r1 & Hstep & Hrest).
    destruct (step_row_lookup actions r0 r1 i Hstep Hlt)
      as (codes1 & code & H1 & Hcode & H2).
    rewrite Hi in H1. injection H1 as <-.
    destruct (IH r1 _ Hrest Hall H2) as (codes & Hr & Hcodes).
    exists (code :: codes). split; [|by constructor].
    simpl. by rewrite <- app_assoc in Hr.
Qed.

(** X6.  The streams are indexed by tick: after a session in which every
    tick had a row for player [i], the stream of player [i] holds one code
    per tick, in order, each the code of the player's row in that tick. *)
Theorem record_ticks_tick_indexed
    (game : Recorder.GameView) (folder : string)
    (ticks : list (list (list Z))) (r : GameActionRecorder) (i : nat) :
  record_ticks ticks (Recorder.start game (recorder_init folder)) = Ok r ->
  Forall (fun actions => (i < length actions)%nat) ticks ->
  (i < length (Recorder.view_players game))%nat ->
  exists codes,
    player_action r !! i = Some (VList (map VInt codes))
    /\ length codes = length ticks
    /\ Forall2 (tick_code i) ticks codes.
Proof.
  intros Hrun Hall Hi.
  destruct (record_ticks_stream ticks _ r i [] Hrun Hall) as (codes & Hr & Hc).
  { simpl. rewrite list_lookup_fmap.
    destruct (lookup_lt_is_Some_2 (Recorder.view_players game) i Hi) as [p ->].
    done. }
  exists codes. split; [done|]. split; [|done].
  symmetry. by eapply Forall2_length.
Qed.

(** X7.  [stop] clears the recorder and keeps its folder.  It writes at most
    the file it names: without [save], or when the recorder was never
    started, no file is touched; with [save] every other path keeps its
    contents.  Stopping a stopped recorder changes nothing. *)
Theorem recorder_stop_effects
    (save_flag : bool) (now : Z) (game : Recorder.GameView)
    (r r' : GameActionRecorder) (fs fs' : FileSystem) :
  Recorder.stop save_flag now game r fs = Ok (r', fs') ->
  r' = mkRecorder (folder_rec r) (filename r') (VList []) [] [] []
  /\ (save_flag = false \/ options r = [] -> fs' = fs)
  /\ (options r = [] -> filename r' = filename r)
  /\ (forall path, path <> Recorder.save_path r (filename r') ->
        fs' !! path = fs !! path)
  /\ (forall save_flag' now' game',
        Recorder.stop save_flag' now' game' r' fs' = Ok (r', fs')).
Proof.
  intros Hrun.
  apply recorder_stop_inv in Hrun
    as [(Hnil & -> & ->)|(o & opts & name & Hopt & _ & -> & Hfs)]; simpl.
  - repeat split; done.
  - split; [done|]. split.
    { intros [->|Hn]; [done | congruence]. }
    split; [congruence|]. split; [|done].
    intros path Hne. destruct save_flag; [|by subst].
    destruct Hfs as (b & _ & _ & _ & ->). by rewrite lookup_insert_ne.
Qed.

End recorder_more.

(** ** More of the game: the state machine and the tick *)

Section game_more.
Context {F S : Type} `{Scalar F} `{CollisionFlag.values} `{RecorderEnv}
  `{!GameEnv F S}.

Local Abbreviation game := (@Game.t F S).

Lemma mask_players_length (mask : Z) (ps : list PlayerHandler)
    (h : list (Disc F)) :
  length (Game.mask_players mask ps h) = length h.
Proof.
  revert h. induction ps as [|p ps IH]; intros h; [done|].
  unfold Game.mask_players in *. simpl. rewrite IH.
  destruct (position _); [apply length_alter | done].
Qed.

Lemma same_but_mask_refl (d : Disc F) : same_but_mask d d.
Proof. done. Qed.

Lemma reset_discs_positions_frame (g g' : game) :
  Game.reset_discs_positions g = Ok g' ->
  g' = Game.set_heap (Game.heap g') g
  /\ length (Game.heap g') = length (Game.heap g).
Proof.
  intros Hrun.
  apply reset_discs_positions_inv in Hrun as (dg & ds & _ & _ & Hps & Heq).
  split; [done|].
  pose proof (reset_players_spec (Game.stadium_store g) (Game.stadium_game g)
    (Game.players g) 0 0 (Game.restore_discs dg ds (Game.heap g))) as Hspec.
  rewrite Hps in Hspec. destruct Hspec as (-> & _).
  apply restore_discs_length.
Qed.

(** Everything a tick of the state machine can do to the game. *)
Lemma handle_game_state_inv (prev : list (Disc F)) (g g' : game) (fin : bool) :
  Game.handle_game_state prev g = Ok (fin, g') ->
  (Game.players g' = Game.players g
   /\ Game.stadium_store g' = Game.stadium_store g
   /\ Game.stadium_game g' = Game.stadium_game g
   /\ Game.recorder g' = Game.recorder g
   /\ length (Game.heap g') = length (Game.heap g))
  /\ transition (Game.state g) (Game.state g')
  /\ (fin = true ->
      Game.state g = GameState.END /\ Game.state g' = GameState.END)
  /\ (Game.team_kickoff g' <> Game.team_kickoff g ->
      Game.state g = GameState.PLAYING /\ Game.state g' = GameState.GOAL)
  /\ (~ (Game.state g = GameState.GOAL /\ Game.state g' = GameState.KICKOFF) ->
      forall r, same_but_mask (Game.deref (Game.heap g') r)
                  (Game.deref (Game.heap g) r)).
Proof.
  unfold Game.handle_game_state.
  destruct g as [st ps tk store live sc h rec]. simpl. destruct st; simpl.
  - unfold Game._handle_kickoff_state. simpl. intros Hk.
    apply bind_Ok in Hk as (g1 & Hk & [= <- <-]).
    apply bind_Ok in Hk as (b & _ & Hk).
    destruct (norm_gt0 _ _); injection Hk as <-; simpl;
      repeat split; try done; try apply mask_players_length;
      intros _ r; apply mask_players_spec.
  - unfold Game._handle_playing_state. simpl. intros Hp.
    apply bind_Ok in Hp as (g1 & Hp & [= <- <-]).
    apply bind_Ok in Hp as (tg & _ & Hp).
    repeat case_match; injection Hp as <-; simpl;
      repeat split; try done; try apply mask_players_length;
      intros _ r; apply mask_players_spec.
  - unfold Game._handle_goal_state. simpl. intros Hg.
    apply bind_Ok in Hg as (g1 & Hg & [= <- <-]).
    destruct (negb (is_animation _));
      [destruct (is_game_over _)|];
      try (injection Hg as <-; simpl; by repeat split).
    apply bind_Ok in Hg as (g2 & Hg & [= <-]).
    apply reset_discs_positions_frame in Hg as [-> Hlen]. simpl in *.
    repeat split; try done. intros Hn. by destruct Hn.
  - unfold Game._handle_end_state. simpl. intros [= <- <-]. simpl.
    by repeat split.
Qed.

(** X8.  The state machine has no other edges than KICKOFF to PLAYING,
    PLAYING to GOAL or END, GOAL to END or KICKOFF, and staying; END is
    never left.  A tick reports [done] only in the END state, and
    [team_kickoff] changes only on the tick that goes from PLAYING to
    GOAL. *)
Theorem handle_game_state_transitions
    (prev : list (Disc F)) (g g' : game) (fin : bool) :
  Game.handle_game_state prev g = Ok (fin, g') ->
  transition (Game.state g) (Game.state g')
  /\ (Game.state g = GameState.END -> Game.state g' = GameState.END)
  /\ (fin = true ->
      Game.state g = GameState.END /\ Game.state g' = GameState.END)
  /\ (Game.team_kickoff g' <> Game.team_kickoff g ->
      Game.state g = GameState.PLAYING /\ Game.state g' = GameState.GOAL).
Proof.
  intros Hrun.
  apply handle_game_state_inv in Hrun as (_ & Htr & Hfin & Htk & _).
  repeat split; try done; try (by apply Hfin); try (by apply Htk).
  intros Hend. rewrite Hend in Htr. by destruct (Game.state g').
Qed.

(** X9.  A tick of the state machine creates and destroys no disc and
    leaves the roster, the template, the live stadium's lists and the
    recorder as they are.  Unless it is the tick that goes from GOAL back
    to KICKOFF, it moves no disc either: every disc keeps all its fields
    but the collision mask. *)
Theorem handle_game_state_frame
    (prev : list (Disc F)) (g g' : game) (fin : bool) :
  Game.handle_game_state prev g = Ok (fin, g') ->
  Game.players g' = Game.players g
  /\ Game.stadium_store g' = Game.stadium_store g
  /\ Game.stadium_game g' = Game.stadium_game g
  /\ Game.recorder g' = Game.recorder g
  /\ length (Game.heap g') = length (Game.heap g)
  /\ (~ (Game.state g = GameState.GOAL /\ Game.state g' = GameState.KICKOFF) ->
      forall r,
        position (Game.deref (Game.heap g') r)
          = position (Game.deref (Game.heap g) r)
        /\ velocity (Game.deref (Game.heap g') r)
             = velocity (Game.deref (Game.heap g) r)
        /\ collision_group (Game.deref (Game.heap g') r)
             = collision_group (Game.deref (Game.heap g) r)
        /\ same_but_mask (Game.deref (Game.heap g') r)
             (Game.deref (Game.heap g) r)).
Proof.
  intros Hrun.
  apply handle_game_state_inv in Hrun
    as ((Hps & Hst & Hlv & Hrec & Hlen) & _ & _ & _ & Hsame).
  do 5 (split; [done|]). intros Hn r. specialize (Hsame Hn r).
  pose proof (same_but_mask_fields _ _ Hsame) as (Hp & Hv & Hg). done.
Qed.

(** What the loop over the rows does to the roster and to the game. *)
Lemma apply_actions_inv (rows : list (list Z)) (ps : list PlayerHandler)
    (g : game) :
  map identity (Game.apply_actions rows ps g).1 = map identity ps
  /\ (forall i row p', rows !! i = Some row ->
        (Game.apply_actions rows ps g).1 !! i = Some p' -> action p' = row)
  /\ (forall i, (length rows <= i)%nat ->
        (Game.apply_actions rows ps g).1 !! i = ps !! i)
  /\ Game.set_heap (Game.heap g) (Game.apply_actions rows ps g).2 = g.
Proof.
  assert (Hbase : forall (rows : list (list Z)) (ps : list PlayerHandler)
             (g : game), rows = [] \/ ps = [] ->
    map identity ps = map identity ps
    /\ (forall i row p', rows !! i = Some row -> ps !! i = Some p' ->
          action p' = row)
    /\ (forall i, (length rows <= i)%nat -> ps !! i = ps !! i)
    /\ Game.set_heap (Game.heap g) g = g).
  { clear. intros rows ps g Hnil. split; [done|].
    split; [|split; [done | by destruct g]].
    intros i row p' Hr Hp. destruct Hnil as [-> | ->];
      [by rewrite lookup_nil in Hr | by rewrite lookup_nil in Hp]. }
  revert ps g. induction rows as [|row rows IH]; intros ps g.
  - apply (Hbase [] ps g). by left.
  - destruct ps as [|p ps]; [apply (Hbase (row :: rows) [] g); by right|].
    simpl. unfold Game.make_player_action.
    destruct (resolve_movement _ _ _ _) as [[k c] h].
    specialize (IH ps (Game.set_heap h g)).
    destruct (Game.apply_actions rows ps (Game.set_heap h g)) as [ps' g1].
    simpl in *. destruct IH as (Hid & Hact & Hrest & Hg).
    repeat split.
    + by rewrite Hid.
    + intros [|i] row' p'; simpl.
      * by intros [= <-] [= <-].
      * apply Hact.
    + intros [|i] Hlen; [lia|]. simpl. apply Hrest. lia.
    + destruct g1, g. unfold Game.set_heap in *. simpl in *.
      injection Hg. intros. by subst.
Qed.

(** The rows a tick works on. *)
Lemma step_rows (actions : ActionsType) (g g' : game) (fin : bool) :
  Game.step actions g = Ok (fin, g') ->
  exists rows,
    match actions with
    | ActionsSeq seq => rows = map normalize_action seq
    | ActionsArray rows' => rows = rows'
    end
    /\ Game.step (ActionsArray rows) g = Ok (fin, g').
Proof.
  destruct actions as [seq|rows]; [|by exists rows].
  intros Hrun. exists (map normalize_action seq). split; [done|].
  unfold Game.step in *.
  destruct (np_array (map normalize_action seq)) as [rows|e] eqn:Hnp; [|done].
  assert (rows = map normalize_action seq) as <-; [|done].
  unfold np_array in Hnp. repeat case_match; congruence.
Qed.

Lemma step_array_inv (rows : list (list Z)) (g g' : game) (fin : bool) :
  Game.step (ActionsArray rows) g = Ok (fin, g') ->
  exists g1 g2 prev,
    Game.handle_game_state prev g1 = Ok (fin, g2)
    /\ (Game.players g1 = (Game.apply_actions rows (Game.players g) g).1
        /\ Game.state g1 = Game.state g
        /\ Game.team_kickoff g1 = Game.team_kickoff g
        /\ Game.stadium_store g1 = Game.stadium_store g
        /\ Game.stadium_game g1 = Game.stadium_game g
        /\ Game.score g1 = Game.score g)
    /\ (Game.players g' = Game.players g2
        /\ Game.state g' = Game.state g2
        /\ Game.team_kickoff g' = Game.team_kickoff g2
        /\ Game.stadium_store g' = Game.stadium_store g2
        /\ Game.stadium_game g' = Game.stadium_game g2
        /\ Game.score g' = Game.score g2
        /\ Game.heap g' = Game.heap g2).
Proof.
  unfold Game.step. simpl.
  pose proof (apply_actions_inv rows (Game.players g) g) as (_ & _ & _ & Hg).
  destruct (Game.apply_actions rows (Game.players g) g) as [ps g1]. simpl in *.
  intros Hrun. apply bind_Ok in Hrun as ([fin' g2] & Hh & Hrun).
  assert (Hg' : fin' = fin /\ exists rec, g' = Game.set_recorder rec g2).
  { destruct (Game.recorder g2) as [r|] eqn:Hr.
    - apply bind_Ok in Hrun as (g3 & Hr3 & [= <- <-]).
      apply bind_Ok in Hr3 as (r' & _ & [= <-]). split; [done|]. by eexists.
    - simpl in Hrun. injection Hrun as <- <-. split; [done|].
      exists None. destruct g2. simpl in *. by rewrite Hr. }
  destruct Hg' as (-> & rec & ->).
  eexists _, g2, _. split; [exact Hh|]. split; [|done].
  rewrite <- Hg. by destruct g1.
Qed.

(** X10.  A tick never changes who is in the roster: the names, ids, teams
    and disc references of the players, in order, are the same after
    [step], and so are the template and the lists of the live stadium.
    The state moves along an edge of the state machine, and [step] returns
    [True] only in the END state. *)
Theorem step_keeps_roster (actions : ActionsType) (g g' : game) (fin : bool) :
  Game.step actions g = Ok (fin, g') ->
  map identity (Game.players g') = map identity (Game.players g)
  /\ Game.stadium_store g' = Game.stadium_store g
  /\ Game.stadium_game g' = Game.stadium_game g
  /\ transition (Game.state g) (Game.state g')
  /\ (fin = true -> Game.state g = GameState.END).
Proof.
  intros Hrun. apply step_rows in Hrun as (rows & _ & Hrun).
  apply step_array_inv in Hrun
    as (g1 & g2 & prev & Hh & (Hps & Hst & _ & Hstore & Hlive & _)
        & (Hps2 & Hst2 & _ & Hstore2 & Hlive2 & _)).
  apply handle_game_state_inv in Hh
    as ((Hps' & Hstore' & Hlive' & _) & Htr & Hfin & _).
  rewrite Hps2, Hst2, Hstore2, Hlive2, Hps', Hstore', Hlive', Hps, Hstore, Hlive.
  rewrite <- Hst.
  repeat split; try done.
  - apply apply_actions_inv.
  - intros Hf. by apply Hfin.
Qed.

(** X11.  After a tick, each player that had a row holds that row as its
    action, normalized when the rows came as a list (a [None] row is
    [0, 0, 0]); a player beyond the last row is exactly as it was. *)
Theorem step_stores_rows
    (actions : ActionsType) (g g' : game) (fin : bool) (i : nat)
    (p' : PlayerHandler) :
  Game.step actions g = Ok (fin, g') ->
  Game.players g' !! i = Some p' ->
  match actions with
  | ActionsSeq seq =>
      (forall a, seq !! i = Some a -> action p' = normalize_action a)
      /\ (seq !! i = None -> Game.players g !! i = Some p')
  | ActionsArray rows =>
      (forall row, rows !! i = Some row -> action p' = row)
      /\ (rows !! i = None -> Game.players g !! i = Some p')
  end.
Proof.
  intros Hrun Hp'.
  assert (Hgen : exists rows,
    match actions with
    | ActionsSeq seq => rows = map normalize_action seq
    | ActionsArray rows' => rows = rows'
    end
    /\ (forall row, rows !! i = Some row -> action p' = row)
    /\ (rows !! i = None -> Game.players g !! i = Some p')).
  { apply step_rows in Hrun as (rows & Hrows & Hrun). exists rows.
    split; [done|].
    apply step_array_inv in Hrun
      as (g1 & g2 & prev & Hh & (Hps & _) & (Hps2 & _)).
    apply handle_game_state_inv in Hh as ((Hps' & _) & _).
    rewrite Hps2, Hps' in Hp'.
    pose proof (apply_actions_inv rows (Game.players g) g)
      as (_ & Hact & Hrest & _).
    rewrite Hps in Hp'. split.
    - intros row Hrow. by eapply Hact.
    - intros Hnone. rewrite <- Hrest; [done|]. by apply lookup_ge_None. }
  destruct Hgen as (rows & Hrows & Hact & Hrest).
  destruct actions as [seq|rows']; subst rows.
  - split.
    + intros a Ha. apply Hact. by rewrite list_lookup_fmap, Ha.
    + intros Hnone. apply Hrest. by rewrite list_lookup_fmap, Hnone.
  - done.
Qed.

(** X12.  Rows given as a list must have one length after normalization:
    when two of them differ in length, [step] raises [ValueError] and no
    tick takes place.  A [None] row counts as a row of three. *)
Theorem step_ragged_rows (seq : list ActionType) (g : game) (i j : nat)
    (a b : ActionType) :
  seq !! i = Some a -> seq !! j = Some b ->
  length (normalize_action a) <> length (normalize_action b) ->
  Game.step (ActionsSeq seq) g = Err ValueError
  /\ normalize_action ActNone = [0; 0; 0].
Proof.
  intros Ha Hb Hne. split; [|done]. unfold Game.step.
  assert (Hnp : np_array (map normalize_action seq) = Err ValueError); [|by rewrite Hnp].
  unfold np_array.
  destruct (map normalize_action seq) as [|first rest] eqn:Hrows.
  { apply (f_equal (fun l => l !! i)) in Hrows.
    by rewrite list_lookup_fmap, Ha in Hrows. }
  destruct (forallb _ rest) eqn:Hall; [|done]. exfalso.
  assert (Hlen : forall k row, (first :: rest) !! k = Some row ->
                   length row = length first).
  { intros [|k] row; simpl; [by intros [= <-]|]. intros Hk.
    rewrite forallb_forall in Hall.
    apply Nat.eqb_eq, Hall, list_elem_of_In, list_elem_of_lookup. by exists k. }
  rewrite <- Hrows in Hlen. apply Hne.
  rewrite (Hlen i (normalize_action a)), (Hlen j (normalize_action b));
    by rewrite ?list_lookup_fmap, ?Ha, ?Hb.
Qed.

End game_more.

(** ** More of the game: the roster, [start], [stop] and [reset] *)

Section lifecycle.
Context {F S : Type} `{Scalar F} `{CollisionFlag.values} `{RecorderEnv}
  `{!GameEnv F S} `{!ScoreStop S}.

Local Abbreviation game := (@Game.t F S).

Lemma find_player_spec (ps : list PlayerHandler) (i : Z) :
  match GameOps.find_player ps i with
  | Some p =>
      exists k, ps !! k = Some p /\ id p = i
        /\ forall j q, (j < k)%nat -> ps !! j = Some q -> id q <> i
  | None => forall p, p ∈ ps -> id p <> i
  end.
Proof.
  induction ps as [|p0 ps IH]; simpl.
  - intros p Hin. by apply elem_of_nil in Hin.
  - destruct (Z.eqb_spec (id p0) i) as [Heq|Hne].
    + exists 0%nat. repeat split; try done. intros j q Hlt. lia.
    + destruct (GameOps.find_player ps i) as [p|].
      * destruct IH as (k & Hk & Hid & Hfirst).
        exists (Datatypes.S k). repeat split; try done.
        intros [|j] q Hlt Hq; simpl in Hq; [by injection Hq as <-|].
        apply (Hfirst j); [lia | done].
      * intros p [->|Hin]%elem_of_cons; [done | by apply IH].
Qed.

Lemma find_player_app (ps qs : list PlayerHandler) (i : Z) :
  GameOps.find_player (ps ++ qs) i =
    match GameOps.find_player ps i with
    | Some p => Some p
    | None => GameOps.find_player qs i
    end.
Proof.
  induction ps as [|p0 ps IH]; simpl; [done|].
  by destruct (id p0 =? i).
Qed.

Lemma add_players_players (new : list PlayerHandler) (g : game) :
  Game.players (GameOps.add_players new g) = Game.players g ++ new.
Proof.
  revert g. induction new as [|p new IH]; intros g.
  - simpl. by rewrite app_nil_r.
  - unfold GameOps.add_players in *. simpl. rewrite IH. simpl.
    by rewrite <- app_assoc.
Qed.

(** X13.  [get_player_by_id] returns the first player of the roster with
    the id, and [None] exactly when no player has it.  Players added with
    [add_players] are found by their id unless an earlier player already
    has that id, which then keeps answering for it. *)
Theorem get_player_by_id_first (i : Z) (g : game) (new : list PlayerHandler) :
  (GameOps.get_player_by_id i g = None <->
     forall p, p ∈ Game.players g -> id p <> i)
  /\ (forall p, GameOps.get_player_by_id i g = Some p ->
        exists k, Game.players g !! k = Some p /\ id p = i
          /\ forall j q, (j < k)%nat -> Game.players g !! j = Some q ->
               id q <> i)
  /\ GameOps.get_player_by_id i (GameOps.add_players new g) =
       match GameOps.get_player_by_id i g with
       | Some p => Some p
       | None => GameOps.get_player_by_id i (Game.set_players new g)
       end.
Proof.
  unfold GameOps.get_player_by_id.
  pose proof (find_player_spec (Game.players g) i) as Hspec.
  split; [|split].
  - destruct (GameOps.find_player (Game.players g) i) as [p|].
    + destruct Hspec as (k & Hk & Hid & _). split; [done|].
      intros Hnone. destruct (Hnone p); [|done].
      apply list_elem_of_lookup. by exists k.
    + done.
  - intros p Hp. by rewrite Hp in Hspec.
  - by rewrite add_players_players, find_player_app.
Qed.

Lemma start_inv (g g' : game) :
  Game.start g = Ok g' ->
  exists h rec,
    g' = Game.mk (Game.state g) (Game.players g) (Game.team_kickoff g)
           (Game.stadium_store g)
           (mkStadium (discs (Game.stadium_game g) ++ map disc (Game.players g))
              (goals (Game.stadium_game g))
              (red_spawn_points (Game.stadium_game g))
              (blue_spawn_points (Game.stadium_game g))
              (player_physics (Game.stadium_game g))
              (spawn_distance (Game.stadium_game g))
              (kickoff_reset (Game.stadium_game g)))
           (Game.score g) h rec
    /\ length h = length (Game.heap g)
    /\ (is_Some rec <-> is_Some (Game.recorder g)).
Proof.
  unfold Game.start. intros Hrun. apply bind_Ok in Hrun as (g1 & Hr & Hrun).
  apply reset_discs_positions_frame in Hr as [Heq Hlen]. simpl in Hlen.
  rewrite Heq in Hrun. simpl in Hrun.
  destruct (Game.recorder g) as [r|] eqn:Hrec; injection Hrun as <-;
    eexists _, _; (split; [reflexivity|]); (split; [done|]);
    split; intros [? Hx]; simpl in *; rewrite ?Hrec in *;
    first [done | by eexists].
Qed.

(** X14.  [start] puts the discs of the players, in roster order, behind
    the discs the live stadium had, and changes nothing else but the heap
    and the recorder; no disc is created.  Started a second time without a
    [stop] in between, it puts them there again, so that the list holds
    every player disc twice. *)
Theorem start_appends_player_discs (g g' : game) :
  Game.start g = Ok g' ->
  discs (Game.stadium_game g')
    = discs (Game.stadium_game g) ++ map disc (Game.players g)
  /\ Game.players g' = Game.players g
  /\ Game.state g' = Game.state g
  /\ Game.team_kickoff g' = Game.team_kickoff g
  /\ Game.stadium_store g' = Game.stadium_store g
  /\ length (Game.heap g') = length (Game.heap g)
  /\ (forall g'', Game.start g' = Ok g'' ->
        discs (Game.stadium_game g'')
          = (discs (Game.stadium_game g) ++ map disc (Game.players g))
            ++ map disc (Game.players g)
        /\ (Game.players g <> [] -> ~ NoDup (discs (Game.stadium_game g'')))).
Proof.
  intros Hrun. apply start_inv in Hrun as (h & rec & -> & Hlen & _). simpl.
  do 6 (split; [done|]). intros g'' Hrun2.
  apply start_inv in Hrun2 as (h2 & rec2 & -> & _). simpl.
  split; [done|]. intros Hne Hnd.
  - destruct (Game.players g) as [|p ps]; [done|].
    apply NoDup_app in Hnd as (_ & Hdisj & _).
    apply (Hdisj (disc p)); [|by left].
    apply elem_of_app. right. by left.
Qed.

Lemma deref_fresh_copies (h ds : list (Disc F)) :
  map (Game.deref (h ++ ds)) (seq (length h) (length ds)) = ds.
Proof.
  apply list_eq. intros i. rewrite list_lookup_fmap.
  destruct (decide (i < length ds)%nat) as [Hlt|Hge].
  - rewrite lookup_seq_lt by done. simpl. unfold Game.deref.
    rewrite lookup_total_app_r by lia.
    replace (length h + i - length h)%nat with i by lia.
    destruct (lookup_lt_is_Some_2 ds i Hlt) as [d Hd].
    rewrite Hd. f_equal. by apply list_lookup_total_correct.
  - rewrite lookup_seq_ge by lia. simpl. symmetry.
    apply lookup_ge_None. lia.
Qed.

Lemma stop_inv (save_recording : bool) (now : Z) (g g' : game)
    (fs fs' : FileSystem) :
  GameOps.stop save_recording now g fs = Ok (g', fs') ->
  exists rec,
    g' = Game.mk GameState.KICKOFF (Game.players g) TeamID.RED
           (Game.stadium_store g)
           (GameOps.deepcopy_stadium (Game.stadium_store g) (Game.heap g)).1
           (score_stop (Game.score g))
           (Game.heap g ++ discs (Game.stadium_store g)) rec
    /\ (forall r, rec = Some r -> exists folder, r = recorder_init folder)
    /\ (is_Some rec <-> is_Some (Game.recorder g)).
Proof.
  unfold GameOps.stop. intros Hrun.
  apply bind_Ok in Hrun as ([rec fs1] & Hrec & Hrun). simpl in Hrun.
  destruct rec as [r|]; simpl in Hrun; injection Hrun as <- <-;
    eexists; (split; [reflexivity|]).
  - split; [intros r0 [= <-]; by eexists|].
    destruct (Game.recorder g); [split; by eexists|done].
  - split; [done|]. destruct (Game.recorder g) as [r|]; [|done].
    apply bind_Ok in Hrec as ([r1 fs2] & _ & [=]).
Qed.

(** X15.  [stop] brings the game back to KICKOFF with red to kick off and
    makes the live stadium a copy of the template: its discs are new
    objects, pairwise distinct, equal to the template's discs, and none of
    the objects that existed before, the discs of the players among them,
    is in the list or changed.  The roster is kept, and a recorder is
    replaced by an empty one. *)
Theorem stop_restores_template (save_recording : bool) (now : Z) (g g' : game)
    (fs fs' : FileSystem) :
  GameOps.stop save_recording now g fs = Ok (g', fs') ->
  Game.state g' = GameState.KICKOFF
  /\ Game.team_kickoff g' = TeamID.RED
  /\ Game.players g' = Game.players g
  /\ Game.stadium_store g' = Game.stadium_store g
  /\ map (Game.deref (Game.heap g')) (discs (Game.stadium_game g'))
       = discs (Game.stadium_store g)
  /\ NoDup (discs (Game.stadium_game g'))
  /\ (forall r, (r < length (Game.heap g))%nat ->
        Game.deref (Game.heap g') r = Game.deref (Game.heap g) r
        /\ r ∉ discs (Game.stadium_game g'))
  /\ (forall r, Game.recorder g' = Some r ->
        options r = [] /\ player_info r = [] /\ player_action r = []).
Proof.
  intros Hrun. apply stop_inv in Hrun as (rec & -> & Hrec & _). simpl.
  do 4 (split; [done|]). split; [apply deref_fresh_copies|].
  split; [apply NoDup_seq|]. split.
  - intros r Hlt. split.
    + unfold Game.deref. by rewrite lookup_total_app_l.
    + intros Hin%elem_of_seq. lia.
  - intros r Hr. by destruct (Hrec r Hr) as [folder ->].
Qed.

(** X16.  After [reset] the live stadium holds one new disc per disc of the
    template followed by the discs of the players: their number is the
    number of template discs plus the number of players, however often the
    game was started before, and they are pairwise distinct when the
    players' discs are. *)
Theorem reset_disc_count (save_recording : bool) (now : Z) (g g' : game)
    (fs fs' : FileSystem) :
  GameOps.reset save_recording now g fs = Ok (g', fs') ->
  discs (Game.stadium_game g')
    = seq (length (Game.heap g)) (length (discs (Game.stadium_store g)))
      ++ map disc (Game.players g)
  /\ length (discs (Game.stadium_game g'))
     = (length (discs (Game.stadium_store g)) + length (Game.players g))%nat
  /\ Game.state g' = GameState.KICKOFF
  /\ Game.team_kickoff g' = TeamID.RED
  /\ (NoDup (map disc (Game.players g)) ->
      Forall (fun p => (disc p < length (Game.heap g))%nat) (Game.players g) ->
      NoDup (discs (Game.stadium_game g'))).
Proof.
  unfold GameOps.reset. intros Hrun.
  apply bind_Ok in Hrun as ([g1 fs1] & Hstop & Hrun).
  apply bind_Ok in Hrun as (g2 & Hstart & [= <- <-]).
  apply stop_inv in Hstop as (rec & -> & _).
  apply start_inv in Hstart as (h & rec2 & -> & _). simpl.
  repeat split; try done.
  - by rewrite length_app, length_seq, length_map.
  - intros Hnd Hvalid. apply NoDup_app. repeat split; [apply NoDup_seq| |done].
    intros r Hr%elem_of_seq Hin. apply list_elem_of_fmap in Hin as (p & -> & Hp).
    rewrite Forall_forall in Hvalid. specialize (Hvalid p Hp). lia.
Qed.

End lifecycle.

(** ** More of [reset_discs_positions] and of [check_goal] *)

Section reset_more.
Context {F S : Type} `{Scalar F} `{CollisionFlag.values} `{RecorderEnv}
  `{!GameEnv F S}.

Local Abbreviation game := (@Game.t F S).

(** What a player's turn of the loop leaves in the player's disc. *)
Lemma reset_player_marks (store : Stadium F (Disc F)) (live : Stadium F DiscRef)
    (p : PlayerHandler) (counts counts' : Z * Z) (h h' : list (Disc F)) :
  Game.reset_player store live p counts h = Ok (counts', h') ->
  (disc p < length h)%nat ->
  player_id (Game.deref h' (disc p)) = Some (id p)
  /\ color (Game.deref h' (disc p)) = team_color (team p)
  /\ CollisionFlag.includes (collision_group (Game.deref h' (disc p)))
       (team_flag (team p)).
Proof.
  unfold Game.reset_player. destruct counts as [rc bc]. intros Hrun Hlt.
  set (h4 := alter (set_color _) (disc p) _) in Hrun.
  assert (Hd : player_id (Game.deref h4 (disc p)) = Some (id p)
               /\ color (Game.deref h4 (disc p)) = team_color (team p)
               /\ CollisionFlag.includes
                    (collision_group (Game.deref h4 (disc p)))
                    (team_flag (team p))).
  { unfold h4. rewrite !deref_alter.
    repeat (rewrite decide_True by (rewrite ?length_alter; done)).
    simpl. repeat split; try done.
    replace (if decide (team p = TeamID.RED) then CollisionFlag.RED
             else CollisionFlag.BLUE) with (team_flag (team p))
      by (by destruct (team p)).
    apply includes_lor_r. }
  assert (Hlen4 : length h4 = length h) by (unfold h4; by rewrite !length_alter).
  repeat case_decide.
  - apply bind_Ok in Hrun as (pos & _ & [= _ <-]).
    rewrite deref_alter, decide_True by (split; [done|lia]). done.
  - apply bind_Ok in Hrun as (pos & _ & [= _ <-]).
    rewrite deref_alter, decide_True by (split; [done|lia]). done.
  - by injection Hrun as _ <-.
Qed.

(** A mark a player's turn leaves in its disc is still there at the end of
    the loop, when no later player shares the disc. *)
Lemma reset_players_keep (Q : Disc F -> Prop)
    (store : Stadium F (Disc F)) (live : Stadium F DiscRef)
    (ps : list PlayerHandler) (counts : Z * Z) (h h' : list (Disc F))
    (i : nat) (p : PlayerHandler) :
  Game.reset_players store live ps counts h = Ok h' ->
  ps !! i = Some p ->
  disc p ∉ map disc (drop (Datatypes.S i) ps) ->
  (forall c0 c1 h0 h1, length h0 = length h ->
     Game.reset_player store live p c0 h0 = Ok (c1, h1) ->
     Q (Game.deref h1 (disc p))) ->
  Q (Game.deref h' (disc p)).
Proof.
  revert counts h i. induction ps as [|p0 ps IH]; intros [rc bc] h i; [done|].
  rewrite reset_players_cons. intros Hrun Hi Hlater HQ.
  apply bind_Ok in Hrun as ([[rc' bc'] h1] & Hstep & Hrest). simpl in Hrest.
  pose proof (reset_player_team store live p0 rc bc h) as Hteam.
  rewrite Hstep in Hteam. destruct Hteam as (Hlen1 & _).
  destruct i as [|i]; simpl in Hi, Hlater.
  - injection Hi as ->.
    pose proof (reset_players_spec store live ps rc' bc' h1) as Hspec.
    rewrite Hrest in Hspec. destruct Hspec as (_ & Hframe & _).
    rewrite Hframe by done. by eapply (HQ _ _ h h1).
  - eapply (IH (rc', bc') h1 i); try done.
    intros c0 c1 h0 h2 Hlen0. apply HQ. congruence.
Qed.

(** X17.  After [reset_discs_positions] the disc of every player carries
    the player's id and the team's colour, and its group includes the flag
    of the team: the RED flag for a red player and the BLUE flag for every
    other player, a spectator included. *)
Theorem reset_marks_player_discs (g g' : game) (i : nat) (p : PlayerHandler) :
  Game.reset_discs_positions g = Ok g' ->
  NoDup (map disc (Game.players g)) ->
  Game.players g !! i = Some p ->
  (disc p < length (Game.heap g))%nat ->
  player_id (Game.deref (Game.heap g') (disc p)) = Some (id p)
  /\ color (Game.deref (Game.heap g') (disc p)) = team_color (team p)
  /\ CollisionFlag.includes
       (collision_group (Game.deref (Game.heap g') (disc p)))
       (if decide (team p = TeamID.RED) then CollisionFlag.RED
        else CollisionFlag.BLUE).
Proof.
  intros Hrun Hnd Hi Hlt.
  apply reset_discs_positions_inv in Hrun as (dg & ds & _ & _ & Hps & _).
  replace (if decide (team p = TeamID.RED) then CollisionFlag.RED
           else CollisionFlag.BLUE) with (team_flag (team p))
    by (by destruct (team p)).
  apply (reset_players_keep
           (fun d => player_id d = Some (id p)
                     /\ color d = team_color (team p)
                     /\ CollisionFlag.includes (collision_group d)
                          (team_flag (team p)))
           _ _ _ _ _ _ i p Hps Hi).
  - by apply NoDup_later.
  - intros c0 c1 h0 h1 Hlen0 Hstep.
    apply (reset_player_marks _ _ _ _ _ _ _ Hstep).
    rewrite Hlen0, restore_discs_length. done.
Qed.

(** X18.  With spawn points for its team, the player that is number [k] of
    the team in roster order is placed at the team's spawn point number
    [k]: the players take the spawn points in the order of the roster. *)
Theorem reset_uses_spawn_points_in_order
    (g g' : game) (i : nat) (p : PlayerHandler) :
  Game.reset_discs_positions g = Ok g' ->
  NoDup (map disc (Game.players g)) ->
  Game.players g !! i = Some p ->
  (disc p < length (Game.heap g))%nat ->
  team p <> TeamID.SPECTATOR ->
  team_spawn_points (Game.stadium_store g) (team p) <> [] ->
  let k := team_count (team p) (take i (Game.players g)) in
  exists pos,
    team_spawn_points (Game.stadium_store g) (team p) !! Z.to_nat k = Some pos
    /\ position (Game.deref (Game.heap g') (disc p)) = Some pos.
Proof.
  intros Hrun Hnd Hi Hlt Ht Hne k.
  destruct (reset_places_players g g' i p Hrun Hnd Hi Ht Hlt) as (pos & Hsp & Hpos).
  fold k in Hsp.
  destruct (team_spawn_points_spec (Game.stadium_store g) (Game.stadium_game g)
              (team p) k) as [x Hx].
  rewrite Hx in Hsp.
  destruct (spawn_position_spec (team_spawn_points (Game.stadium_store g) (team p))
              x k) as (_ & Hcons); [apply team_count_nonneg|].
  destruct (Hcons Hne) as (_ & Hin & Hout).
  destruct (decide (k < len (team_spawn_points (Game.stadium_store g) (team p))))
    as [Hk|Hk].
  - destruct (Hin Hk) as (pos' & Hl & Hsp'). exists pos'. split; [done|].
    congruence.
  - destruct Hout as [_ Herr]; [lia|]. congruence.
Qed.

(** X19.  The procedural spawn of player number [k] lies at the ordinate
    [y] with [|y| = 55 * ceil(k / 2)], below zero for odd [k] and above for
    even [k > 0]; no two numbers share an ordinate, so the players of a
    team never spawn on top of each other. *)
Theorem fallback_spawn_ordinates (x : F) (k k' : Z) :
  0 <= k -> 0 <= k' ->
  Game.fallback_spawn x k = (x, of_Z (spec_spawn_y k))
  /\ Z.abs (spec_spawn_y k) = 55 * ((k + 1) / 2)
  /\ (spec_spawn_y k < 0 <-> Z.odd k = true)
  /\ (spec_spawn_y k = spec_spawn_y k' -> k = k').
Proof.
  intros Hk Hk'. split; [apply fallback_spawn_spec|].
  unfold spec_spawn_y. rewrite !Z.shiftr_div_pow2 by lia.
  change (2 ^ 1) with 2.
  pose proof (Zmod_odd k) as Hodd. pose proof (Zmod_odd k') as Hodd'.
  pose proof (Z.div_mod (k + 1) 2 ltac:(lia)) as Hd.
  pose proof (Z.div_mod (k' + 1) 2 ltac:(lia)) as Hd'.
  pose proof (Z.div_mod k 2 ltac:(lia)) as Hm.
  pose proof (Z.div_mod k' 2 ltac:(lia)) as Hm'.
  pose proof (Z.mod_pos_bound (k + 1) 2 ltac:(lia)).
  pose proof (Z.mod_pos_bound (k' + 1) 2 ltac:(lia)).
  destruct (Z.odd k), (Z.odd k'); repeat split; try lia; try done.
Qed.

(** [check_goal] without goals. *)
Lemma check_goal_pairs_no_goal (pairs : list (Disc F * Disc F)) :
  Game.check_goal_pairs pairs [] = Ok TeamID.SPECTATOR.
Proof. induction pairs as [|[p c] pairs IH]; [done|]. simpl. exact IH. Qed.

(** X20.  [check_goal] answers SPECTATOR, without looking at a position,
    when there is no snapshot, no disc with the score flag or no goal; a
    snapshot beyond the last score disc is not examined at all.  With a goal to
    test, a first pair in which the snapshot or the disc has no position
    raises [TypeError]. *)
Theorem check_goal_edges (previous : list (Disc F)) (g : game) :
  (previous = [] \/ Game.score_discs g = [] \/ goals (Game.stadium_game g) = [] ->
   Game.check_goal previous g = Ok TeamID.SPECTATOR)
  /\ Game.check_goal previous g
     = Game.check_goal (take (length (Game.score_discs g)) previous) g
  /\ (forall p rest c rest' goal gs,
        previous = p :: rest -> Game.score_discs g = c :: rest' ->
        goals (Game.stadium_game g) = goal :: gs ->
        ~ placed p \/ ~ placed c ->
        Game.check_goal previous g = Err TypeError).
Proof.
  unfold Game.check_goal. split; [|split].
  - intros [-> | [-> | ->]].
    + done.
    + by destruct previous.
    + apply check_goal_pairs_no_goal.
  - f_equal. generalize (Game.score_discs g). intros cur.
    revert cur. induction previous as [|p prev IH]; intros [|c cur]; try done.
    simpl. by rewrite <- IH.
  - intros p rest c rest' goal gs -> -> -> Hnp. simpl.
    unfold Game.crosses_goal, Game.position_of, placed in *.
    destruct (position p) as [pp|]; [|done].
    destruct (position c) as [cp|]; [|done].
    destruct Hnp as [Hn|Hn]; destruct Hn; by eexists.
Qed.

End reset_more.

(** ** Vertices *)

Section vertex_facts.
Context {F : Type} `{Scalar F} `{CollisionFlag.values}.

(** X21.  [to_vertex] always yields a vertex: its position is the [(x, y)]
    of the description, and each of [b_coef], [c_group] and [c_mask] is the
    value the description sets, else the value the trait it names sets,
    else the default ([1], ["wall"], ["all"]).  A trait name that is not in
    the table counts as no trait. *)
Theorem to_vertex_resolution
    (traits : gmap string (@Vertex.Trait F)) (v : @Vertex.VertexRaw F) :
  let named := Vertex.trait v ≫= fun n => traits !! n in
  exists vertex,
    Vertex.to_vertex traits v = Some vertex
    /\ Vertex.position vertex = (Vertex.x v, Vertex.y v)
    /\ Vertex.vertex_b_coef vertex =
         default (of_Z 1)
           (match Vertex.b_coef v with
            | Some b => Some b
            | None => named ≫= Vertex.trait_b_coef
            end)
    /\ Vertex.vertex_c_group vertex =
         CollisionFlag.from_list
           (default ["wall"]
              (match Vertex.c_group v with
               | Some c => Some c
               | None => named ≫= Vertex.trait_c_group
               end))
    /\ Vertex.vertex_c_mask vertex =
         CollisionFlag.from_list
           (default ["all"]
              (match Vertex.c_mask v with
               | Some c => Some c
               | None => named ≫= Vertex.trait_c_mask
               end)).
Proof.
  destruct v as [x y b cg cm tr]. unfold Vertex.to_vertex, Vertex.apply_trait.
  simpl. destruct tr as [n|]; simpl.
  - destruct (traits !! n) as [[tb tg tm]|]; simpl;
      destruct b, cg, cm; simpl; try (eexists; by repeat split);
      destruct tb, tg, tm; simpl; eexists; by repeat split.
  - destruct b, cg, cm; simpl; eexists; by repeat split.
Qed.

End vertex_facts.

(** ** The game and its recorder; the inline ball *)

Section session_more.
Context {F S : Type} `{Scalar F} `{CollisionFlag.values} `{RecorderEnv}
  `{!GameEnv F S}.

Local Abbreviation game := (@Game.t F S).

(** X22.  A tick that succeeds hands the recorder exactly the rows the
    players were given, normalized when they came as a list: the recorder
    of the game after the tick is the one [Recorder.step] yields on these
    rows.  A game without recorder stays without. *)
Theorem step_records_tick (actions : ActionsType) (g g' : game) (fin : bool) :
  Game.step actions g = Ok (fin, g') ->
  exists rows,
    match actions with
    | ActionsSeq seq => rows = map normalize_action seq
    | ActionsArray rows' => rows = rows'
    end
    /\ match Game.recorder g with
       | Some r =>
           exists r', Recorder.step rows r = Ok r'
                      /\ Game.recorder g' = Some r'
       | None => Game.recorder g' = None
       end.
Proof.
  intros Hrun. apply step_rows in Hrun as (rows & Hrows & Hrun).
  exists rows. split; [exact Hrows|]. clear Hrows.
  unfold Game.step in Hrun. simpl in Hrun.
  pose proof (apply_actions_recorder rows (Game.players g) g) as Hrec.
  destruct (Game.apply_actions rows (Game.players g) g) as [ps g1].
  simpl in *. apply bind_Ok in Hrun as ([fin' g2] & Hh & Hrun).
  apply handle_game_state_recorder in Hh. simpl in Hh.
  rewrite Hrec in Hh. rewrite Hh in Hrun.
  destruct (Game.recorder g) as [r|].
  - apply bind_Ok in Hrun as (g3 & Hr3 & [= _ <-]).
    apply bind_Ok in Hr3 as (r' & Hstep & [= <-]). by exists r'.
  - simpl in Hrun. by injection Hrun as _ <-.
Qed.

(** X23.  Stopping a recorder fails only in writing the file: without
    [save], or for a recorder that was never started, [stop] returns; with
    [save], the error it raises is that of opening the file, else that of
    encoding the recording [[options[0], players_list]], else that of
    writing the bytes, and it returns when the three succeed.  The reads of
    [options[0]] are guarded and never raise. *)
Theorem recorder_stop_returns
    (save_flag : bool) (now : Z) (game : Recorder.GameView)
    (r : GameActionRecorder) (fs : FileSystem) :
  (save_flag = false \/ options r = [] ->
   is_Ok (Recorder.stop save_flag now game r fs))
  /\ (forall e, Recorder.stop save_flag now game r fs = Err e ->
        save_flag = true
        /\ exists o name,
             options r !! 0%nat = Some o
             /\ Recorder.generate_replay_name now game r = Ok name
             /\ (open_wb (Recorder.save_path r name) = Err e
                 \/ (open_wb (Recorder.save_path r name) = Ok tt
                     /\ packb (recording_value r) = Err e)
                 \/ (open_wb (Recorder.save_path r name) = Ok tt
                     /\ exists b,
                          packb (recording_value r) = Ok b
                          /\ write_bytes (Recorder.save_path r name) b
                             = Err e)))
  /\ (forall name b,
        Recorder.generate_replay_name now game r = Ok name ->
        open_wb (Recorder.save_path r name) = Ok tt ->
        packb (recording_value r) = Ok b ->
        write_bytes (Recorder.save_path r name) b = Ok tt ->
        is_Ok (Recorder.stop true now game r fs)).
Proof.
  split; [|split].
  - unfold Recorder.stop, Recorder.generate_replay_name, len.
    destruct (options r) as [|o os] eqn:Hopts; simpl; [intros _; by eexists|].
    change (py_getitem (o :: os) 0) with (Ok o : result PyVal). simpl.
    intros [->|?]; [|done]. simpl. by eexists.
  - unfold Recorder.stop, Recorder.generate_replay_name, Recorder.save,
      recording_value, len.
    destruct (options r) as [|o os] eqn:Hopts; simpl; [done|].
    change (py_getitem (o :: os) 0) with (Ok o : result PyVal). simpl.
    unfold Recorder.save_path. simpl.
    destruct save_flag; simpl; [|done].
    intros e He. split; [done|]. eexists o, _. split; [done|].
    split; [reflexivity|].
    destruct (open_wb _) as [[]|e1] eqn:Hopen; simpl in He;
      [|left; congruence].
    right. destruct (packb _) as [b|e2] eqn:Hpack; simpl in He;
      [|left; split; [done | congruence]].
    right. split; [done|]. exists b. split; [done|].
    destruct (write_bytes _ b) as [[]|e3] eqn:Hwrite; simpl in He;
      [done | congruence].
  - intros name b Hname Hopen Hpack Hwrite.
    destruct (options r) as [|o os] eqn:Hopts.
    + unfold Recorder.generate_replay_name in Hname. by rewrite Hopts in Hname.
    + eexists. by eapply recorder_stop_saves.
Qed.

End session_more.

Section ball_more.
Context {F : Type} `{Scalar F} `{CollisionFlag.values} {Trait : Type}.
Context (to_disc : gmap string JVal -> gmap string Trait -> result (@Ball.Disc F)).
Context (from_dict : @Ball.Disc F -> result (@Ball.Disc F)).

(** X24.  The position an inline ball description gives plays no part:
    whatever its ["pos"] entry holds, [get_ball] resolves the same ball.
    An inline ball and an absent one leave the disc list as it is; only
    ["disc0"] shortens it, by the first disc, from which the ball is
    built.  An error of the resolver is the error of [get_ball]. *)
Theorem get_ball_ignores_position
    (d : gmap string JVal) (pos : JVal) (discs : list Ball.Disc)
    (traits : gmap string Trait) :
  Ball.get_ball to_disc from_dict (Ball.BallDict (<["pos" := pos]> d)) discs
    traits
    = Ball.get_ball to_disc from_dict (Ball.BallDict d) discs traits
  /\ (forall arg b discs',
        Ball.get_ball to_disc from_dict arg discs traits = Ok (b, discs') ->
        discs' = discs
        \/ (arg = Ball.BallStr "disc0"
            /\ exists raw, discs = raw :: discs' /\ from_dict raw = Ok b))
  /\ (forall e,
        to_disc (<["pos" := JArr [JNum (inject_Z 0); JNum (inject_Z 0)]]> d)
          traits = Err e ->
        Ball.get_ball to_disc from_dict (Ball.BallDict d) discs traits
        = Err e).
Proof.
  split; [|split].
  - unfold Ball.get_ball. by rewrite insert_insert_eq.
  - intros [|s|d'] b discs'; simpl.
    + intros [= _ <-]. by left.
    + destruct (String.eqb_spec s "disc0") as [->|]; [|done].
      destruct discs as [|disc rest]; [done|]. intros Hrun.
      apply bind_Ok in Hrun as (ball & Hball & [= <- <-]).
      right. split; [done|]. by exists disc.
    + intros Hrun. apply bind_Ok in Hrun as (disc & _ & [= _ <-]). by left.
  - intros e He. simpl. by rewrite He.
Qed.

End ball_more.

(** ** The further theorems at work *)

Section concrete_more.
#[local] Existing Instance Q_scalar.
#[local] Existing Instance haxball_flags.
#[local] Existing Instance test_recorder_env.
#[local] Existing Instance test_game_env.
#[local] Existing Instance Scenario.test_score_stop.

Import Example.

Lemma test_input_bits : input_bits.
Proof.
  exists 0, 1, 2, 3, 4. do 5 (split; [lia|]).
  split; [apply (bool_decide_unpack _); by vm_compute|].
  repeat split.
Qed.

Lemma clamped_right_up_kick : clamped_action [1; -1; 1].
Proof. exists 1, (-1), 1. split; [done|]. lia. Qed.

Lemma input_translate_js_injective_witness :
  input_translate_js [1; -1; 1] = Ok 26 /\ [1; -1; 1] = [1; -1; 1].
Proof.
  split; [reflexivity|].
  exact (input_translate_js_injective [1; -1; 1] [1; -1; 1] test_input_bits
           clamped_right_up_kick clamped_right_up_kick eq_refl).
Defined.

Lemma recorder_step_appends_witness :
  exists r', Recorder.step [[1; 0; 0]; [0; 1; 1]] recorded = Ok r'
    /\ player_info r' = player_info recorded
    /\ player_action r' !! 3%nat = player_action recorded !! 3%nat.
Proof.
  destruct (Recorder.step [[1; 0; 0]; [0; 1; 1]] recorded) as [r'|e] eqn:Hrun;
    [|by vm_compute in Hrun].
  exists r'. split; [done|].
  destruct (recorder_step_appends _ _ _ 3%nat Hrun) as (_ & Hinfo & _ & Hrest).
  split; [exact Hinfo|]. apply Hrest. simpl. lia.
Defined.

Lemma recorded_streams : Forall is_stream (player_action recorded).
Proof. vm_compute. by repeat constructor. Qed.

Lemma recorder_step_returns_witness :
  is_Ok (Recorder.step [[1; 0; 0]; [0; 1; 1]] recorded).
Proof.
  destruct (recorder_step_returns [[1; 0; 0]; [0; 1; 1]] recorded
              recorded_streams) as [Hiff _].
  apply Hiff. split; [vm_compute; lia|]. repeat constructor; simpl; lia.
Defined.

Lemma record_ticks_tick_indexed_witness :
  exists codes,
    player_action recorded !! 0%nat = Some (VList (map VInt codes))
    /\ length codes = 3%nat.
Proof.
  destruct (record_ticks_tick_indexed view "recs" three_ticks recorded 0%nat)
    as (codes & Hstream & Hlen & _).
  { vm_compute. reflexivity. }
  { repeat constructor; simpl; lia. }
  { simpl. lia. }
  by exists codes.
Defined.

Lemma recorder_stop_effects_witness :
  exists r' fs',
    Recorder.stop true 1700000000 view recorded ∅ = Ok (r', fs')
    /\ options r' = [] /\ player_action r' = []
    /\ Recorder.stop true 1700000001 view r' fs' = Ok (r', fs').
Proof.
  destruct (Recorder.stop true 1700000000 view recorded ∅) as [[r' fs']|e]
    eqn:Hrun; [|by vm_compute in Hrun].
  exists r', fs'. split; [done|].
  destruct (recorder_stop_effects _ _ _ _ _ _ _ Hrun) as (Hr & _ & _ & _ & Hagain).
  split; [by rewrite Hr|]. split; [by rewrite Hr|]. apply Hagain.
Defined.

Lemma handle_game_state_transitions_witness :
  exists fin g',
    Game.handle_game_state snapshot (scoring 3) = Ok (fin, g')
    /\ transition GameState.PLAYING (Game.state g')
    /\ (fin = true -> Game.state g' = GameState.END).
Proof.
  destruct (Game.handle_game_state snapshot (scoring 3)) as [[fin g']|e]
    eqn:Hrun; [|by vm_compute in Hrun].
  exists fin, g'. split; [done|].
  destruct (handle_game_state_transitions _ _ _ _ Hrun) as (Hedge & _ & Hfin & _).
  split; [exact Hedge|]. intros Ht. by destruct (Hfin Ht).
Defined.

Lemma handle_game_state_frame_witness :
  exists fin g',
    Game.handle_game_state snapshot (scoring 3) = Ok (fin, g')
    /\ Game.players g' = Game.players (scoring 3)
    /\ length (Game.heap g') = length (Game.heap (scoring 3)).
Proof.
  destruct (Game.handle_game_state snapshot (scoring 3)) as [[fin g']|e]
    eqn:Hrun; [|by vm_compute in Hrun].
  exists fin, g'. split; [done|].
  destruct (handle_game_state_frame _ _ _ _ Hrun) as (Hps & _ & _ & _ & Hlen & _).
  by split.
Defined.

Lemma step_keeps_roster_witness :
  exists fin g',
    Game.step (ActionsArray [[1; 0; 0]; [0; 0; 0]; [0; 1; 0]; [0; 0; 0]])
      (started "partial" [] [] 1) = Ok (fin, g')
    /\ map identity (Game.players g')
       = map identity (Game.players (started "partial" [] [] 1)).
Proof.
  destruct (Game.step
              (ActionsArray [[1; 0; 0]; [0; 0; 0]; [0; 1; 0]; [0; 0; 0]])
              (started "partial" [] [] 1)) as [[fin g']|e] eqn:Hrun;
    [|by vm_compute in Hrun].
  exists fin, g'. split; [done|].
  exact (proj1 (step_keeps_roster _ _ _ _ Hrun)).
Defined.

Lemma step_stores_rows_witness :
  exists fin g' p',
    Game.step (ActionsArray [[1; 0; 0]; [0; 0; 0]; [0; 1; 0]])
      (started "partial" [] [] 1) = Ok (fin, g')
    /\ Game.players g' !! 2%nat = Some p'
    /\ action p' = [0; 1; 0].
Proof.
  destruct (Game.step (ActionsArray [[1; 0; 0]; [0; 0; 0]; [0; 1; 0]])
              (started "partial" [] [] 1)) as [[fin g']|e] eqn:Hrun;
    [|by vm_compute in Hrun].
  pose proof Hrun as Hv. vm_compute in Hv. injection Hv as <- <-.
  match goal with
  | Hr : _ = Ok (_, ?g) |- _ =>
      destruct (Game.players g !! 2%nat) as [p'|] eqn:Hp;
        [|by vm_compute in Hp]
  end.
  eexists _, _, p'. split; [reflexivity|]. split; [exact Hp|].
  destruct (step_stores_rows _ _ _ _ 2%nat p' Hrun Hp) as [Hrow _].
  exact (Hrow [0; 1; 0] eq_refl).
Defined.

Lemma step_ragged_rows_witness :
  Game.step (ActionsSeq [ActNone; ActArray [1; 0]]) (started "partial" [] [] 1)
  = Err ValueError.
Proof.
  refine (proj1 (step_ragged_rows [ActNone; ActArray [1; 0]]
                   (started "partial" [] [] 1) 0%nat 1%nat
                   ActNone (ActArray [1; 0]) eq_refl eq_refl _)).
  simpl. lia.
Defined.

Lemma start_appends_player_discs_witness :
  exists g',
    Game.start (fresh "partial" [] [] 1) = Ok g'
    /\ discs (Game.stadium_game g') = [0; 1; 2; 3; 4; 5]%nat.
Proof.
  destruct (Game.start (fresh "partial" [] [] 1)) as [g'|e] eqn:Hrun;
    [|by vm_compute in Hrun].
  exists g'. split; [done|].
  exact (proj1 (start_appends_player_discs _ _ Hrun)).
Defined.

Lemma stop_restores_template_witness :
  exists g' fs',
    GameOps.stop true 1700000000 started_recording ∅ = Ok (g', fs')
    /\ Game.state g' = GameState.KICKOFF
    /\ map (Game.deref (Game.heap g')) (discs (Game.stadium_game g'))
       = [ball; post].
Proof.
  destruct (GameOps.stop true 1700000000 started_recording ∅)
    as [[g' fs']|e] eqn:Hrun; [|by vm_compute in Hrun].
  exists g', fs'. split; [done|].
  destruct (stop_restores_template _ _ _ _ _ _ Hrun)
    as (Hstate & _ & _ & _ & Hcopy & _).
  split; [exact Hstate|]. rewrite Hcopy. by vm_compute.
Defined.

Lemma reset_disc_count_witness :
  exists g' fs',
    GameOps.reset false 0 (started "partial" [] [] 1) ∅ = Ok (g', fs')
    /\ length (discs (Game.stadium_game g')) = 6%nat.
Proof.
  destruct (GameOps.reset false 0 (started "partial" [] [] 1) ∅)
    as [[g' fs']|e] eqn:Hrun; [|by vm_compute in Hrun].
  exists g', fs'. split; [done|].
  destruct (reset_disc_count _ _ _ _ _ _ Hrun) as (_ & Hlen & _).
  rewrite Hlen. by vm_compute.
Defined.

Lemma with_spawns_distinct_discs :
  NoDup (map disc (Game.players Scenario.with_spawns)).
Proof. apply (bool_decide_unpack _). by vm_compute. Qed.

Lemma reset_marks_player_discs_witness :
  exists g',
    Game.reset_discs_positions Scenario.with_spawns = Ok g'
    /\ player_id (Game.deref (Game.heap g') 3%nat) = Some 1.
Proof.
  destruct (Game.reset_discs_positions Scenario.with_spawns) as [g'|e]
    eqn:Hrun; [|by vm_compute in Hrun].
  exists g'. split; [done|].
  refine (proj1 (reset_marks_player_discs _ _ 1%nat
                   (player "P1" 1 TeamID.BLUE 3%nat) Hrun
                   with_spawns_distinct_discs eq_refl _)).
  simpl. lia.
Defined.

Lemma reset_uses_spawn_points_in_order_witness :
  exists g',
    Game.reset_discs_positions Scenario.with_spawns = Ok g'
    /\ position (Game.deref (Game.heap g') 4%nat) = Some (q (-200), q 100).
Proof.
  destruct (Game.reset_discs_positions Scenario.with_spawns) as [g'|e]
    eqn:Hrun; [|by vm_compute in Hrun].
  exists g'. split; [done|].
  destruct (reset_uses_spawn_points_in_order _ _ 2%nat
              (player "P2" 2 TeamID.RED 4%nat) Hrun
              with_spawns_distinct_discs eq_refl)
    as (pos & Hpoint & Hpos); [simpl; lia | done | done |].
  simpl in Hpos. rewrite Hpos. vm_compute in Hpoint. by injection Hpoint as <-.
Defined.

Lemma fallback_spawn_ordinates_witness :
  Z.abs (spec_spawn_y 3) = 110 /\ spec_spawn_y 3 < 0.
Proof.
  destruct (fallback_spawn_ordinates (q 170) 3 4) as (_ & Habs & Hsign & _);
    [lia | lia |].
  split; [exact Habs|]. by apply Hsign.
Defined.

Lemma step_records_tick_witness :
  exists fin g' r',
    Game.step (ActionsSeq [ActNone; ActSeq [CInt 1; CNone; CInt 1]])
      started_recording = Ok (fin, g')
    /\ Game.recorder g' = Some r'.
Proof.
  destruct (Game.step (ActionsSeq [ActNone; ActSeq [CInt 1; CNone; CInt 1]])
              started_recording) as [[fin g']|e] eqn:Hrun;
    [|by vm_compute in Hrun].
  destruct (step_records_tick _ _ _ _ Hrun) as (rows & _ & Hrec).
  destruct (Game.recorder started_recording) as [r|] eqn:Hr;
    [|by vm_compute in Hr].
  destruct Hrec as (r' & _ & Hrec). by exists fin, g', r'.
Defined.

(** A recorder whose folder does not exist: [stop(save=True)] raises the
    error of [open], and nothing is read back. *)
Lemma stop_into_missing_folder :
  Recorder.stop true 1700000000 view
    (Recorder.start view (recorder_init "missing")) ∅
  = Err FileNotFoundError.
Proof. vm_compute. reflexivity. Qed.

(** With a [Disc] that is a [msgspec.Struct], the ["disc0"] form raises
    [AttributeError]. *)
Lemma disc0_of_a_struct :
  Ball.get_ball to_wall_disc struct_from_dict (Ball.BallStr "disc0")
    [wall_disc] ∅
  = Err AttributeError.
Proof. reflexivity. Qed.

End concrete_more.
